(** * Signal-detection utilities of [Code/sdt.py]: a shallow embedding

    The development models the four functions of [Code/sdt.py]
    ([dprime], [trials2counts], [fit_meta_d_logL], [fit_meta_d_MLE]) and
    proves or refutes the properties the specification states about them.

    Modelling conventions.
    - Python [int] values are [Z]; sequences are [list].
    - Floating-point values are [fval]: a real number or one of the three
      IEEE special values.  Arithmetic on finite values is exact (rounding,
      overflow and the sign of zero are not modelled); arithmetic on special
      values follows IEEE 754 as NumPy implements it (no exception, the
      result is [inf] or [nan]).
    - The division operator on plain Python numbers raises
      [ZeroDivisionError] on a zero divisor: [pydiv].  Where the kind of
      the operands is not fixed by the code (the entries [d1] and [t1c1]
      of [inputObj]), a number is a [scalar], plain or NumPy.
    - Exceptions are the [Raise] branch of [exc].
    - [scipy.optimize.minimize] and the pluggable [fncdf]/[fninv] are
      arguments of the model, as they are arguments of the code.  Of
      [Bounds] and [LinearConstraint] the model keeps the check of the
      shapes, which is what can raise. *)

From Stdlib Require Import String ZArith List Reals Lra Lia Bool FinFun.
From Stdlib Require Import Epsilon Factorial Permutation Sorted.
Import ListNotations.
Open Scope string_scope.
Open Scope list_scope.

Set Implicit Arguments.

(* ================================================================= *)
(** ** Exceptions *)

Inductive pyexn : Type :=
| TypeError (msg : string)  (* [raise('...')]: a [str] is not an exception *)
| ZeroDivisionError
| IndexError
| ValueError.

Inductive exc (A : Type) : Type :=
| Ok (a : A)
| Raise (e : pyexn).

Arguments Ok {A} a.
Arguments Raise {A} e.

Definition bind {A B : Type} (c : exc A) (k : A -> exc B) : exc B :=
  match c with
  | Ok a => k a
  | Raise e => Raise e
  end.

Notation "x <- c ;; k" := (bind c (fun x => k))
  (at level 61, c at next level, right associativity).

Fixpoint mapM {A B : Type} (f : A -> exc B) (l : list A) : exc (list B) :=
  match l with
  | [] => Ok []
  | a :: l' => b <- f a ;; bs <- mapM f l' ;; Ok (b :: bs)
  end.

(* ================================================================= *)
(** ** Python sequences: [range], indexing, slicing, [zip] *)

(** [range(start, stop)] *)
Definition py_range (start stop : Z) : list Z :=
  map (fun i => (start + Z.of_nat i)%Z) (seq 0 (Z.to_nat (stop - start))).

(** [range(start, stop, -1)] *)
Definition py_range_desc (start stop : Z) : list Z :=
  map (fun i => (start - Z.of_nat i)%Z) (seq 0 (Z.to_nat (start - stop))).

(** [l[i]]: a negative index counts from the end; out of range raises. *)
Definition py_index {A : Type} (l : list A) (i : Z) : exc A :=
  let n := Z.of_nat (length l) in
  let j := if (i <? 0)%Z then (n + i)%Z else i in
  if ((0 <=? j) && (j <? n))%Z
  then match nth_error l (Z.to_nat j) with
       | Some a => Ok a
       | None => Raise IndexError
       end
  else Raise IndexError.

(** The position a slice bound denotes in a sequence of length [len]. *)
Definition py_slice_bound (len : nat) (i : Z) : nat :=
  if (i <? 0)%Z then Z.to_nat (Z.max 0 (Z.of_nat len + i))
  else Nat.min (Z.to_nat i) len.

(** [l[lo:hi]] *)
Definition py_slice {A : Type} (l : list A) (lo hi : Z) : list A :=
  let a := py_slice_bound (length l) lo in
  let b := py_slice_bound (length l) hi in
  firstn (b - a) (skipn a l).

(** [l[lo:]] *)
Definition py_slice_from {A : Type} (l : list A) (lo : Z) : list A :=
  skipn (py_slice_bound (length l) lo) l.

(** [zip(a, b, c)]: stops at the shortest argument. *)
Definition zip3 {A B C : Type} (a : list A) (b : list B) (c : list C)
  : list (A * B * C) :=
  combine (combine a b) c.

(* ================================================================= *)
(** ** Floating-point values *)

Inductive fval : Type :=
| Fin (r : R)
| PInf
| NInf
| NaN.

Definition Rsgn (r : R) : comparison :=
  match total_order_T r 0 with
  | inleft (left _) => Lt
  | inleft (right _) => Eq
  | inright _ => Gt
  end.

Definition Reqb (a b : R) : bool :=
  if Req_dec_T a b then true else false.

Definition fneg (x : fval) : fval :=
  match x with
  | Fin r => Fin (- r)
  | PInf => NInf
  | NInf => PInf
  | NaN => NaN
  end.

Definition fadd (x y : fval) : fval :=
  match x, y with
  | NaN, _ | _, NaN => NaN
  | Fin a, Fin b => Fin (a + b)
  | PInf, NInf | NInf, PInf => NaN
  | PInf, _ | _, PInf => PInf
  | NInf, _ | _, NInf => NInf
  end.

Definition fsub (x y : fval) : fval := fadd x (fneg y).

(** Infinity with the sign of [c], or [nan] for [c = Eq]. *)
Definition signed_inf (c : comparison) : fval :=
  match c with
  | Gt => PInf
  | Lt => NInf
  | Eq => NaN
  end.

Definition fmul (x y : fval) : fval :=
  match x, y with
  | NaN, _ | _, NaN => NaN
  | Fin a, Fin b => Fin (a * b)
  | Fin a, PInf | PInf, Fin a => signed_inf (Rsgn a)
  | Fin a, NInf | NInf, Fin a => signed_inf (CompOpp (Rsgn a))
  | PInf, PInf | NInf, NInf => PInf
  | PInf, NInf | NInf, PInf => NInf
  end.

(** NumPy division: a zero divisor gives [inf] or [nan], never an
    exception.  The zero divisor is taken as [+0.0]. *)
Definition fdiv (x y : fval) : fval :=
  match x, y with
  | NaN, _ | _, NaN => NaN
  | Fin a, Fin b => if Reqb b 0 then signed_inf (Rsgn a) else Fin (a / b)
  | Fin _, (PInf | NInf) => Fin 0
  | PInf, Fin b => match Rsgn b with Lt => NInf | _ => PInf end
  | NInf, Fin b => match Rsgn b with Lt => PInf | _ => NInf end
  | (PInf | NInf), (PInf | NInf) => NaN
  end.

(** [np.log] *)
Definition np_log (x : fval) : fval :=
  match x with
  | Fin r => match Rsgn r with
             | Gt => Fin (ln r)
             | Eq => NInf
             | Lt => NaN
             end
  | PInf => PInf
  | NInf | NaN => NaN
  end.

(** [np.sqrt] *)
Definition np_sqrt (x : fval) : fval :=
  match x with
  | Fin r => match Rsgn r with
             | Lt => NaN
             | _ => Fin (sqrt r)
             end
  | PInf => PInf
  | NInf | NaN => NaN
  end.

Definition np_isinf (x : fval) : bool :=
  match x with PInf | NInf => true | _ => false end.

Definition np_isnan (x : fval) : bool :=
  match x with NaN => true | _ => false end.

Definition is_finite (x : fval) : Prop :=
  exists r : R, x = Fin r.

(** [np.sum] of a list of floats. *)
Definition np_sum (l : list fval) : fval :=
  fold_left fadd l (Fin 0).

(** [a / b] on plain Python numbers. *)
Definition pydiv (a b : R) : exc R :=
  if Reqb b 0 then Raise ZeroDivisionError else Ok (a / b)%R.

(** The builtin [sum] on a list of plain Python numbers. *)
Definition py_sum (l : list R) : R :=
  fold_left Rplus l 0%R.

(** [np.zeros(n)] and [np.ones(n)]: a negative dimension raises. *)
Definition np_zeros (n : Z) : exc (list fval) :=
  if (n <? 0)%Z then Raise ValueError
  else Ok (repeat (Fin 0) (Z.to_nat n)).

Definition np_ones (n : Z) : exc (list fval) :=
  if (n <? 0)%Z then Raise ValueError
  else Ok (repeat (Fin 1) (Z.to_nat n)).

(* ================================================================= *)
(** ** The standard normal distribution

    [scipy.stats.norm.cdf] and [scipy.stats.norm.ppf], the default values
    of [fncdf] and [fninv], as the mathematical functions they compute:
    the distribution function [Phi] of the standard normal law and its
    inverse. *)

Section StandardNormal.

Local Open Scope R_scope.

(** The density, up to the factor [1 / sqrt (2 * PI)]. *)
Definition gauss (t : R) : R := exp (- (t * t / 2)).

(** [gauss] is continuous, hence integrable on every segment. *)
Definition gauss_integrable (a b : R) : Riemann_integrable gauss a b.
Proof.
  assert (Hc : continuity gauss).
  { unfold gauss.
    apply (continuity_comp (fun t => - (t * t / 2)) exp).
    - reg.
    - apply derivable_continuous. apply derivable_exp. }
  destruct (Rle_dec a b) as [H | H].
  - apply continuity_implies_RiemannInt; [exact H |].
    intros t _. apply Hc.
  - apply RiemannInt_P1. apply continuity_implies_RiemannInt; [lra |].
    intros t _. apply Hc.
Qed.

(** The integral of [gauss] from [a] to [b]. *)
Definition gauss_integral (a b : R) : R := RiemannInt (gauss_integrable a b).

Definition sqrt_2PI : R := sqrt (2 * PI).

(** [Phi x = 1/2 + (1 / sqrt (2 * PI)) * integral of gauss from 0 to x],
    with [Phi (- x) = 1 - Phi x]. *)
Definition Phi (u : R) : R :=
  if Rle_dec 0 u
  then 1 / 2 + gauss_integral 0 u / sqrt_2PI
  else 1 / 2 - gauss_integral 0 (- u) / sqrt_2PI.

(** The partial sums of the series of [gauss] and their integrals. *)
Definition taylor_upper (t : R) : R := 1 - / 2 * t ^ 2 + / 8 * t ^ 4.
Definition taylor_lower (t : R) : R :=
  1 - / 2 * t ^ 2 + / 8 * t ^ 4 - / 48 * t ^ 6.
Definition taylor_upper_int (u : R) : R := u - / 6 * u ^ 3 + / 40 * u ^ 5.
Definition taylor_lower_int (u : R) : R :=
  u - / 6 * u ^ 3 + / 40 * u ^ 5 - / 336 * u ^ 7.

End StandardNormal.

(** [norm.cdf(x, loc, scale)]: [Phi] at [(x - loc) / scale], with the
    limits at the infinities; NaN for a scale that is not positive. *)
Definition norm_cdf (v loc scale : fval) : fval :=
  match scale with
  | Fin w =>
      match Rsgn w with
      | Gt => match fdiv (fsub v loc) scale with
              | Fin z => Fin (Phi z)
              | NInf => Fin 0
              | PInf => Fin 1
              | NaN => NaN
              end
      | _ => NaN
      end
  | _ => NaN
  end.

(** [norm.ppf(q)]: the point where [Phi] takes the value [q], infinite at
    0 and 1, NaN outside [[0, 1]]. *)
Definition norm_ppf (q : fval) : fval :=
  match q with
  | Fin p => match Rsgn p, Rsgn (1 - p) with
             | Lt, _ | _, Lt => NaN
             | Eq, _ => NInf
             | _, Eq => PInf
             | Gt, Gt => Fin (epsilon (inhabits 0%R) (fun z => Phi z = p))
             end
  | _ => NaN
  end.

(* ================================================================= *)
(** ** [dprime] (sdt.py, lines 8-49) *)

Definition dprime (hits misses fas crs : R) : exc fval :=
  (* Floors an ceilings are replaced by half hits and half FA's *)
  let half_hit := (0.5 * (hits + misses))%R in
  let half_fa := (0.5 * (fas + crs))%R in
  (* Calculate hit_rate and avoid d' infinity *)
  hit_rate <- pydiv hits (hits + misses) ;;
  let hit_rate := if Reqb hit_rate 1 then (1 - half_hit)%R else hit_rate in
  let hit_rate := if Reqb hit_rate 0 then half_hit else hit_rate in
  (* Calculate false alarm rate and avoid d' infinity *)
  fa_rate <- pydiv fas (fas + crs) ;;
  let fa_rate := if Reqb fa_rate 1 then (1 - half_fa)%R else fa_rate in
  let fa_rate := if Reqb fa_rate 0 then half_fa else fa_rate in
  Ok (fsub (norm_ppf (Fin hit_rate)) (norm_ppf (Fin fa_rate))).

(* ================================================================= *)
(** ** [trials2counts] (sdt.py, lines 52-177) *)

(** A response count: an [int], or a [float] once padding was added. *)
Inductive pynum : Type :=
| PyInt (n : Z)
| PyFloat (x : R).

Definition trial : Type := (Z * Z * Z)%type.

(** Line 137: the record is kept. *)
Definition valid_trial (nRatings : Z) (t : trial) : bool :=
  let '(s, rp, rt) := t in
  (((s =? 0) || (s =? 1)) && ((rp =? 0) || (rp =? 1))
   && ((rt >=? 1) && (rt <=? nRatings)))%Z.

(** One pass of the inner loops (lines 152-157 and 163-168): the cells of
    rating [r] and response [resp], for stimulus 0 and for stimulus 1. *)
Definition count_cells (resp r : Z) (trials : list trial) : Z * Z :=
  fold_left
    (fun (acc : Z * Z) (t : trial) =>
       let '(cs1, cs2) := acc in
       let '(s, rp, rt) := t in
       let cs1 := if ((s =? 0) && (rp =? resp) && (rt =? r))%Z
                  then (cs1 + 1)%Z else cs1 in
       let cs2 := if ((s =? 1) && (rp =? resp) && (rt =? r))%Z
                  then (cs2 + 1)%Z else cs2 in
       (cs1, cs2))
    trials (0%Z, 0%Z).

Definition trials2counts (stimID response rating : list Z) (nRatings : Z)
    (padCells : bool) (padAmount : option R)
  : exc (list pynum * list pynum) :=
  (* Check for valid inputs *)
  if negb (length stimID =? length response)%nat
     && (length stimID =? length rating)%nat
  then Raise (TypeError "Input vectors must have the same lengths")
  else
    let kept := filter (valid_trial nRatings) (zip3 stimID response rating) in
    let stimID := map (fun t : trial => fst (fst t)) kept in
    let response := map (fun t : trial => snd (fst t)) kept in
    let rating := map (fun t : trial => snd t) kept in
    padAmount <- match padAmount with
                 | None => pydiv 1 (IZR (2 * nRatings))
                 | Some p => Ok p
                 end ;;
    (* S1 responses *)
    let rS1 := map (fun r => count_cells 0 r (zip3 stimID response rating))
                   (py_range_desc nRatings 0) in
    (* S2 responses *)
    let rS2 := map (fun r => count_cells 1 r (zip3 stimID response rating))
                   (py_range 1 (nRatings + 1)) in
    let nR_S1 := map fst rS1 ++ map fst rS2 in
    let nR_S2 := map snd rS1 ++ map snd rS2 in
    (* pad response counts to avoid zeros *)
    if padCells
    then Ok (map (fun n => PyFloat (IZR n + padAmount)) nR_S1,
             map (fun n => PyFloat (IZR n + padAmount)) nR_S2)
    else Ok (map PyInt nR_S1, map PyInt nR_S2).

(* ================================================================= *)
(** ** [fit_meta_d_logL] (sdt.py, lines 180-250) *)

(** A number bound to one of the names that [eval] reads: a plain Python
    number, or a NumPy scalar, as [fninv] and the indexing of an array
    return.  The two kinds differ in what a division by zero does. *)
Inductive scalar : Type :=
  | Plain (v : fval)
  | Numpy (v : fval).

Definition scalar_value (a : scalar) : fval :=
  match a with
  | Plain v | Numpy v => v
  end.

(** [a / b] is Python's own division, which raises on a zero divisor, only
    when both operands are plain numbers; one NumPy operand makes it
    NumPy's, which returns [inf] or [nan]. *)
Definition divides_plain_zero (a b : scalar) : bool :=
  match a, b with
  | Plain _, Plain (Fin r) => Reqb r 0
  | _, _ => false
  end.

Definition scalar_div (a b : scalar) : exc fval :=
  if divides_plain_zero a b then Raise ZeroDivisionError
  else Ok (fdiv (scalar_value a) (scalar_value b)).

(** The expression held by [constant_criterion] and evaluated with
    [eval]: a function of the local names [meta_d1], [t1c1] and [d1] it
    mentions, which may raise. *)
Definition criterion_expr : Type := fval -> scalar -> scalar -> exc fval.

(** ['meta_d1 * (t1c1 / d1)'] (line 442): the relative criterion. *)
Definition relative_criterion : criterion_expr :=
  fun meta_d1 t1c1 d1 =>
    q <- scalar_div t1c1 d1 ;;
    Ok (fmul meta_d1 q).

(** [inputObj]: the nine entries unpacked at lines 195-196. *)
Record inputObj : Type := {
  nR_S1 : list R;
  nR_S2 : list R;
  nRatings : Z;
  d1 : scalar;
  t1c1 : scalar;
  s : R;
  constant_criterion : criterion_expr;
  fncdf : fval -> fval -> fval -> fval;
  fninv : fval -> fval
}.

(** Means and standard deviations of the two distributions
    (lines 198-208), as [(S1mu, S1sd, S2mu, S2sd)]. *)
Definition distributions (meta_d1 : fval) (io : inputObj)
  : exc (fval * fval * fval * fval) :=
  (* define mean and SD of S1 and S2 distributions *)
  let S1mu := fdiv (fneg meta_d1) (Fin 2) in
  let S1sd := 1%R in
  let S2mu := fdiv meta_d1 (Fin 2) in
  S2sd <- pydiv S1sd (s io) ;;
  (* adjust so that the type 1 criterion is set at 0 *)
  shift <- constant_criterion io meta_d1 (t1c1 io) (d1 io) ;;
  let S1mu := fsub S1mu shift in
  shift <- constant_criterion io meta_d1 (t1c1 io) (d1 io) ;;
  let S2mu := fsub S2mu shift in
  Ok (S1mu, Fin S1sd, S2mu, Fin S2sd).

(** The [eval] of lines 207-208 returns a value, for the first parameter
    [meta_d1]. *)
Definition criterion_evaluates (io : inputObj) (meta_d1 : fval) : Prop :=
  exists shift : fval,
    constant_criterion io meta_d1 (t1c1 io) (d1 io) = Ok shift.

(** The areas on each side of the type 1 criterion (lines 222-226), as
    [(C_area_rS1, I_area_rS1, C_area_rS2, I_area_rS2)]. *)
Definition type1_areas (cdf : fval -> fval -> fval -> fval)
    (t1c1 S1mu S1sd S2mu S2sd : fval) : fval * fval * fval * fval :=
  (cdf t1c1 S1mu S1sd,
   cdf t1c1 S2mu S2sd,
   fsub (Fin 1) (cdf t1c1 S2mu S2sd),
   fsub (Fin 1) (cdf t1c1 S1mu S1sd)).

(** The criteria with the type 1 criterion and the two infinite sentinels
    (lines 228-232). *)
Definition extended_criteria (t2c1 : list fval) (nRatings : Z) (t1c1 : fval)
  : list fval :=
  [NInf] ++ py_slice t2c1 0 (nRatings - 1) ++ [t1c1]
         ++ py_slice_from t2c1 (nRatings - 1) ++ [PInf].

(** The four lists of type 2 probabilities (lines 193-238), as
    [(prC_rS1, prI_rS1, prC_rS2, prI_rS2)]. *)
Definition type2_probabilities (parameters : list fval) (io : inputObj)
  : exc (list fval * list fval * list fval * list fval) :=
  meta_d1 <- py_index parameters 0 ;;
  let t2c1 := py_slice_from parameters 1 in
  dists <- distributions meta_d1 io ;;
  let '(S1mu, S1sd, S2mu, S2sd) := dists in
  let t1c1 := Fin 0 in
  let cdf := fncdf io in
  let n := nRatings io in
  (* get type 2 probabilities *)
  let '(C_area_rS1, I_area_rS1, C_area_rS2, I_area_rS2) :=
    type1_areas cdf t1c1 S1mu S1sd S2mu S2sd in
  let t2c1x := extended_criteria t2c1 n t1c1 in
  prC_rS1 <- mapM (fun i =>
      hi <- py_index t2c1x (i + 1) ;; lo <- py_index t2c1x i ;;
      Ok (fdiv (fsub (cdf hi S1mu S1sd) (cdf lo S1mu S1sd)) C_area_rS1))
    (py_range 0 n) ;;
  prI_rS1 <- mapM (fun i =>
      hi <- py_index t2c1x (i + 1) ;; lo <- py_index t2c1x i ;;
      Ok (fdiv (fsub (cdf hi S2mu S2sd) (cdf lo S2mu S2sd)) I_area_rS1))
    (py_range 0 n) ;;
  prC_rS2 <- mapM (fun i =>
      lo <- py_index t2c1x (n + i) ;; hi <- py_index t2c1x (n + i + 1) ;;
      Ok (fdiv (fsub (fsub (Fin 1) (cdf lo S2mu S2sd))
                     (fsub (Fin 1) (cdf hi S2mu S2sd))) C_area_rS2))
    (py_range 0 n) ;;
  prI_rS2 <- mapM (fun i =>
      lo <- py_index t2c1x (n + i) ;; hi <- py_index t2c1x (n + i + 1) ;;
      Ok (fdiv (fsub (fsub (Fin 1) (cdf lo S1mu S1sd))
                     (fsub (Fin 1) (cdf hi S1mu S1sd))) I_area_rS2))
    (py_range 0 n) ;;
  Ok (prC_rS1, prI_rS1, prC_rS2, prI_rS2).

(** The type 2 response counts (lines 213-219), as
    [(nC_rS1, nI_rS1, nC_rS2, nI_rS2)]. *)
Definition type2_counts (io : inputObj)
  : exc (list R * list R * list R * list R) :=
  let n := nRatings io in
  (* S1 responses *)
  nC_rS1 <- mapM (fun i => py_index (nR_S1 io) i) (py_range 0 n) ;;
  nI_rS1 <- mapM (fun i => py_index (nR_S2 io) i) (py_range 0 n) ;;
  (* S2 responses *)
  nC_rS2 <- mapM (fun i => py_index (nR_S2 io) (i + n)) (py_range 0 n) ;;
  nI_rS2 <- mapM (fun i => py_index (nR_S1 io) (i + n)) (py_range 0 n) ;;
  Ok (nC_rS1, nI_rS1, nC_rS2, nI_rS2).

(** The guard of lines 247-249. *)
Definition guard_logL (logL : fval) : fval :=
  if np_isinf logL || np_isnan logL then Fin (-1e300) else logL.

(** The log-likelihood before the guard (lines 193-245). *)
Definition log_likelihood (parameters : list fval) (io : inputObj)
  : exc fval :=
  (* lines 193-196 and 198-208 raise before the counts are read *)
  meta_d1 <- py_index parameters 0 ;;
  _ <- distributions meta_d1 io ;;
  counts <- type2_counts io ;;
  let '(nC_rS1, nI_rS1, nC_rS2, nI_rS2) := counts in
  probs <- type2_probabilities parameters io ;;
  let '(prC_rS1, prI_rS1, prC_rS2, prI_rS2) := probs in
  (* calculate logL *)
  terms <- mapM (fun i =>
      nC1 <- py_index nC_rS1 i ;; pC1 <- py_index prC_rS1 i ;;
      nI1 <- py_index nI_rS1 i ;; pI1 <- py_index prI_rS1 i ;;
      nC2 <- py_index nC_rS2 i ;; pC2 <- py_index prC_rS2 i ;;
      nI2 <- py_index nI_rS2 i ;; pI2 <- py_index prI_rS2 i ;;
      Ok (fadd (fadd (fadd (fmul (Fin nC1) (np_log pC1))
                           (fmul (Fin nI1) (np_log pI1)))
                     (fmul (Fin nC2) (np_log pC2)))
               (fmul (Fin nI2) (np_log pI2))))
    (py_range 0 (nRatings io)) ;;
  Ok (np_sum terms).

Definition fit_meta_d_logL (parameters : list fval) (io : inputObj)
  : exc fval :=
  logL <- log_likelihood parameters io ;;
  let logL := guard_logL logL in
  Ok (fneg logL).

(* ================================================================= *)
(** ** [fit_meta_d_MLE] (sdt.py, lines 253-581) *)

(** The argument of [LinearConstraint(A, lb, ub)] and of [Bounds(LB, UB)]. *)
Record ConstraintSystem : Type := {
  A : list (list fval);
  lb : list fval;
  ub : list fval;
  LB : list fval;
  UB : list fval
}.

(** Whether NumPy broadcasts a vector of [n] entries to [m] entries. *)
Definition broadcasts_to (n m : nat) : bool :=
  ((n =? m) || (n =? 1))%nat.

(** [Bounds(LB, UB)] (line 469): SciPy checks that the two vectors can be
    broadcast against each other and raises [ValueError] when they
    cannot. *)
Definition Bounds (LB UB : list fval) : exc unit :=
  if broadcasts_to (length LB) (length UB)
     || broadcasts_to (length UB) (length LB)
  then Ok tt
  else Raise ValueError.

(** [LinearConstraint(A, lb, ub)] (line 470), for a matrix whose rows have
    the same length, as the rows built at lines 420-425 have.  SciPy turns
    [A] into a matrix with [np.atleast_2d], so that an empty [A] counts one
    row (without a column), and checks that [lb] and [ub] can be broadcast
    to the number of rows; it raises [ValueError] when they cannot. *)
Definition LinearConstraint (A : list (list fval)) (lb ub : list fval)
  : exc unit :=
  let rows := match A with
              | [] => 1%nat
              | _ :: _ => length A
              end in
  if broadcasts_to (length lb) rows && broadcasts_to (length ub) rows
  then Ok tt
  else Raise ValueError.

(** What the code reads from the value of [minimize]. *)
Record OptimizeResult : Type := {
  x : list fval;
  fun_ : fval
}.

(** [scipy.optimize.minimize] with the options of lines 473-476: objective,
    initial guess, linear constraints and bounds. *)
Definition minimizer : Type :=
  (list fval -> exc fval) -> list fval -> ConstraintSystem
  -> exc OptimizeResult.

(** [fit['S1units']] *)
Record S1units : Type := {
  S1_d1 : fval;
  S1_meta_d1 : fval;
  S1_s : R;
  S1_meta_c1 : fval;
  S1_t2c1_rS1 : list fval;
  S1_t2c1_rS2 : list fval
}.

(** The dictionary [fit]. *)
Record FitResult : Type := {
  da : fval;
  fit_s : R;
  meta_da : fval;
  M_diff : fval;
  M_ratio : fval;
  meta_ca : fval;
  t2ca_rS1 : list fval;
  t2ca_rS2 : list fval;
  S1units_ : S1units;
  logL : fval;
  est_HR2_rS1 : list fval;
  obs_HR2_rS1 : list fval;
  est_FAR2_rS1 : list fval;
  obs_FAR2_rS1 : list fval;
  est_HR2_rS2 : list fval;
  obs_HR2_rS2 : list fval;
  est_FAR2_rS2 : list fval;
  obs_FAR2_rS2 : list fval
}.


(** Lines 406-439: the linear constraints and the bounds. *)
Definition constraint_system (nR_S1 : list R) : exc ConstraintSystem :=
  let nRatings := Z.of_nat (length nR_S1 / 2) in
  let nCriteria := (2 * nRatings - 1)%Z in
  rows <- mapM (fun ii =>
      z1 <- np_zeros (ii + 1) ;;
      z2 <- np_zeros ((nCriteria - 2) - ii - 1) ;;
      Ok (z1 ++ [Fin 1; Fin (-1)] ++ z2, Fin (-1e-5), NInf))
    (py_range 0 (nCriteria - 2)) ;;
  (* lower bounds on parameters *)
  LB1 <- np_ones ((nCriteria - 1) / 2) ;;
  LB2 <- np_zeros ((nCriteria - 1) / 2) ;;
  (* upper bounds on parameters *)
  UB1 <- np_zeros ((nCriteria - 1) / 2) ;;
  UB2 <- np_ones ((nCriteria - 1) / 2) ;;
  Ok {| A := map (fun row => fst (fst row)) rows;
        ub := map (fun row => snd (fst row)) rows;
        lb := map (fun row => snd row) rows;
        LB := [Fin (-10)] ++ map (fmul (Fin (-20))) LB1 ++ LB2;
        UB := [Fin 10] ++ UB1 ++ map (fmul (Fin 20)) UB2 |}.

(** Lines 445-449: the cumulative rates given to [fninv]. *)
Definition rating_rates (nR_S1 nR_S2 : list R) (nRatings : Z)
  : exc (list R * list R) :=
  rates <- mapM (fun c =>
      hr <- pydiv (py_sum (py_slice_from nR_S2 c)) (py_sum nR_S2) ;;
      far <- pydiv (py_sum (py_slice_from nR_S1 c)) (py_sum nR_S1) ;;
      Ok (hr, far))
    (py_range 1 (nRatings * 2)) ;;
  Ok (map fst rates, map snd rates).

(** Line 453: [list(set(range(0, 2*nRatings-1)) - set([t1_index]))]; a set
    of small integers is iterated in increasing order. *)
Definition t2_indices (nRatings t1_index : Z) : list Z :=
  filter (fun i => negb (i =? t1_index)%Z) (py_range 0 (2 * nRatings - 1)).

(** The initial guess and the values it is derived from: [d1] is what
    [fninv] returned and [t1c1] an entry of the array [c1], both NumPy
    scalars. *)
Record InitialEstimate : Type := {
  init_d1 : fval;
  init_t1c1 : fval;
  guess : list fval
}.

(** Lines 441-464. *)
Definition initial_estimate (nR_S1 nR_S2 : list R) (s : R)
    (fninv : fval -> fval) : exc InitialEstimate :=
  let nRatings := Z.of_nat (length nR_S1 / 2) in
  (* select constant criterion type *)
  let constant_criterion := relative_criterion in
  (* set up initial guess at parameter values *)
  rates <- rating_rates nR_S1 nR_S2 nRatings ;;
  let '(ratingHR, ratingFAR) := rates in
  (* obtain index in the criteria array to mark Type I and Type II criteria *)
  let t1_index := (nRatings - 1)%Z in
  let t2_index := t2_indices nRatings t1_index in
  inv_s <- pydiv 1 s ;;
  hr1 <- py_index ratingHR t1_index ;;
  far1 <- py_index ratingFAR t1_index ;;
  let d1 := fsub (fmul (Fin inv_s) (fninv (Fin hr1))) (fninv (Fin far1)) in
  let meta_d1 := d1 in
  scale <- pydiv (-1) (1 + s) ;;
  let c1 := map (fun hf : R * R =>
                   fmul (Fin scale)
                        (fadd (fninv (Fin (fst hf))) (fninv (Fin (snd hf)))))
                (combine ratingHR ratingFAR) in
  t1c1 <- py_index c1 t1_index ;;
  t2c1 <- mapM (py_index c1) t2_index ;;
  (* initial values for the minimization function *)
  shift <- constant_criterion meta_d1 (Numpy t1c1) (Numpy d1) ;;
  Ok {| init_d1 := d1;
        init_t1c1 := t1c1;
        guess := [meta_d1] ++ map (fun c => fsub c shift) t2c1 |}.

(** Lines 494-501 for the "S2" responses: the slices are Python lists, so
    a zero total raises. *)
Definition observed_rates_py (counts : list R) (nRatings : Z)
  : exc (list fval) :=
  mapM (fun i =>
      q <- pydiv (py_sum (py_slice_from counts (i + 1))) (py_sum counts) ;;
      Ok (Fin q))
    (py_range 0 (nRatings - 1)).

(** Lines 494-501 for the "S1" responses: [np.flip] makes the entries NumPy
    scalars, so a zero total gives [nan]. *)
Definition observed_rates_np (counts : list R) (nRatings : Z) : list fval :=
  map (fun i =>
      fdiv (Fin (py_sum (py_slice_from counts (i + 1))))
           (Fin (py_sum counts)))
    (py_range 0 (nRatings - 1)).

(** Lines 478-581: packaging of the optimizer's result. *)
Definition package (nR_S1 nR_S2 : list R) (s : R)
    (fncdf : fval -> fval -> fval -> fval)
    (d1 t1c1 : fval) (results : OptimizeResult) : exc FitResult :=
  let nRatings := Z.of_nat (length nR_S1 / 2) in
  let constant_criterion := relative_criterion in
  (* quickly process some of the output *)
  meta_d1 <- py_index (x results) 0 ;;
  shift <- constant_criterion meta_d1 (Numpy t1c1) (Numpy d1) ;;
  let t2c1 := map (fun c => fadd c shift) (py_slice_from (x results) 1) in
  let logL := fneg (fun_ results) in
  (* find observed t2FAR and t2HR *)
  let I_nR_rS2 := py_slice_from nR_S1 nRatings in
  let I_nR_rS1 := rev (py_slice nR_S2 0 nRatings) in
  let C_nR_rS2 := py_slice_from nR_S2 nRatings in
  let C_nR_rS1 := rev (py_slice nR_S1 0 nRatings) in
  obs_FAR2_rS2 <- observed_rates_py I_nR_rS2 nRatings ;;
  obs_HR2_rS2 <- observed_rates_py C_nR_rS2 nRatings ;;
  let obs_FAR2_rS1 := observed_rates_np I_nR_rS1 nRatings in
  let obs_HR2_rS1 := observed_rates_np C_nR_rS1 nRatings in
  (* find estimated t2FAR and t2HR *)
  let S1mu := fdiv (fneg meta_d1) (Fin 2) in
  let S1sd := 1%R in
  let S2mu := fdiv meta_d1 (Fin 2) in
  S2sd <- pydiv S1sd s ;;
  mt1c1 <- constant_criterion meta_d1 (Numpy t1c1) (Numpy d1) ;;
  let C_area_rS2 := fsub (Fin 1) (fncdf mt1c1 S2mu (Fin S2sd)) in
  let I_area_rS2 := fsub (Fin 1) (fncdf mt1c1 S1mu (Fin S1sd)) in
  let C_area_rS1 := fncdf mt1c1 S1mu (Fin S1sd) in
  let I_area_rS1 := fncdf mt1c1 S2mu (Fin S2sd) in
  est <- mapM (fun i =>
      t2c1_lower <- py_index t2c1 ((nRatings - 1) - (i + 1)) ;;
      t2c1_upper <- py_index t2c1 ((nRatings - 1) + i) ;;
      let I_FAR_area_rS2 := fsub (Fin 1) (fncdf t2c1_upper S1mu (Fin S1sd)) in
      let C_HR_area_rS2 := fsub (Fin 1) (fncdf t2c1_upper S2mu (Fin S2sd)) in
      let I_FAR_area_rS1 := fncdf t2c1_lower S2mu (Fin S2sd) in
      let C_HR_area_rS1 := fncdf t2c1_lower S1mu (Fin S1sd) in
      Ok (fdiv I_FAR_area_rS2 I_area_rS2, fdiv C_HR_area_rS2 C_area_rS2,
          fdiv I_FAR_area_rS1 I_area_rS1, fdiv C_HR_area_rS1 C_area_rS1))
    (py_range 0 (nRatings - 1)) ;;
  (* package output *)
  r <- pydiv 2 (1 + s * s) ;;
  let fit_da := fmul (fmul (np_sqrt (Fin r)) (Fin s)) d1 in
  let fit_meta_da := fmul (fmul (np_sqrt (Fin r)) (Fin s)) meta_d1 in
  mt1c1 <- constant_criterion meta_d1 (Numpy t1c1) (Numpy d1) ;;
  let rms := fdiv (fmul (np_sqrt (Fin 2)) (Fin s))
                  (np_sqrt (Fin (1 + s * s))) in
  let t2ca := map (fmul rms) t2c1 in
  Ok {| da := fit_da;
        fit_s := s;
        meta_da := fit_meta_da;
        M_diff := fsub fit_meta_da fit_da;
        M_ratio := fdiv fit_meta_da fit_da;
        meta_ca := fmul rms mt1c1;
        t2ca_rS1 := py_slice t2ca 0 (nRatings - 1);
        t2ca_rS2 := py_slice_from t2ca (nRatings - 1);
        S1units_ := {| S1_d1 := d1;
                       S1_meta_d1 := meta_d1;
                       S1_s := s;
                       S1_meta_c1 := mt1c1;
                       S1_t2c1_rS1 := py_slice t2c1 0 (nRatings - 1);
                       S1_t2c1_rS2 := py_slice_from t2c1 (nRatings - 1) |};
        logL := logL;
        est_HR2_rS1 := map (fun e => snd e) est;
        obs_HR2_rS1 := obs_HR2_rS1;
        est_FAR2_rS1 := map (fun e => snd (fst e)) est;
        obs_FAR2_rS1 := obs_FAR2_rS1;
        est_HR2_rS2 := map (fun e => snd (fst (fst e))) est;
        obs_HR2_rS2 := obs_HR2_rS2;
        est_FAR2_rS2 := map (fun e => fst (fst (fst e))) est;
        obs_FAR2_rS2 := obs_FAR2_rS2 |}.

Definition fit_meta_d_MLE (minimize : minimizer) (nR_S1 nR_S2 : list R)
    (s : R) (fncdf : fval -> fval -> fval -> fval) (fninv : fval -> fval)
  : exc FitResult :=
  if negb (length nR_S1 mod 2 =? 0)%nat
  then Raise (TypeError "input arrays must have an even number of elements")
  else if negb (length nR_S1 =? length nR_S2)%nat
  then Raise (TypeError "input arrays must have the same number of elements")
  else
    let nRatings := Z.of_nat (length nR_S1 / 2) in
    cs <- constraint_system nR_S1 ;;
    init <- initial_estimate nR_S1 nR_S2 s fninv ;;
    (* other inputs for the minimization function *)
    let io := {| nR_S1 := nR_S1; nR_S2 := nR_S2; nRatings := nRatings;
                 d1 := Numpy (init_d1 init); t1c1 := Numpy (init_t1c1 init);
                 s := s;
                 constant_criterion := relative_criterion;
                 fncdf := fncdf; fninv := fninv |} in
    bounds <- Bounds (LB cs) (UB cs) ;;
    linear_constraint <- LinearConstraint (A cs) (lb cs) (ub cs) ;;
    (* minimization of negative log-likelihood *)
    results <- minimize (fun p => fit_meta_d_logL p io) (guess init) cs ;;
    package nR_S1 nR_S2 s fncdf (init_d1 init) (init_t1c1 init) results.

(** The builtin [sum] on a list of response counts: integers add up to an
    integer, anything else to a float. *)
Definition pynum_add (a b : pynum) : pynum :=
  match a, b with
  | PyInt m, PyInt n => PyInt (m + n)
  | PyInt m, PyFloat y => PyFloat (IZR m + y)
  | PyFloat u, PyInt n => PyFloat (u + IZR n)
  | PyFloat u, PyFloat y => PyFloat (u + y)
  end.

Definition pynum_sum (l : list pynum) : pynum :=
  fold_left pynum_add l (PyInt 0).

(** A record whose three fields are in range, as the notes of
    [trials2counts] word it. *)
Definition in_range (nRatings : Z) (t : trial) : bool :=
  let '(stim, resp, rt) := t in
  (((stim =? 0) || (stim =? 1)) && ((resp =? 0) || (resp =? 1))
   && ((1 <=? rt) && (rt <=? nRatings)))%Z.

(** The number of in-range records presented with stimulus [stim]. *)
Definition in_range_trials (stim nRatings : Z)
    (stimID response rating : list Z) : Z :=
  Z.of_nat
    (length
       (filter (fun t : trial => in_range nRatings t && (fst (fst t) =? stim)%Z)
               (zip3 stimID response rating))).

(** The test of one cell of the count table: stimulus, response, rating. *)
Definition cell (stim resp r : Z) (t : trial) : bool :=
  let '(s, rp, rt) := t in
  ((s =? stim) && (rp =? resp) && (rt =? r))%Z.

Definition Zsum (l : list Z) : Z := fold_left Z.add l 0%Z.

(** Row [ii] of the matrix [A] built at lines 420-425, for [n] rows. *)
Definition constraint_row (n ii : Z) : list fval :=
  repeat (Fin 0) (Z.to_nat (ii + 1)) ++ [Fin 1; Fin (-1)]
  ++ repeat (Fin 0) (Z.to_nat (n - ii - 1)).

(** A cumulative distribution function, as a function on floats: limits 0
    and 1 at the two infinities, a probability at every real, monotone. *)
Definition is_cdf (F : fval -> fval) : Prop :=
  F NInf = Fin 0 /\
  F PInf = Fin 1 /\
  (forall r : R, exists p : R, F (Fin r) = Fin p /\ (0 <= p <= 1)%R) /\
  (forall a b pa pb : R,
      (a <= b)%R -> F (Fin a) = Fin pa -> F (Fin b) = Fin pb -> (pa <= pb)%R).

(** The real number a finite float stands for. *)
Definition fval_real (v : fval) : R :=
  match v with
  | Fin r => r
  | _ => 0%R
  end.

(** Entry [i] of the extended criteria of a parameter vector. *)
Definition criterion_at (parameters : list fval) (nRatings : Z) (i : nat)
  : fval :=
  nth i (extended_criteria (py_slice_from parameters 1) nRatings (Fin 0)) NaN.

(** *** A second distribution family to plug in

    [scipy.stats.uniform.cdf(x, loc, scale)] and
    [scipy.stats.uniform.ppf(q)]: the uniform distribution on
    [[loc, loc + scale]]. *)
Definition uniform_cdf (v loc scale : fval) : fval :=
  match loc, scale with
  | Fin m, Fin w =>
      match Rsgn w with
      | Gt => match v with
              | Fin r => Fin (Rmax 0 (Rmin 1 ((r - m) / w)))
              | NInf => Fin 0
              | PInf => Fin 1
              | NaN => NaN
              end
      | _ => NaN
      end
  | _, _ => NaN
  end.

Definition uniform_ppf (q : fval) : fval :=
  match q with
  | Fin r => match Rsgn r, Rsgn (1 - r) with
             | Lt, _ | _, Lt => NaN
             | _, _ => Fin r
             end
  | _ => NaN
  end.

(** An input object for two ratings, as [fit_meta_d_MLE] builds it from
    [nR_S1 = [3,3,1,1]] and [nR_S2 = [1,1,3,3]] when the uniform family is
    plugged in: [d1 = 0.75 - 0.25] and [t1c1 = -0.5 * (0.75 + 0.25)]. *)
Definition uniform_io : inputObj :=
  {| nR_S1 := [3; 3; 1; 1]%R;
     nR_S2 := [1; 1; 3; 3]%R;
     nRatings := 2;
     d1 := Numpy (Fin 0.5);
     t1c1 := Numpy (Fin (-0.5));
     s := 1;
     constant_criterion := relative_criterion;
     fncdf := uniform_cdf;
     fninv := uniform_ppf |}.

(** The vector [c1] of line 458. *)
Definition criteria_c1 (fninv : fval -> fval) (s : R)
    (ratingHR ratingFAR : list R) : list fval :=
  map (fun hf : R * R =>
         fmul (Fin (-1 / (1 + s)))
              (fadd (fninv (Fin (fst hf))) (fninv (Fin (snd hf)))))
      (combine ratingHR ratingFAR).

(** An optimizer that evaluates the objective at the point [pick guess] and
    stops there.  With [pick] the identity it returns its starting point,
    as [minimize] does when it makes no step. *)
Definition minimize_at (pick : list fval -> list fval) : minimizer :=
  fun objective guess _ =>
    let xs := pick guess in
    f <- objective xs ;;
    Ok {| x := xs; fun_ := f |}.

(** The count vectors of the docstring of [fit_meta_d_MLE]. *)
Definition docstring_nR_S1 : list R := [36; 24; 17; 20; 10; 12; 9; 2]%R.
Definition docstring_nR_S2 : list R := [1; 4; 10; 11; 19; 18; 28; 39]%R.

(** *** Definitions used to state further properties *)

(** The rate that lines 33-37 (and 40-44) hand to [norm.ppf]. *)
Definition adjusted_rate (n m : R) : R :=
  let half := (0.5 * (n + m))%R in
  let rate := (n / (n + m))%R in
  let rate := if Reqb rate 1 then (1 - half)%R else rate in
  if Reqb rate 0 then half else rate.

(** The number of records of one cell: stimulus, response, rating. *)
Definition cell_count (stim resp r : Z) (trials : list trial) : Z :=
  Z.of_nat (length (filter (cell stim resp r) trials)).

(** The count vector of stimulus [stim], in the order of the docstring:
    the "S1" responses from the highest rating down, then the "S2" responses
    from the lowest rating up. *)
Definition count_row (stim nRatings : Z) (trials : list trial) : list Z :=
  map (fun r => cell_count stim 0 r trials) (py_range_desc nRatings 0)
  ++ map (fun r => cell_count stim 1 r trials) (py_range 1 (nRatings + 1)).

(** Lines 173-175 on one count. *)
Definition pad_count (padAmount : R) (n : pynum) : pynum :=
  pynum_add n (PyFloat padAmount).

(** The cell-by-cell sum of two count vectors. *)
Definition add_counts (a b : list pynum) : list pynum :=
  map (fun p => pynum_add (fst p) (snd p)) (combine a b).

(** A list of rates strictly between 0 and 1 that strictly decrease. *)
Definition decreasing_rates (l : list fval) : Prop :=
  exists qs : list R,
    l = map Fin qs /\
    Forall (fun q => 0 < q < 1)%R qs /\
    StronglySorted (fun a b => b < a)%R qs.


(* ================================================================= *)
(** * Properties *)

(** ** Evaluation of the tests on real numbers *)

Lemma Reqb_true (a b : R) : a = b -> Reqb a b = true.
Proof. intros H. unfold Reqb. destruct (Req_dec_T a b); congruence. Qed.

Lemma Reqb_false (a b : R) : a <> b -> Reqb a b = false.
Proof. intros H. unfold Reqb. destruct (Req_dec_T a b); congruence. Qed.

Lemma Reqb_spec (a b : R) : reflect (a = b) (Reqb a b).
Proof. unfold Reqb. destruct (Req_dec_T a b); constructor; assumption. Qed.

Lemma Rsgn_Gt (r : R) : (0 < r)%R -> Rsgn r = Gt.
Proof.
  intros H. unfold Rsgn.
  destruct (total_order_T r 0) as [[Hlt | Heq] | Hgt]; try reflexivity; lra.
Qed.

Lemma Rsgn_Lt (r : R) : (r < 0)%R -> Rsgn r = Lt.
Proof.
  intros H. unfold Rsgn.
  destruct (total_order_T r 0) as [[Hlt | Heq] | Hgt]; try reflexivity; lra.
Qed.

Lemma Rsgn_Eq (r : R) : r = 0%R -> Rsgn r = Eq.
Proof.
  intros H. unfold Rsgn.
  destruct (total_order_T r 0) as [[Hlt | Heq] | Hgt]; try reflexivity; lra.
Qed.

Lemma pydiv_ok (a b : R) : b <> 0%R -> pydiv a b = Ok (a / b)%R.
Proof. intros H. unfold pydiv. now rewrite Reqb_false. Qed.

Lemma pydiv_zero (a : R) : pydiv a 0 = Raise ZeroDivisionError.
Proof. unfold pydiv. now rewrite Reqb_true. Qed.

Lemma pydiv_inv (a b q : R) : pydiv a b = Ok q -> b <> 0%R /\ q = (a / b)%R.
Proof.
  unfold pydiv. destruct (Reqb_spec b 0); intros H; inversion H. now split.
Qed.

(** ** The error monad *)

Lemma bind_ok_inv {A B : Type} (c : exc A) (k : A -> exc B) (b : B) :
  bind c k = Ok b -> exists a, c = Ok a /\ k a = Ok b.
Proof. destruct c as [a | e]; simpl; intros H; [eauto | discriminate]. Qed.

Lemma mapM_pure {A B : Type} (f : A -> B) (l : list A) :
  mapM (fun a => Ok (f a)) l = Ok (map f l).
Proof. induction l as [| a l IH]; simpl; [| rewrite IH]; reflexivity. Qed.

Lemma mapM_ext_in {A B : Type} (f g : A -> exc B) (l : list A) :
  (forall a, In a l -> f a = g a) -> mapM f l = mapM g l.
Proof.
  induction l as [| a l IH]; simpl; intros H; [reflexivity |].
  rewrite (H a) by now left. rewrite IH; [reflexivity |].
  intros b Hb. apply H. now right.
Qed.

Lemma mapM_length {A B : Type} (f : A -> exc B) (l : list A) (bs : list B) :
  mapM f l = Ok bs -> length bs = length l.
Proof.
  revert bs. induction l as [| a l IH]; simpl; intros bs H.
  - inversion H. reflexivity.
  - apply bind_ok_inv in H. destruct H as [b [_ H]].
    apply bind_ok_inv in H. destruct H as [bs' [Hbs' H]].
    inversion H. simpl. now rewrite (IH bs').
Qed.

(** ** Plain numbers and NumPy scalars in the criterion *)




Lemma distributions_eval (meta_d1 : fval) (io : inputObj) (shift : fval) :
  s io <> 0%R ->
  constant_criterion io meta_d1 (t1c1 io) (d1 io) = Ok shift ->
  distributions meta_d1 io
  = Ok (fsub (fdiv (fneg meta_d1) (Fin 2)) shift, Fin 1,
        fsub (fdiv meta_d1 (Fin 2)) shift, Fin (1 / s io)).
Proof.
  intros Hs Hc. unfold distributions. rewrite (pydiv_ok 1 Hs). cbn [bind].
  rewrite Hc. reflexivity.
Qed.

(** ** Ranges *)

Lemma py_range_length (a b : Z) : length (py_range a b) = Z.to_nat (b - a).
Proof. unfold py_range. now rewrite length_map, length_seq. Qed.

Lemma py_range_In (a b r : Z) : In r (py_range a b) <-> (a <= r < b)%Z.
Proof.
  unfold py_range. rewrite in_map_iff. split.
  - intros [i [Hr Hi]]. apply in_seq in Hi. lia.
  - intros H. exists (Z.to_nat (r - a)). split; [lia |].
    apply in_seq. lia.
Qed.

Lemma py_range_desc_In (a b r : Z) :
  In r (py_range_desc a b) <-> (b < r <= a)%Z.
Proof.
  unfold py_range_desc. rewrite in_map_iff. split.
  - intros [i [Hr Hi]]. apply in_seq in Hi. lia.
  - intros H. exists (Z.to_nat (a - r)). split; [lia |].
    apply in_seq. lia.
Qed.

Lemma py_range_NoDup (a b : Z) : NoDup (py_range a b).
Proof.
  unfold py_range. apply Injective_map_NoDup; [| apply seq_NoDup].
  intros i j H. lia.
Qed.

Lemma py_range_desc_NoDup (a b : Z) : NoDup (py_range_desc a b).
Proof.
  unfold py_range_desc. apply Injective_map_NoDup; [| apply seq_NoDup].
  intros i j H. lia.
Qed.

Lemma py_range_nth (a b : Z) (i : nat) :
  (i < Z.to_nat (b - a))%nat ->
  nth_error (py_range a b) i = Some (a + Z.of_nat i)%Z.
Proof.
  intros H. unfold py_range.
  rewrite nth_error_map, nth_error_seq.
  destruct (Nat.ltb_spec i (Z.to_nat (b - a))); [reflexivity | lia].
Qed.

(** ** [trials2counts]: the count table *)

Lemma fold_left_Zadd (l : list Z) (a : Z) :
  fold_left Z.add l a = (a + Zsum l)%Z.
Proof.
  unfold Zsum. revert a. induction l as [| b l IH]; simpl; intros a; [lia |].
  rewrite IH, (IH b). lia.
Qed.

Lemma Zsum_cons (a : Z) (l : list Z) : Zsum (a :: l) = (a + Zsum l)%Z.
Proof. unfold Zsum at 1. simpl. apply fold_left_Zadd. Qed.

Lemma Zsum_app (l1 l2 : list Z) : Zsum (l1 ++ l2) = (Zsum l1 + Zsum l2)%Z.
Proof.
  induction l1 as [| a l1 IH]; simpl; [reflexivity |].
  rewrite !Zsum_cons, IH. lia.
Qed.

Lemma pynum_sum_ints (l : list Z) : pynum_sum (map PyInt l) = PyInt (Zsum l).
Proof.
  unfold pynum_sum, Zsum. generalize 0%Z.
  induction l as [| a l IH]; simpl; intros z; [reflexivity | apply IH].
Qed.

Lemma zip3_unzip (l : list trial) :
  zip3 (map (fun t : trial => fst (fst t)) l)
       (map (fun t : trial => snd (fst t)) l)
       (map (fun t : trial => snd t) l) = l.
Proof.
  unfold zip3. induction l as [| [[a b] c] l IH]; simpl; [reflexivity |].
  now rewrite IH.
Qed.

Lemma count_cells_spec (resp r : Z) (trials : list trial) :
  count_cells resp r trials =
  (Z.of_nat (length (filter (cell 0 resp r) trials)),
   Z.of_nat (length (filter (cell 1 resp r) trials))).
Proof.
  unfold count_cells.
  set (step := fun (acc : Z * Z) (t : trial) => _).
  assert (H : forall a b,
             fold_left step trials (a, b) =
             ((a + Z.of_nat (length (filter (cell 0 resp r) trials)))%Z,
              (b + Z.of_nat (length (filter (cell 1 resp r) trials)))%Z)).
  { induction trials as [| [[s0 rp] rt] l IH]; intros a b; simpl.
    - f_equal; lia.
    - rewrite IH.
      destruct ((s0 =? 0) && (rp =? resp) && (rt =? r))%Z;
        destruct ((s0 =? 1) && (rp =? resp) && (rt =? r))%Z;
        simpl length; f_equal; lia. }
  apply H.
Qed.

Lemma filter_filter_andb {T : Type} (p q : T -> bool) (l : list T) :
  filter q (filter p l) = filter (fun t => p t && q t) l.
Proof.
  induction l as [| t l IH]; simpl; [reflexivity |].
  destruct (p t); simpl; [destruct (q t) |]; now rewrite IH.
Qed.

Lemma length_filter_split {T : Type} (p q u : T -> bool) (l : list T) :
  (forall t, ((if p t then 1 else 0) + (if q t then 1 else 0)
              = (if u t then 1 else 0))%nat) ->
  (length (filter p l) + length (filter q l) = length (filter u l))%nat.
Proof.
  intros H. induction l as [| t l IH]; simpl; [reflexivity |].
  specialize (H t).
  destruct (p t), (q t), (u t); simpl in *; try discriminate; lia.
Qed.

(** Summing a row of cells over distinct ratings counts each record once. *)
Lemma sum_over_ratings (stim resp : Z) (rs : list Z) (trials : list trial) :
  NoDup rs ->
  Zsum (map (fun r => Z.of_nat (length (filter (cell stim resp r) trials))) rs)
  = Z.of_nat
      (length
         (filter (fun t : trial =>
                    let '(s, rp, rt) := t in
                    ((s =? stim) && (rp =? resp))%Z && existsb (Z.eqb rt) rs)
                 trials)).
Proof.
  intros Hnd. induction Hnd as [| r rs Hnotin Hnd IH]; simpl.
  - replace (filter _ trials) with (@nil trial); [reflexivity |].
    induction trials as [| [[s0 rp] rt] l IHl]; simpl; [reflexivity |].
    now rewrite andb_false_r.
  - rewrite Zsum_cons, IH. rewrite <- Nat2Z.inj_add. f_equal.
    apply length_filter_split. intros [[s0 rp] rt]. unfold cell.
    destruct (Z.eqb_spec rt r) as [-> | Hne].
    + assert (Hex : existsb (Z.eqb r) rs = false).
      { apply not_true_is_false. intros Hex. apply existsb_exists in Hex.
        destruct Hex as [r' [Hin Heq]]. apply Z.eqb_eq in Heq. now subst. }
      rewrite Hex. simpl. rewrite !andb_true_r, andb_false_r.
      destruct ((s0 =? stim) && (rp =? resp))%Z; reflexivity.
    + rewrite andb_false_r. simpl. reflexivity.
Qed.

Lemma existsb_py_range (a b r : Z) :
  existsb (Z.eqb r) (py_range a b) = ((a <=? r) && (r <? b))%Z.
Proof.
  apply eq_true_iff_eq. rewrite existsb_exists, andb_true_iff.
  rewrite Z.leb_le, Z.ltb_lt. split.
  - intros [r' [Hin Heq]]. apply Z.eqb_eq in Heq. subst r'.
    now apply py_range_In.
  - intros H. exists r. split; [now apply py_range_In | apply Z.eqb_refl].
Qed.

Lemma existsb_py_range_desc (a b r : Z) :
  existsb (Z.eqb r) (py_range_desc a b) = ((b <? r) && (r <=? a))%Z.
Proof.
  apply eq_true_iff_eq. rewrite existsb_exists, andb_true_iff.
  rewrite Z.leb_le, Z.ltb_lt. split.
  - intros [r' [Hin Heq]]. apply Z.eqb_eq in Heq. subst r'.
    now apply py_range_desc_In.
  - intros H. exists r. split; [now apply py_range_desc_In | apply Z.eqb_refl].
Qed.

(** The unpadded table, when the function returns. *)
Lemma trials2counts_unpadded (stimID response rating : list Z) (nRatings : Z)
    (padAmount : option R) (v1 v2 : list pynum) :
  trials2counts stimID response rating nRatings false padAmount
  = Ok (v1, v2) ->
  let kept := filter (valid_trial nRatings) (zip3 stimID response rating) in
  let row stim resp rs :=
    map (fun r => Z.of_nat (length (filter (cell stim resp r) kept))) rs in
  v1 = map PyInt (row 0%Z 0%Z (py_range_desc nRatings 0)
                  ++ row 0%Z 1%Z (py_range 1 (nRatings + 1))) /\
  v2 = map PyInt (row 1%Z 0%Z (py_range_desc nRatings 0)
                  ++ row 1%Z 1%Z (py_range 1 (nRatings + 1))).
Proof.
  unfold trials2counts.
  destruct (negb (length stimID =? length response)%nat
            && (length stimID =? length rating)%nat); [discriminate |].
  intros H. apply bind_ok_inv in H. destruct H as [pad [_ H]].
  rewrite zip3_unzip in H. inversion H as [[H1 H2]]. clear H H1 H2.
  cbv zeta. rewrite !map_map.
  split; f_equal; f_equal; apply map_ext; intros r;
    rewrite count_cells_spec; reflexivity.
Qed.

Ltac bool_cases :=
  repeat match goal with
         | |- context [(?a =? ?b)%Z] => destruct (Z.eqb_spec a b)
         | |- context [(?a <=? ?b)%Z] => destruct (Z.leb_spec a b)
         | |- context [(?a <? ?b)%Z] => destruct (Z.ltb_spec a b)
         | |- context [(?a >=? ?b)%Z] => rewrite (Z.geb_leb a b)
         end;
  simpl; try reflexivity; try lia.

Lemma kept_rows_total (stim nRatings : Z) (all : list trial) :
  (stim = 0 \/ stim = 1)%Z ->
  let kept := filter (valid_trial nRatings) all in
  let row resp rs :=
    map (fun r => Z.of_nat (length (filter (cell stim resp r) kept))) rs in
  Zsum (row 0%Z (py_range_desc nRatings 0)
        ++ row 1%Z (py_range 1 (nRatings + 1)))
  = Z.of_nat
      (length
         (filter (fun t : trial =>
                    in_range nRatings t && (fst (fst t) =? stim)%Z) all)).
Proof.
  intros Hstim. cbv zeta.
  rewrite Zsum_app.
  rewrite !sum_over_ratings
    by (apply py_range_desc_NoDup || apply py_range_NoDup).
  rewrite <- Nat2Z.inj_add. f_equal.
  rewrite !filter_filter_andb.
  apply length_filter_split. intros [[s0 rp] rt].
  rewrite existsb_py_range, existsb_py_range_desc.
  unfold valid_trial, in_range. simpl fst.
  destruct Hstim; subst stim; bool_cases.
Qed.

(** C9.  With padding disabled, the two vectors returned by
    [trials2counts] conserve the trials: [sum(nR_S1)] is the number of
    in-range records with [stimID = 0], [sum(nR_S2)] the number of in-range
    records with [stimID = 1]; a record with a field out of range is counted
    in neither. *)
Theorem trials2counts_conserves_trials
    (stimID response rating : list Z) (nRatings : Z) (padAmount : option R)
    (v1 v2 : list pynum) :
  trials2counts stimID response rating nRatings false padAmount
  = Ok (v1, v2) ->
  pynum_sum v1 = PyInt (in_range_trials 0 nRatings stimID response rating) /\
  pynum_sum v2 = PyInt (in_range_trials 1 nRatings stimID response rating).
Proof.
  intros H. apply trials2counts_unpadded in H. destruct H as [-> ->].
  rewrite !pynum_sum_ints. unfold in_range_trials.
  split; f_equal; apply kept_rows_total; auto.
Qed.

(** The function returns whenever the length check passes and the default
    padding amount can be computed. *)
Lemma trials2counts_returns
    (stimID response rating : list Z) (nRatings : Z) (padCells : bool)
    (padAmount : option R) :
  ~ (length stimID <> length response /\ length stimID = length rating) ->
  nRatings <> 0%Z \/ padAmount <> None ->
  exists v, trials2counts stimID response rating nRatings padCells padAmount
            = Ok v.
Proof.
  intros Hlen Hpad. unfold trials2counts.
  destruct (Nat.eqb_spec (length stimID) (length response)) as [E1 | E1];
    destruct (Nat.eqb_spec (length stimID) (length rating)) as [E2 | E2];
    simpl negb; cbv iota; simpl andb; cbv iota;
    try (exfalso; apply Hlen; now split).
  all: destruct padAmount as [p |];
    [ simpl bind
    | rewrite pydiv_ok;
      [ simpl bind
      | destruct Hpad as [Hn | Hn]; [| congruence];
        intros Hz; apply eq_IZR_R0 in Hz; lia ] ].
  all: destruct padCells; eexists; reflexivity.
Qed.

Lemma trials2counts_conserves_trials_witness :
  exists v1 v2,
    trials2counts [0; 1; 7; 0]%Z [0; 1; 1; 1]%Z [1; 2; 2; 5]%Z 2 false None
    = Ok (v1, v2) /\
    pynum_sum v1 = PyInt 1 /\ pynum_sum v2 = PyInt 1.
Proof.
  assert (E : trials2counts [0; 1; 7; 0]%Z [0; 1; 1; 1]%Z [1; 2; 2; 5]%Z
                2 false None
              = Ok (map PyInt [0; 1; 0; 0]%Z, map PyInt [0; 0; 0; 1]%Z)).
  { unfold trials2counts. simpl negb. cbv iota.
    rewrite pydiv_ok by (simpl; lra). reflexivity. }
  eexists. eexists. split; [exact E |].
  exact (trials2counts_conserves_trials _ _ _ _ _ E).
Defined.

(** ** [trials2counts]: the example of the docstring *)

(** C5, as the code computes it.  On the example of the docstring, with
    padding disabled, [trials2counts] returns
    [nR_S1 = [0,0,0,1,0,0,1,1]] and [nR_S2 = [1,1,0,0,1,2,0,0]]. *)
Theorem trials2counts_docstring_example :
  trials2counts [0; 1; 0; 0; 1; 1; 1; 1]%Z [0; 1; 1; 1; 0; 0; 1; 1]%Z
                [1; 2; 3; 4; 4; 3; 2; 1]%Z 4 false None
  = Ok (map PyInt [0; 0; 0; 1; 0; 0; 1; 1]%Z,
        map PyInt [1; 1; 0; 0; 1; 2; 0; 0]%Z).
Proof.
  unfold trials2counts. simpl negb. cbv iota.
  rewrite pydiv_ok by (simpl; lra). reflexivity.
Qed.

(** C5 as the specification words it does not hold: the value returned is
    not [([1,0,0,1,0,0,1,1], [0,0,1,1,0,1,0,1])]. *)
Lemma trials2counts_docstring_example_not_spec :
  trials2counts [0; 1; 0; 0; 1; 1; 1; 1]%Z [0; 1; 1; 1; 0; 0; 1; 1]%Z
                [1; 2; 3; 4; 4; 3; 2; 1]%Z 4 false None
  <> Ok (map PyInt [1; 0; 0; 1; 0; 0; 1; 1]%Z,
         map PyInt [0; 0; 1; 1; 0; 1; 0; 1]%Z).
Proof.
  assert (E : trials2counts [0; 1; 0; 0; 1; 1; 1; 1]%Z
                [0; 1; 1; 1; 0; 0; 1; 1]%Z [1; 2; 3; 4; 4; 3; 2; 1]%Z
                4 false None
              = Ok (map PyInt [0; 0; 0; 1; 0; 0; 1; 1]%Z,
                    map PyInt [1; 1; 0; 0; 1; 2; 0; 0]%Z)).
  { unfold trials2counts. simpl negb. cbv iota.
    rewrite pydiv_ok by (simpl; lra). reflexivity. }
  rewrite E. discriminate.
Qed.

(** ** [trials2counts]: the length check *)

Lemma zip3_length {X Y W : Type} (a : list X) (b : list Y) (c : list W) :
  length (zip3 a b c)
  = Nat.min (Nat.min (length a) (length b)) (length c).
Proof. unfold zip3. now rewrite !length_combine. Qed.

Lemma zip3_firstn {X Y W : Type} (m : nat) (a : list X) (b : list Y)
    (c : list W) :
  (Nat.min (Nat.min (length a) (length b)) (length c) <= m)%nat ->
  zip3 (firstn m a) (firstn m b) (firstn m c) = zip3 a b c.
Proof.
  intros H. unfold zip3. rewrite <- !combine_firstn.
  apply firstn_all2. fold (zip3 a b c). now rewrite zip3_length.
Qed.

(** C10.  The length check of [trials2counts] raises exactly when
    [len(stimID)] differs from [len(response)] while [len(stimID)] equals
    [len(rating)].  In every other configuration the check lets the input
    through, the records beyond the shortest of the three sequences are
    ignored (the result is the result on the three sequences cut to that
    length), and the function returns as soon as the default padding amount
    can be computed. *)
Theorem trials2counts_length_check
    (stimID response rating : list Z) (nRatings : Z) (padCells : bool)
    (padAmount : option R) :
  let mismatch :=
    length stimID <> length response /\ length stimID = length rating in
  let m := Nat.min (Nat.min (length stimID) (length response))
                   (length rating) in
  ((exists msg,
       trials2counts stimID response rating nRatings padCells padAmount
       = Raise (TypeError msg)) <-> mismatch) /\
  (~ mismatch ->
   trials2counts stimID response rating nRatings padCells padAmount
   = trials2counts (firstn m stimID) (firstn m response) (firstn m rating)
                   nRatings padCells padAmount) /\
  (~ mismatch -> nRatings <> 0%Z \/ padAmount <> None ->
   exists v,
     trials2counts stimID response rating nRatings padCells padAmount = Ok v).
Proof.
  cbv zeta. split; [| split].
  - split.
    + intros [msg H]. unfold trials2counts in H.
      destruct (Nat.eqb_spec (length stimID) (length response)) as [E1 | E1];
        destruct (Nat.eqb_spec (length stimID) (length rating)) as [E2 | E2];
        simpl negb in H; cbv iota in H; simpl andb in H; cbv iota in H;
        try (now split).
      all: exfalso; unfold pydiv in H; destruct padAmount as [p |];
        [| destruct (Reqb (IZR (2 * nRatings)) 0) ];
        cbn [bind] in H; try discriminate;
        destruct padCells; discriminate.
    + intros [E1 E2]. unfold trials2counts.
      destruct (Nat.eqb_spec (length stimID) (length response)) as [E | E];
        [contradiction |].
      destruct (Nat.eqb_spec (length stimID) (length rating)) as [E' | E'];
        [| contradiction].
      simpl. eauto.
  - intros Hlen. unfold trials2counts at 2.
    rewrite zip3_firstn by lia.
    rewrite !length_firstn.
    replace (negb (Nat.min _ (length stimID) =? Nat.min _ (length response))%nat
             && (Nat.min _ (length stimID) =? Nat.min _ (length rating))%nat)
      with false.
    2:{ symmetry. apply andb_false_intro1. apply negb_false_iff.
        apply Nat.eqb_eq. lia. }
    unfold trials2counts.
    destruct (Nat.eqb_spec (length stimID) (length response)) as [E1 | E1];
      destruct (Nat.eqb_spec (length stimID) (length rating)) as [E2 | E2];
      simpl negb; cbv iota; simpl andb; cbv iota; try reflexivity.
    exfalso. apply Hlen. now split.
  - apply trials2counts_returns.
Qed.

Lemma trials2counts_length_check_witness :
  trials2counts [0; 1; 0]%Z [0; 1]%Z [1; 2; 2; 1]%Z 2 false None
  = trials2counts [0; 1]%Z [0; 1]%Z [1; 2]%Z 2 false None /\
  exists v,
    trials2counts [0; 1; 0]%Z [0; 1]%Z [1; 2; 2; 1]%Z 2 false None = Ok v.
Proof.
  pose proof (trials2counts_length_check
                [0; 1; 0]%Z [0; 1]%Z [1; 2; 2; 1]%Z 2 false None) as H.
  cbv zeta in H. destruct H as [_ [Hcut Hret]].
  assert (Hlen : ~ (length [0; 1; 0]%Z <> length [0; 1]%Z /\
                    length [0; 1; 0]%Z = length [1; 2; 2; 1]%Z)).
  { simpl. intros [_ E]. discriminate. }
  split.
  - exact (Hcut Hlen).
  - apply (Hret Hlen). left. discriminate.
Defined.

(** ** [dprime] *)

(** When both rates are strictly between 0 and 1 no substitution takes
    place. *)
Lemma dprime_interior (hits misses fas crs : R) :
  (hits + misses <> 0)%R -> (fas + crs <> 0)%R ->
  (0 < hits / (hits + misses) < 1)%R ->
  (0 < fas / (fas + crs) < 1)%R ->
  dprime hits misses fas crs
  = Ok (fsub (norm_ppf (Fin (hits / (hits + misses))))
             (norm_ppf (Fin (fas / (fas + crs))))).
Proof.
  intros Hh Hf [Hh0 Hh1] [Hf0 Hf1]. unfold dprime.
  rewrite !pydiv_ok by assumption. cbn [bind].
  set (hr := (hits / (hits + misses))%R) in *.
  set (far := (fas / (fas + crs))%R) in *.
  rewrite (@Reqb_false hr 1), (@Reqb_false far 1) by lra.
  rewrite (@Reqb_false hr 0), (@Reqb_false far 0) by lra.
  reflexivity.
Qed.

(** The third scenario of the specification. *)
Lemma dprime_scenario :
  dprime 8 2 1 9 = Ok (fsub (norm_ppf (Fin 0.8)) (norm_ppf (Fin 0.1))).
Proof.
  assert (E1 : (8 / (8 + 2) = 0.8)%R) by (replace (8 + 2)%R with 10%R; lra).
  assert (E2 : (1 / (1 + 9) = 0.1)%R) by (replace (1 + 9)%R with 10%R; lra).
  rewrite dprime_interior; rewrite ?E1, ?E2; try lra.
  reflexivity.
Qed.

Lemma norm_ppf_interior (p : R) :
  (0 < p < 1)%R -> is_finite (norm_ppf (Fin p)).
Proof.
  intros Hp. unfold norm_ppf.
  rewrite (@Rsgn_Gt p), (@Rsgn_Gt (1 - p)%R) by lra.
  eexists. reflexivity.
Qed.

(** C6, the ceiling case.  With 10 hits and no miss the hit rate is 1;
    line 35 replaces it by [1 - 0.5 * (10 + 0)], so [norm.ppf] is applied
    to [-4], which is not a probability, and the value returned is NaN. *)
Theorem dprime_ceiling_leaves_unit_interval :
  dprime 10 0 1 9 = Ok (fsub (norm_ppf (Fin (-4))) (norm_ppf (Fin 0.1))) /\
  dprime 10 0 1 9 = Ok NaN.
Proof.
  assert (E : dprime 10 0 1 9
              = Ok (fsub (norm_ppf (Fin (-4))) (norm_ppf (Fin 0.1)))).
  { unfold dprime.
    replace (10 + 0)%R with 10%R by lra. replace (1 + 9)%R with 10%R by lra.
    rewrite !pydiv_ok by lra. cbn [bind].
    rewrite (@Reqb_true (10 / 10) 1) by lra.
    rewrite (@Reqb_false (1 - 0.5 * 10) 0) by lra.
    rewrite (@Reqb_false (1 / 10) 1) by lra.
    rewrite (@Reqb_false (1 / 10) 0) by lra.
    repeat f_equal; lra. }
  split; [exact E |]. rewrite E. f_equal.
  unfold norm_ppf at 1. now rewrite (@Rsgn_Lt (-4)) by lra.
Qed.

(** With 2 hits and no miss the two substitutions of lines 34-37 follow
    each other and give the rate 1 back: the value returned is [+inf]. *)
Lemma dprime_ceiling_two_hits :
  dprime 2 0 1 9 = Ok PInf.
Proof.
  unfold dprime.
  replace (2 + 0)%R with 2%R by lra. replace (1 + 9)%R with 10%R by lra.
  rewrite !pydiv_ok by lra. cbn [bind].
  rewrite (@Reqb_true (2 / 2) 1) by lra.
  rewrite (@Reqb_true (1 - 0.5 * 2) 0) by lra.
  rewrite (@Reqb_false (1 / 10) 1) by lra.
  rewrite (@Reqb_false (1 / 10) 0) by lra.
  f_equal.
  destruct (@norm_ppf_interior (1 / 10)) as [q ->]; [lra |].
  unfold norm_ppf.
  rewrite (@Rsgn_Gt (0.5 * 2)), (@Rsgn_Eq (1 - 0.5 * 2)) by lra.
  reflexivity.
Qed.

(** ** [fit_meta_d_MLE]: constraints and bounds *)

Lemma np_zeros_ok (n : Z) :
  (0 <= n)%Z -> np_zeros n = Ok (repeat (Fin 0) (Z.to_nat n)).
Proof.
  intros H. unfold np_zeros. destruct (Z.ltb_spec n 0); [lia | reflexivity].
Qed.

Lemma np_ones_ok (n : Z) :
  (0 <= n)%Z -> np_ones n = Ok (repeat (Fin 1) (Z.to_nat n)).
Proof.
  intros H. unfold np_ones. destruct (Z.ltb_spec n 0); [lia | reflexivity].
Qed.

Lemma constraint_system_eval (nR_S1 : list R) :
  let nRatings := Z.of_nat (length nR_S1 / 2) in
  let n := (2 * nRatings - 1 - 2)%Z in
  (1 <= nRatings)%Z ->
  constraint_system nR_S1
  = Ok {| A := map (constraint_row n) (py_range 0 n);
          ub := map (fun _ => Fin (-1e-5)) (py_range 0 n);
          lb := map (fun _ => NInf) (py_range 0 n);
          LB := [Fin (-10)]
                ++ map (fmul (Fin (-20)))
                       (repeat (Fin 1) (Z.to_nat (nRatings - 1)))
                ++ repeat (Fin 0) (Z.to_nat (nRatings - 1));
          UB := [Fin 10]
                ++ repeat (Fin 0) (Z.to_nat (nRatings - 1))
                ++ map (fmul (Fin 20))
                       (repeat (Fin 1) (Z.to_nat (nRatings - 1))) |}.
Proof.
  cbv zeta. intros HK. unfold constraint_system.
  set (nRatings := Z.of_nat (length nR_S1 / 2)) in *.
  set (n := (2 * nRatings - 1 - 2)%Z).
  rewrite (mapM_ext_in _
             (fun ii => Ok (constraint_row n ii, Fin (-1e-5), NInf))).
  2:{ intros ii Hii. apply py_range_In in Hii.
      rewrite !np_zeros_ok by lia. reflexivity. }
  rewrite mapM_pure. cbn [bind].
  replace (2 * nRatings - 1 - 1)%Z with ((nRatings - 1) * 2)%Z by lia.
  rewrite Z.div_mul by lia.
  rewrite np_ones_ok, np_zeros_ok by lia. cbn [bind].
  rewrite !map_map. reflexivity.
Qed.

(** Lines 469-470 on the constraints built at lines 406-439.  The bounds
    are always accepted; the linear constraint is accepted unless its
    matrix is empty, as it is when there is one rating. *)
Lemma constraints_accepted (nR_S1 : list R) (K : nat)
    (cs : ConstraintSystem) :
  length nR_S1 = (2 * K)%nat -> (1 <= K)%nat ->
  constraint_system nR_S1 = Ok cs ->
  Bounds (LB cs) (UB cs) = Ok tt /\
  LinearConstraint (A cs) (lb cs) (ub cs)
  = if (K =? 1)%nat then Raise ValueError else Ok tt.
Proof.
  intros H1 HK Hcs.
  assert (Hdiv : (length nR_S1 / 2 = K)%nat).
  { rewrite H1, Nat.mul_comm. apply Nat.div_mul. discriminate. }
  pose proof (@constraint_system_eval nR_S1) as E. cbv zeta in E.
  rewrite Hdiv in E. rewrite E in Hcs by lia.
  apply (f_equal (fun o => match o with Ok y => y | Raise _ => cs end))
    in Hcs.
  cbv beta iota in Hcs. subst cs. cbn [A lb ub LB UB]. split.
  - unfold Bounds, broadcasts_to. cbn [app length].
    rewrite !length_app, !length_map, !repeat_length.
    now rewrite Nat.eqb_refl.
  - unfold LinearConstraint, broadcasts_to.
    destruct (Nat.eqb_spec K 1) as [-> | HK1]; [reflexivity |].
    rewrite !length_map.
    destruct (py_range 0 (2 * Z.of_nat K - 1 - 2)) as [| a l] eqn:El.
    + apply (f_equal (@length Z)) in El. rewrite py_range_length in El.
      cbn [length] in El. lia.
    + cbn [map length]. now rewrite Nat.eqb_refl.
Qed.

(** For two count vectors of [2K >= 4] entries the checks of lines 386-389
    and 469-470 pass: [minimize] is called with the initial guess and the
    constraints of lines 406-439. *)
Lemma fit_meta_d_MLE_unfold (minimize : minimizer) (nR_S1 nR_S2 : list R)
    (s : R) (fncdf : fval -> fval -> fval -> fval) (fninv : fval -> fval)
    (K : nat) (cs : ConstraintSystem) :
  length nR_S1 = (2 * K)%nat -> length nR_S2 = (2 * K)%nat ->
  (2 <= K)%nat ->
  constraint_system nR_S1 = Ok cs ->
  fit_meta_d_MLE minimize nR_S1 nR_S2 s fncdf fninv
  = (init <- initial_estimate nR_S1 nR_S2 s fninv ;;
     results <- minimize
                  (fun p =>
                     fit_meta_d_logL p
                       {| nR_S1 := nR_S1; nR_S2 := nR_S2;
                          nRatings := Z.of_nat K;
                          d1 := Numpy (init_d1 init);
                          t1c1 := Numpy (init_t1c1 init); s := s;
                          constant_criterion := relative_criterion;
                          fncdf := fncdf; fninv := fninv |})
                  (guess init) cs ;;
     package nR_S1 nR_S2 s fncdf (init_d1 init) (init_t1c1 init) results).
Proof.
  intros H1 H2 HK Hcs. unfold fit_meta_d_MLE.
  assert (Hdiv : (length nR_S1 / 2 = K)%nat).
  { rewrite H1, Nat.mul_comm. apply Nat.div_mul. discriminate. }
  assert (Hmod : (length nR_S1 mod 2 =? 0)%nat = true).
  { apply Nat.eqb_eq. rewrite H1, Nat.mul_comm. apply Nat.Div0.mod_mul. }
  destruct (@constraints_accepted nR_S1 K cs H1 ltac:(lia) Hcs) as [Eb El].
  destruct (Nat.eqb_spec K 1) as [E1 | _]; [lia |].
  rewrite Hmod, H1, H2, Nat.eqb_refl. cbn [negb].
  rewrite <- H1, Hcs, Hdiv. cbn [bind].
  destruct (initial_estimate nR_S1 nR_S2 s fninv) as [init | e];
    [| reflexivity].
  cbn [bind]. rewrite Eb, El. reflexivity.
Qed.

Lemma constraint_row_length (n ii : Z) :
  (0 <= ii < n)%Z -> length (constraint_row n ii) = Z.to_nat (n + 2).
Proof.
  intros H. unfold constraint_row.
  rewrite !length_app, !repeat_length. simpl. lia.
Qed.

Lemma constraint_row_nth (n ii : Z) (j : nat) :
  (0 <= ii < n)%Z -> (j < Z.to_nat (n + 2))%nat ->
  nth_error (constraint_row n ii) j
  = Some (if (j =? Z.to_nat ii + 1)%nat then Fin 1
          else if (j =? Z.to_nat ii + 2)%nat then Fin (-1)
          else Fin 0).
Proof.
  intros Hii Hj. unfold constraint_row.
  destruct (Nat.ltb_spec j (Z.to_nat (ii + 1))) as [Hlt | Hge].
  - rewrite nth_error_app1 by now rewrite repeat_length.
    rewrite nth_error_repeat by assumption.
    destruct (Nat.eqb_spec j (Z.to_nat ii + 1)); [lia |].
    destruct (Nat.eqb_spec j (Z.to_nat ii + 2)); [lia | reflexivity].
  - rewrite nth_error_app2 by now rewrite repeat_length.
    rewrite repeat_length.
    destruct (Nat.eqb_spec j (Z.to_nat ii + 1)) as [E1 | E1].
    { replace (j - Z.to_nat (ii + 1))%nat with 0%nat by lia. reflexivity. }
    destruct (Nat.eqb_spec j (Z.to_nat ii + 2)) as [E2 | E2].
    { replace (j - Z.to_nat (ii + 1))%nat with 1%nat by lia. reflexivity. }
    replace (j - Z.to_nat (ii + 1))%nat
      with (2 + (j - Z.to_nat (ii + 1) - 2))%nat by lia.
    cbn [app nth_error Nat.add].
    apply nth_error_repeat. lia.
Qed.

Lemma nth_error_bounds (K j : nat) (a p q : fval) :
  let l := [a] ++ repeat p (K - 1) ++ repeat q (K - 1) in
  ((1 <= j <= K - 1)%nat -> nth_error l j = Some p) /\
  ((1 <= K <= j)%nat /\ (j <= 2 * K - 2)%nat -> nth_error l j = Some q).
Proof.
  cbv zeta. split; intros Hj.
  - destruct j as [| j]; [lia |]. cbn [app nth_error].
    rewrite nth_error_app1 by (rewrite repeat_length; lia).
    apply nth_error_repeat. lia.
  - destruct j as [| j]; [lia |]. cbn [app nth_error].
    rewrite nth_error_app2 by (rewrite repeat_length; lia).
    rewrite repeat_length. apply nth_error_repeat. lia.
Qed.

(** C4.  For count vectors of even length [2K] with [K >= 2],
    [fit_meta_d_MLE] builds [2K-3] inequality rows over the [2K-1]
    parameters (meta-d' at index 0, the criteria after it); row [i] has
    [+1] on criterion [i], [-1] on criterion [i+1] and [0] elsewhere, in
    particular on meta-d', with upper bound [-1e-5] and lower bound [-inf];
    the box bounds are [-10, 10] for meta-d', [-20, 0] for the [K-1]
    criteria below the type 1 criterion and [0, 20] for the [K-1] criteria
    above it.  These rows and bounds are the ones [minimize] is called
    with, whatever the second count vector of [2K] entries is. *)
Theorem constraint_system_shape (nR_S1 : list R) (K : nat) :
  length nR_S1 = (2 * K)%nat -> (2 <= K)%nat ->
  exists cs,
    constraint_system nR_S1 = Ok cs /\
    (forall (minimize : minimizer) (nR_S2 : list R) (s : R)
            (fncdf : fval -> fval -> fval -> fval) (fninv : fval -> fval),
        length nR_S2 = (2 * K)%nat ->
        fit_meta_d_MLE minimize nR_S1 nR_S2 s fncdf fninv
        = (init <- initial_estimate nR_S1 nR_S2 s fninv ;;
           results <- minimize
                        (fun p =>
                           fit_meta_d_logL p
                             {| nR_S1 := nR_S1; nR_S2 := nR_S2;
                                nRatings := Z.of_nat K;
                                d1 := Numpy (init_d1 init);
                                t1c1 := Numpy (init_t1c1 init); s := s;
                                constant_criterion := relative_criterion;
                                fncdf := fncdf; fninv := fninv |})
                        (guess init) cs ;;
           package nR_S1 nR_S2 s fncdf (init_d1 init) (init_t1c1 init)
                   results)) /\
    length (A cs) = (2 * K - 3)%nat /\
    length (ub cs) = (2 * K - 3)%nat /\
    length (lb cs) = (2 * K - 3)%nat /\
    (forall i, (i < 2 * K - 3)%nat ->
       exists row,
         nth_error (A cs) i = Some row /\
         length row = (2 * K - 1)%nat /\
         (forall j, (j < 2 * K - 1)%nat ->
            nth_error row j
            = Some (if (j =? i + 1)%nat then Fin 1
                    else if (j =? i + 2)%nat then Fin (-1)
                    else Fin 0)) /\
         nth_error (ub cs) i = Some (Fin (-1e-5)) /\
         nth_error (lb cs) i = Some NInf) /\
    length (LB cs) = (2 * K - 1)%nat /\
    length (UB cs) = (2 * K - 1)%nat /\
    nth_error (LB cs) 0 = Some (Fin (-10)) /\
    nth_error (UB cs) 0 = Some (Fin 10) /\
    (forall j, (1 <= j <= K - 1)%nat ->
       nth_error (LB cs) j = Some (Fin (-20)) /\
       nth_error (UB cs) j = Some (Fin 0)) /\
    (forall j, (K <= j <= 2 * K - 2)%nat ->
       nth_error (LB cs) j = Some (Fin 0) /\
       nth_error (UB cs) j = Some (Fin 20)).
Proof.
  intros Hlen HK.
  assert (Hdiv : (length nR_S1 / 2 = K)%nat).
  { rewrite Hlen, Nat.mul_comm. apply Nat.div_mul. discriminate. }
  pose proof (constraint_system_eval nR_S1) as Heval. cbv zeta in Heval.
  rewrite Hdiv in Heval.
  set (n := (2 * Z.of_nat K - 1 - 2)%Z) in *.
  assert (Hn : Z.to_nat (n - 0) = (2 * K - 3)%nat) by lia.
  assert (Hn2 : Z.to_nat (n + 2) = (2 * K - 1)%nat) by lia.
  assert (HK1 : Z.to_nat (Z.of_nat K - 1) = (K - 1)%nat) by lia.
  eexists. split; [apply Heval; lia |]. split.
  { intros minimize nR_S2 s fncdf fninv H2.
    apply (@fit_meta_d_MLE_unfold minimize nR_S1 nR_S2 s fncdf fninv K _
             Hlen H2 HK).
    apply Heval. lia. }
  cbn [A ub lb LB UB].
  rewrite HK1, !map_repeat.
  assert (E20 : fmul (Fin (-20)) (Fin 1) = Fin (-20))
    by (simpl; f_equal; lra).
  assert (E20' : fmul (Fin 20) (Fin 1) = Fin 20) by (simpl; f_equal; lra).
  rewrite E20, E20'.
  split; [now rewrite length_map, py_range_length |].
  split; [now rewrite length_map, py_range_length |].
  split; [now rewrite length_map, py_range_length |].
  split.
  { intros i Hi.
    assert (Hnth : nth_error (py_range 0 n) i = Some (0 + Z.of_nat i)%Z)
      by (apply py_range_nth; lia).
    exists (constraint_row n (0 + Z.of_nat i)).
    split; [now rewrite nth_error_map, Hnth |].
    split; [rewrite constraint_row_length by lia; exact Hn2 |].
    split; [| split; now rewrite nth_error_map, Hnth].
    intros j Hj. rewrite constraint_row_nth by lia.
    replace (Z.to_nat (0 + Z.of_nat i)) with i by lia. reflexivity. }
  split; [cbn [app length]; rewrite length_app, !repeat_length; lia |].
  split; [cbn [app length]; rewrite length_app, !repeat_length; lia |].
  split; [reflexivity |]. split; [reflexivity |].
  split; intros j Hj; split.
  - now apply (nth_error_bounds K j (Fin (-10)) (Fin (-20)) (Fin 0)).
  - now apply (nth_error_bounds K j (Fin 10) (Fin 0) (Fin 20)).
  - apply (nth_error_bounds K j (Fin (-10)) (Fin (-20)) (Fin 0)). lia.
  - apply (nth_error_bounds K j (Fin 10) (Fin 0) (Fin 20)). lia.
Qed.

Lemma constraint_system_shape_witness :
  exists cs,
    constraint_system [1; 1; 1; 1]%R = Ok cs /\
    A cs = [[Fin 0; Fin 1; Fin (-1)]] /\
    ub cs = [Fin (-1e-5)] /\ lb cs = [NInf] /\
    nth_error (LB cs) 1 = Some (Fin (-20)) /\
    nth_error (UB cs) 2 = Some (Fin 20).
Proof.
  destruct (@constraint_system_shape [1; 1; 1; 1]%R 2 eq_refl (le_n 2))
    as [cs [Hcs [_ [HA [Hub [Hlb [Hrow [_ [_ [_ [_ [Hlow Hup]]]]]]]]]]]].
  exists cs. split; [exact Hcs |].
  destruct (Hrow 0%nat) as [row [Hr [Hrl [Hrj [Hu Hl]]]]]; [simpl; lia |].
  pose proof (Hrj 0%nat) as H0. pose proof (Hrj 1%nat) as H1.
  pose proof (Hrj 2%nat) as H2. simpl in H0, H1, H2, Hrl, HA, Hub, Hlb.
  destruct row as [| r0 [| r1 [| r2 [| r3 row]]]]; try discriminate.
  simpl in H0, H1, H2.
  specialize (H0 ltac:(lia)). specialize (H1 ltac:(lia)).
  specialize (H2 ltac:(lia)).
  inversion H0; inversion H1; inversion H2; subst.
  destruct (A cs) as [| a0 [| a1 rows]]; try discriminate.
  destruct (ub cs) as [| u0 [| u1 us]]; try discriminate.
  destruct (lb cs) as [| l0 [| l1 ls]]; try discriminate.
  simpl in Hr, Hu, Hl. inversion Hr; inversion Hu; inversion Hl; subst.
  split; [reflexivity |]. split; [reflexivity |]. split; [reflexivity |].
  split.
  - apply (Hlow 1%nat). simpl. lia.
  - apply (Hup 2%nat). simpl. lia.
Defined.

(** ** Indexing and slicing *)

Lemma py_index_nth {T : Type} (l : list T) (i : Z) (d : T) :
  (0 <= i < Z.of_nat (length l))%Z ->
  py_index l i = Ok (nth (Z.to_nat i) l d).
Proof.
  intros H. unfold py_index.
  destruct (Z.ltb_spec i 0); [lia |].
  destruct (Z.leb_spec 0 i); [| lia].
  destruct (Z.ltb_spec i (Z.of_nat (length l))); [| lia]. simpl.
  destruct (nth_error l (Z.to_nat i)) as [a |] eqn:E.
  - f_equal. symmetry. now apply nth_error_nth.
  - apply nth_error_None in E. lia.
Qed.

Lemma py_index_ok_inv {T : Type} (l : list T) (i : Z) (a : T) :
  py_index l i = Ok a -> In a l.
Proof.
  unfold py_index.
  destruct ((0 <=? _) && _)%Z; [| discriminate].
  destruct (nth_error l _) as [b |] eqn:E; [| discriminate].
  intros H. inversion H. subst. eapply nth_error_In. exact E.
Qed.

Lemma py_slice_from_length {T : Type} (l : list T) (lo : Z) :
  (0 <= lo)%Z ->
  length (py_slice_from l lo) = (length l - Z.to_nat lo)%nat.
Proof.
  intros H. unfold py_slice_from, py_slice_bound.
  destruct (Z.ltb_spec lo 0); [lia |]. rewrite length_skipn. lia.
Qed.

Lemma py_slice_prefix_length {T : Type} (l : list T) (hi : Z) :
  (0 <= hi)%Z ->
  length (py_slice l 0 hi) = Nat.min (Z.to_nat hi) (length l).
Proof.
  intros H. unfold py_slice, py_slice_bound.
  destruct (Z.ltb_spec hi 0); [lia |]. simpl.
  rewrite length_firstn. lia.
Qed.

Lemma py_slice_from_incl {T : Type} (l : list T) (lo : Z) (a : T) :
  In a (py_slice_from l lo) -> In a l.
Proof.
  unfold py_slice_from. intros H.
  rewrite <- (firstn_skipn (py_slice_bound (length l) lo) l).
  apply in_or_app. now right.
Qed.

Lemma py_slice_incl {T : Type} (l : list T) (lo hi : Z) (a : T) :
  In a (py_slice l lo hi) -> In a l.
Proof.
  unfold py_slice. intros H.
  rewrite <- (firstn_skipn (py_slice_bound (length l) lo) l).
  apply in_or_app. right.
  rewrite <- (firstn_skipn
                (py_slice_bound (length l) hi - py_slice_bound (length l) lo)
                (skipn _ l)).
  apply in_or_app. now left.
Qed.

Lemma mapM_range_pure {B : Type} (f : Z -> exc B) (g : nat -> B) (n : Z) :
  (forall i, (i < Z.to_nat n)%nat -> f (Z.of_nat i) = Ok (g i)) ->
  mapM f (py_range 0 n) = Ok (map g (seq 0 (Z.to_nat n))).
Proof.
  intros H. unfold py_range. rewrite Z.sub_0_r.
  rewrite (mapM_ext_in _ (fun z => Ok (g (Z.to_nat z)))).
  - rewrite mapM_pure, map_map. f_equal. apply map_ext. intros i.
    simpl. now rewrite Nat2Z.id.
  - intros z Hz. apply in_map_iff in Hz. destruct Hz as [i [<- Hi]].
    apply in_seq in Hi. simpl. rewrite Nat2Z.id. apply H. lia.
Qed.

(** ** Sums *)

Lemma fold_left_Rplus (l : list R) (a : R) :
  fold_left Rplus l a = (a + py_sum l)%R.
Proof.
  unfold py_sum. revert a. induction l as [| b l IH]; simpl; intros a; [lra |].
  rewrite IH, (IH (0 + b)%R). lra.
Qed.

Lemma py_sum_cons (a : R) (l : list R) : py_sum (a :: l) = (a + py_sum l)%R.
Proof.
  unfold py_sum at 1. simpl. rewrite fold_left_Rplus. lra.
Qed.

Lemma py_sum_app (l1 l2 : list R) :
  py_sum (l1 ++ l2) = (py_sum l1 + py_sum l2)%R.
Proof.
  induction l1 as [| a l1 IH]; simpl.
  - unfold py_sum at 2. simpl. lra.
  - rewrite !py_sum_cons, IH. lra.
Qed.

Lemma np_sum_finite_terms (l : list R) : np_sum (map Fin l) = Fin (py_sum l).
Proof.
  unfold np_sum, py_sum. generalize 0%R.
  induction l as [| a l IH]; simpl; intros z; [reflexivity | apply IH].
Qed.

(** A sum of consecutive differences, each divided by [d]. *)
Lemma py_sum_telescope (r u : nat -> R) (d : R) (m : nat) :
  (forall i, (i < m)%nat -> r i = ((u (S i) - u i) / d)%R) ->
  py_sum (map r (seq 0 m)) = ((u m - u 0%nat) / d)%R.
Proof.
  induction m as [| m IH]; intros H.
  - simpl. unfold py_sum. simpl. unfold Rdiv. lra.
  - rewrite seq_S, map_app, py_sum_app, IH by (intros; apply H; lia).
    simpl. rewrite py_sum_cons, (H m) by lia.
    unfold py_sum. simpl. unfold Rdiv. lra.
Qed.

(** ** [fit_meta_d_logL]: the type 2 probabilities *)

Section LikelihoodModel.

Variable parameters : list fval.
Variable io : inputObj.
Variable N : nat.

Hypothesis HN : nRatings io = Z.of_nat N.
Hypothesis HN1 : (1 <= N)%nat.
Hypothesis Hlen : length parameters = (2 * N - 1)%nat.

Local Abbreviation meta_d1 := (nth 0 parameters NaN).
Local Abbreviation T :=
  (extended_criteria (py_slice_from parameters 1) (nRatings io) (Fin 0)).
Local Abbreviation c := (criterion_at parameters (nRatings io)).

Lemma meta_d1_index : py_index parameters 0 = Ok meta_d1.
Proof. apply (@py_index_nth _ parameters 0%Z NaN). lia. Qed.

Lemma extended_criteria_length : length T = (2 * N + 1)%nat.
Proof.
  unfold extended_criteria.
  rewrite !length_app, py_slice_prefix_length, !py_slice_from_length by lia.
  simpl. lia.
Qed.

Lemma extended_criteria_first : c 0 = NInf.
Proof. reflexivity. Qed.

Lemma extended_criteria_middle : c N = Fin 0.
Proof.
  unfold criterion_at, extended_criteria. cbn [app nth].
  destruct N as [| n]; [lia |]. cbn [nth].
  rewrite app_nth2;
    rewrite py_slice_prefix_length, !py_slice_from_length by lia; [| lia].
  replace (n - _)%nat with 0%nat by lia. reflexivity.
Qed.

Lemma extended_criteria_last : c (2 * N) = PInf.
Proof.
  unfold criterion_at, extended_criteria.
  replace (2 * N)%nat with (S (N - 1 + S (N - 1))) by lia. cbn [app nth].
  rewrite app_nth2;
    rewrite py_slice_prefix_length, !py_slice_from_length by lia; [| lia].
  replace (N - 1 + S (N - 1) - _)%nat with (S (N - 1)) by lia. cbn [nth].
  rewrite app_nth2; rewrite !py_slice_from_length by lia; [| lia].
  replace (N - 1 - _)%nat with 0%nat by lia. reflexivity.
Qed.

(** Every extended criterion is a parameter, [0] or a sentinel. *)
Lemma extended_criteria_In (v : fval) :
  In v T -> v = NInf \/ v = PInf \/ v = Fin 0 \/ In v parameters.
Proof.
  unfold extended_criteria. intros H.
  repeat (apply in_app_or in H; destruct H as [H | H]).
  - destruct H as [<- | []]. now left.
  - right. right. right.
    eapply py_slice_from_incl, py_slice_incl, H.
  - destruct H as [<- | []]. auto.
  - right. right. right.
    eapply py_slice_from_incl, py_slice_from_incl, H.
  - destruct H as [<- | []]. auto.
Qed.

Lemma type2_probabilities_eval (S1mu S1sd S2mu S2sd : fval) :
  distributions meta_d1 io = Ok (S1mu, S1sd, S2mu, S2sd) ->
  let F1 := fun v => fncdf io v S1mu S1sd in
  let F2 := fun v => fncdf io v S2mu S2sd in
  type2_probabilities parameters io
  = Ok (map (fun i => fdiv (fsub (F1 (c (S i))) (F1 (c i))) (F1 (Fin 0)))
            (seq 0 N),
        map (fun i => fdiv (fsub (F2 (c (S i))) (F2 (c i))) (F2 (Fin 0)))
            (seq 0 N),
        map (fun i => fdiv (fsub (fsub (Fin 1) (F2 (c (N + i))))
                                 (fsub (Fin 1) (F2 (c (S (N + i))))))
                           (fsub (Fin 1) (F2 (Fin 0))))
            (seq 0 N),
        map (fun i => fdiv (fsub (fsub (Fin 1) (F1 (c (N + i))))
                                 (fsub (Fin 1) (F1 (c (S (N + i))))))
                           (fsub (Fin 1) (F1 (Fin 0))))
            (seq 0 N)).
Proof.
  intros Hd. cbv zeta. unfold type2_probabilities.
  rewrite meta_d1_index. cbn [bind]. rewrite Hd. cbn [bind].
  unfold type1_areas.
  pose proof extended_criteria_length as HT.
  assert (HNn : Z.to_nat (nRatings io) = N) by lia.
  rewrite (mapM_range_pure _
    (fun i => fdiv (fsub (fncdf io (c (S i)) S1mu S1sd)
                         (fncdf io (c i) S1mu S1sd))
                   (fncdf io (Fin 0) S1mu S1sd))).
  2:{ intros i Hi.
      rewrite (@py_index_nth _ T (Z.of_nat i + 1) NaN) by lia.
      rewrite (@py_index_nth _ T (Z.of_nat i) NaN) by lia.
      cbn [bind]. unfold criterion_at.
      replace (Z.to_nat (Z.of_nat i + 1)) with (S i) by lia.
      now rewrite Nat2Z.id. }
  cbn [bind].
  rewrite (mapM_range_pure _
    (fun i => fdiv (fsub (fncdf io (c (S i)) S2mu S2sd)
                         (fncdf io (c i) S2mu S2sd))
                   (fncdf io (Fin 0) S2mu S2sd))).
  2:{ intros i Hi.
      rewrite (@py_index_nth _ T (Z.of_nat i + 1) NaN) by lia.
      rewrite (@py_index_nth _ T (Z.of_nat i) NaN) by lia.
      cbn [bind]. unfold criterion_at.
      replace (Z.to_nat (Z.of_nat i + 1)) with (S i) by lia.
      now rewrite Nat2Z.id. }
  cbn [bind].
  rewrite (mapM_range_pure _
    (fun i => fdiv (fsub (fsub (Fin 1) (fncdf io (c (N + i)) S2mu S2sd))
                         (fsub (Fin 1)
                               (fncdf io (c (S (N + i))) S2mu S2sd)))
                   (fsub (Fin 1) (fncdf io (Fin 0) S2mu S2sd)))).
  2:{ intros i Hi.
      rewrite (@py_index_nth _ T (nRatings io + Z.of_nat i) NaN) by lia.
      rewrite (@py_index_nth _ T (nRatings io + Z.of_nat i + 1) NaN) by lia.
      cbn [bind]. unfold criterion_at.
      replace (Z.to_nat (nRatings io + Z.of_nat i)) with (N + i)%nat by lia.
      replace (Z.to_nat (nRatings io + Z.of_nat i + 1))
        with (S (N + i)) by lia.
      reflexivity. }
  cbn [bind].
  rewrite (mapM_range_pure _
    (fun i => fdiv (fsub (fsub (Fin 1) (fncdf io (c (N + i)) S1mu S1sd))
                         (fsub (Fin 1)
                               (fncdf io (c (S (N + i))) S1mu S1sd)))
                   (fsub (Fin 1) (fncdf io (Fin 0) S1mu S1sd)))).
  2:{ intros i Hi.
      rewrite (@py_index_nth _ T (nRatings io + Z.of_nat i) NaN) by lia.
      rewrite (@py_index_nth _ T (nRatings io + Z.of_nat i + 1) NaN) by lia.
      cbn [bind]. unfold criterion_at.
      replace (Z.to_nat (nRatings io + Z.of_nat i)) with (N + i)%nat by lia.
      replace (Z.to_nat (nRatings io + Z.of_nat i + 1))
        with (S (N + i)) by lia.
      reflexivity. }
  cbn [bind]. rewrite HNn. reflexivity.
Qed.

End LikelihoodModel.

Lemma fdiv_finite (a d : R) : d <> 0%R -> fdiv (Fin a) (Fin d) = Fin (a / d).
Proof. intros H. simpl. now rewrite Reqb_false. Qed.

Lemma is_finite_real (v : fval) : is_finite v -> v = Fin (fval_real v).
Proof. intros [r ->]. reflexivity. Qed.

Lemma np_sum_differences (f : nat -> fval) (u : nat -> R) (d : R) (m : nat) :
  d <> 0%R ->
  (forall i, (i < m)%nat -> f i = Fin ((u (S i) - u i) / d)) ->
  (u m - u 0%nat)%R = d ->
  np_sum (map f (seq 0 m)) = Fin 1.
Proof.
  intros Hd Hf Hu.
  rewrite (map_ext_in f (fun i => Fin ((u (S i) - u i) / d)))
    by (intros i Hi; apply in_seq in Hi; apply Hf; lia).
  rewrite <- (map_map (fun i => ((u (S i) - u i) / d)%R) Fin).
  rewrite np_sum_finite_terms.
  rewrite (@py_sum_telescope _ u d m) by reflexivity.
  f_equal. rewrite Hu. now field.
Qed.

Section ProbabilitiesSumToOne.

Variable parameters : list fval.
Variable io : inputObj.
Variable N : nat.
Variables S1mu S1sd S2mu S2sd : fval.

Hypothesis HN : nRatings io = Z.of_nat N.
Hypothesis HN1 : (1 <= N)%nat.
Hypothesis Hlen : length parameters = (2 * N - 1)%nat.
Hypothesis Hfin : Forall is_finite parameters.
Hypothesis Hdist :
  distributions (nth 0 parameters NaN) io = Ok (S1mu, S1sd, S2mu, S2sd).

Local Abbreviation c := (criterion_at parameters (nRatings io)).

Lemma cdf_at_criterion (F : fval -> fval) (j : nat) :
  is_cdf F -> (j <= 2 * N)%nat -> is_finite (F (c j)).
Proof.
  intros [Hlo [Hhi [Hval _]]] Hj.
  assert (Hin : In (c j) (extended_criteria (py_slice_from parameters 1)
                                            (nRatings io) (Fin 0))).
  { apply nth_In.
    rewrite (extended_criteria_length parameters io HN HN1 Hlen). lia. }
  apply extended_criteria_In in Hin.
  destruct Hin as [E | [E | [E | Hin]]].
  - rewrite E, Hlo. now exists 0%R.
  - rewrite E, Hhi. now exists 1%R.
  - rewrite E. destruct (Hval 0%R) as [p [Hp _]]. now exists p.
  - rewrite Forall_forall in Hfin. destruct (Hfin _ Hin) as [r E].
    rewrite E. destruct (Hval r) as [p [Hp _]]. now exists p.
Qed.

Lemma lower_branch_sums_to_one (F : fval -> fval) :
  is_cdf F -> F (Fin 0) <> Fin 0 ->
  np_sum (map (fun i => fdiv (fsub (F (c (S i))) (F (c i))) (F (Fin 0)))
              (seq 0 N)) = Fin 1.
Proof.
  intros HF Harea.
  pose (u := fun j => fval_real (F (c j))).
  assert (Hu : forall j, (j <= 2 * N)%nat -> F (c j) = Fin (u j))
    by (intros j Hj; now apply is_finite_real, cdf_at_criterion).
  assert (EN : F (Fin 0) = Fin (u N)).
  { rewrite <- (Hu N) by lia.
    now rewrite (extended_criteria_middle parameters io HN HN1 Hlen). }
  assert (E0 : u 0%nat = 0%R).
  { unfold u. rewrite extended_criteria_first.
    destruct HF as [-> _]. reflexivity. }
  apply (@np_sum_differences _ u (u N) N).
  - intros E. apply Harea. now rewrite EN, E.
  - intros i Hi. rewrite EN, (Hu (S i)), (Hu i) by lia.
    cbn [fsub fneg fadd]. rewrite fdiv_finite.
    + reflexivity.
    + intros E. apply Harea. now rewrite EN, E.
  - rewrite E0. lra.
Qed.

Lemma upper_branch_sums_to_one (F : fval -> fval) :
  is_cdf F -> fsub (Fin 1) (F (Fin 0)) <> Fin 0 ->
  np_sum (map (fun i => fdiv (fsub (fsub (Fin 1) (F (c (N + i))))
                                   (fsub (Fin 1) (F (c (S (N + i))))))
                             (fsub (Fin 1) (F (Fin 0))))
              (seq 0 N)) = Fin 1.
Proof.
  intros HF Harea.
  pose (w := fun j => fval_real (F (c j))).
  assert (Hu : forall j, (j <= 2 * N)%nat -> F (c j) = Fin (w j))
    by (intros j Hj; now apply is_finite_real, cdf_at_criterion).
  assert (EN : F (Fin 0) = Fin (w N)).
  { rewrite <- (Hu N) by lia.
    now rewrite (extended_criteria_middle parameters io HN HN1 Hlen). }
  assert (E2N : w (2 * N)%nat = 1%R).
  { unfold w. rewrite (extended_criteria_last parameters io HN HN1 Hlen).
    destruct HF as [_ [-> _]]. reflexivity. }
  rewrite EN in Harea. cbn [fsub fneg fadd] in Harea.
  assert (Hd : (1 + - w N <> 0)%R) by (intros E; apply Harea; now rewrite E).
  apply (@np_sum_differences _ (fun i => w (N + i)%nat) (1 + - w N)%R N).
  - exact Hd.
  - intros i Hi. rewrite EN, (Hu (N + i)%nat), (Hu (S (N + i))) by lia.
    cbn [fsub fneg fadd]. rewrite fdiv_finite by exact Hd.
    rewrite Nat.add_succ_r. f_equal. unfold Rdiv. f_equal. lra.
  - rewrite Nat.add_0_r.
    replace (N + N)%nat with (2 * N)%nat by lia. rewrite E2N. lra.
Qed.

End ProbabilitiesSumToOne.

(** ** Evaluation of float expressions on literals *)

Ltac reqb :=
  match goal with
  | |- context [Reqb ?a ?b] =>
      first [ rewrite (@Reqb_false a b) by lra
            | rewrite (@Reqb_true a b) by lra ]
  end.

Ltac rsgn :=
  match goal with
  | |- context [Rsgn ?a] =>
      first [ rewrite (@Rsgn_Gt a) by lra
            | rewrite (@Rsgn_Lt a) by lra
            | rewrite (@Rsgn_Eq a) by lra ]
  end.

Ltac feval :=
  repeat first
    [ progress cbn [fadd fsub fneg fmul fdiv signed_inf CompOpp
                    np_log np_sqrt np_isinf np_isnan bind fst snd]
    | reqb
    | rsgn ].

(** Equality of results up to equations between real literals. *)
Ltac fin_eq :=
  repeat match goal with
         | |- ?a = ?a => reflexivity
         | |- Ok _ = Ok _ => apply f_equal
         | |- (_, _) = (_, _) => apply f_equal2
         | |- _ :: _ = _ :: _ => apply f_equal2
         | |- Fin _ = Fin _ => apply f_equal; lra
         end.

Lemma uniform_cdf_is_cdf (m w : R) :
  (0 < w)%R -> is_cdf (fun v => uniform_cdf v (Fin m) (Fin w)).
Proof.
  intros Hw. unfold is_cdf, uniform_cdf. rewrite (Rsgn_Gt Hw).
  split; [reflexivity |]. split; [reflexivity |]. split.
  - intros r. eexists. split; [reflexivity |]. split.
    + apply Rmax_l.
    + apply Rmax_lub; [lra | apply Rmin_l].
  - intros a b pa pb Hab Ha Hb. inversion Ha. inversion Hb. subst.
    apply Rle_max_compat_l, Rle_min_compat_l.
    unfold Rdiv. apply Rmult_le_compat_r; [| lra].
    left. now apply Rinv_0_lt_compat.
Qed.

(** C2, with the side condition the division needs.  For a parameter
    vector of [2K-1] finite entries ([K >= 1]) whose two distributions give
    cumulative distribution functions, and as long as none of the four
    normalising areas on the two sides of the type 1 criterion is zero, the
    [K] probabilities in each of [prC_rS1], [prI_rS1], [prC_rS2], [prI_rS2]
    sum to 1.  Neither the order of the criteria nor the monotonicity of the
    distribution function is needed: the sums telescope. *)
Theorem type2_probabilities_sum_to_one
    (parameters : list fval) (io : inputObj) (N : nat)
    (S1mu S1sd S2mu S2sd : fval) :
  nRatings io = Z.of_nat N -> (1 <= N)%nat ->
  length parameters = (2 * N - 1)%nat ->
  Forall is_finite parameters ->
  distributions (nth 0 parameters NaN) io = Ok (S1mu, S1sd, S2mu, S2sd) ->
  is_cdf (fun v => fncdf io v S1mu S1sd) ->
  is_cdf (fun v => fncdf io v S2mu S2sd) ->
  (let '(C_area_rS1, I_area_rS1, C_area_rS2, I_area_rS2) :=
     type1_areas (fncdf io) (Fin 0) S1mu S1sd S2mu S2sd in
   C_area_rS1 <> Fin 0 /\ I_area_rS1 <> Fin 0 /\
   C_area_rS2 <> Fin 0 /\ I_area_rS2 <> Fin 0) ->
  exists prC_rS1 prI_rS1 prC_rS2 prI_rS2,
    type2_probabilities parameters io
    = Ok (prC_rS1, prI_rS1, prC_rS2, prI_rS2) /\
    (length prC_rS1 = N /\ length prI_rS1 = N /\
     length prC_rS2 = N /\ length prI_rS2 = N) /\
    np_sum prC_rS1 = Fin 1 /\ np_sum prI_rS1 = Fin 1 /\
    np_sum prC_rS2 = Fin 1 /\ np_sum prI_rS2 = Fin 1.
Proof.
  intros HN HN1 Hlen Hfin Hdist HF1 HF2 Hareas.
  unfold type1_areas in Hareas. destruct Hareas as [A1 [A2 [A3 A4]]].
  do 4 eexists. split.
  - apply (type2_probabilities_eval parameters io HN HN1 Hlen Hdist).
  - split; [now rewrite !length_map, !length_seq |].
    split; [| split; [| split]].
    + exact (@lower_branch_sums_to_one parameters io N HN HN1 Hlen Hfin
               (fun v => fncdf io v S1mu S1sd) HF1 A1).
    + exact (@lower_branch_sums_to_one parameters io N HN HN1 Hlen Hfin
               (fun v => fncdf io v S2mu S2sd) HF2 A2).
    + exact (@upper_branch_sums_to_one parameters io N HN HN1 Hlen Hfin
               (fun v => fncdf io v S2mu S2sd) HF2 A3).
    + exact (@upper_branch_sums_to_one parameters io N HN HN1 Hlen Hfin
               (fun v => fncdf io v S1mu S1sd) HF1 A4).
Qed.

Lemma uniform_io_distributions (m : R) :
  distributions (Fin m) uniform_io
  = Ok (Fin (m / 2), Fin 1, Fin (3 * m / 2), Fin 1).
Proof.
  rewrite (distributions_eval (Fin m) uniform_io
             (shift := fmul (Fin m) (fdiv (Fin (-0.5)) (Fin 0.5))))
    by (cbn [s uniform_io]; first [lra | reflexivity]).
  cbn [s uniform_io]. feval. fin_eq.
Qed.

Lemma type2_probabilities_sum_to_one_witness :
  exists prC_rS1 prI_rS1 prC_rS2 prI_rS2,
    type2_probabilities [Fin (-0.5); Fin (-0.5); Fin 0.5] uniform_io
    = Ok (prC_rS1, prI_rS1, prC_rS2, prI_rS2) /\
    np_sum prC_rS1 = Fin 1 /\ np_sum prI_rS1 = Fin 1 /\
    np_sum prC_rS2 = Fin 1 /\ np_sum prI_rS2 = Fin 1.
Proof.
  destruct (@type2_probabilities_sum_to_one
              [Fin (-0.5); Fin (-0.5); Fin 0.5] uniform_io 2
              (Fin (-0.5 / 2)) (Fin 1) (Fin (3 * -0.5 / 2)) (Fin 1))
    as [p1 [p2 [p3 [p4 [Hp [_ Hsum]]]]]].
  - reflexivity.
  - lia.
  - reflexivity.
  - repeat constructor; eexists; reflexivity.
  - apply uniform_io_distributions.
  - apply uniform_cdf_is_cdf. lra.
  - apply uniform_cdf_is_cdf. lra.
  - unfold type1_areas, uniform_io, uniform_cdf. cbn [fncdf].
    rewrite (@Rsgn_Gt 1) by lra.
    replace ((0 - -0.5 / 2) / 1)%R with 0.25%R by lra.
    replace ((0 - 3 * -0.5 / 2) / 1)%R with 0.75%R by lra.
    rewrite (Rmin_right 1 0.25), (Rmin_right 1 0.75) by lra.
    rewrite (Rmax_right 0 0.25), (Rmax_right 0 0.75) by lra.
    cbn [fsub fneg fadd].
    repeat split; intros E; inversion E; lra.
  - exists p1, p2, p3, p4. split; [exact Hp | exact Hsum].
Defined.

Lemma uniform_cdf_left (r m w : R) :
  (0 < w)%R -> (r <= m)%R -> uniform_cdf (Fin r) (Fin m) (Fin w) = Fin 0.
Proof.
  intros Hw Hr. unfold uniform_cdf. rewrite (Rsgn_Gt Hw). f_equal.
  assert (H : ((r - m) / w <= 0)%R).
  { unfold Rdiv. rewrite <- (Rmult_0_l (/ w)).
    apply Rmult_le_compat_r; [| lra]. left. now apply Rinv_0_lt_compat. }
  rewrite Rmin_right by lra. now apply Rmax_left.
Qed.

Lemma uniform_cdf_sentinels (m w : R) :
  (0 < w)%R ->
  uniform_cdf NInf (Fin m) (Fin w) = Fin 0 /\
  uniform_cdf PInf (Fin m) (Fin w) = Fin 1.
Proof. intros Hw. unfold uniform_cdf. now rewrite (Rsgn_Gt Hw). Qed.

(** C2 as the specification words it does not hold.  With the uniform
    family plugged in and meta-d' = 2, the two distributions lie to the
    right of the type 1 criterion: the area [C_area_rS1] is 0, and every
    entry of [prC_rS1] is [0/0].  The parameter vector is within the bounds
    and in order, and the distribution functions are monotone with the
    limits 0 and 1. *)
Lemma type2_probabilities_zero_area :
  ((-10 <= 2 <= 10)%R /\ (-20 <= -0.5 <= 0)%R /\ (0 <= 0.5 <= 20)%R /\
   (-0.5 - 0.5 <= -1e-5)%R) /\
  (forall m w : R,
      (0 < w)%R -> is_cdf (fun v => uniform_cdf v (Fin m) (Fin w))) /\
  exists prC_rS1 prI_rS1 prC_rS2 prI_rS2,
    type2_probabilities [Fin 2; Fin (-0.5); Fin 0.5] uniform_io
    = Ok (prC_rS1, prI_rS1, prC_rS2, prI_rS2) /\
    np_sum prC_rS1 = NaN /\ np_sum prC_rS1 <> Fin 1.
Proof.
  split; [lra |]. split; [exact uniform_cdf_is_cdf |].
  pose proof (@type2_probabilities_eval
                [Fin 2; Fin (-0.5); Fin 0.5] uniform_io 2
                eq_refl (le_S _ _ (le_n 1)) eq_refl
                _ _ _ _ (uniform_io_distributions 2)) as H.
  cbv zeta in H. do 4 eexists. split; [exact H |].
  assert (E : np_sum
                (map (fun i =>
                        fdiv (fsub (fncdf uniform_io
                                      (criterion_at
                                         [Fin 2; Fin (-0.5); Fin 0.5]
                                         (nRatings uniform_io) (S i))
                                      (Fin (2 / 2)) (Fin 1))
                                   (fncdf uniform_io
                                      (criterion_at
                                         [Fin 2; Fin (-0.5); Fin 0.5]
                                         (nRatings uniform_io) i)
                                      (Fin (2 / 2)) (Fin 1)))
                             (fncdf uniform_io (Fin 0) (Fin (2 / 2)) (Fin 1)))
                     (seq 0 2)) = NaN).
  { cbn [seq map fncdf uniform_io nRatings].
    change (criterion_at [Fin 2; Fin (-0.5); Fin 0.5] 2 0) with NInf.
    change (criterion_at [Fin 2; Fin (-0.5); Fin 0.5] 2 1) with (Fin (-0.5)).
    change (criterion_at [Fin 2; Fin (-0.5); Fin 0.5] 2 2) with (Fin 0).
    destruct (@uniform_cdf_sentinels (2 / 2) 1) as [-> _]; [lra |].
    rewrite !uniform_cdf_left by lra.
    unfold np_sum. cbn [fold_left]. feval. reflexivity. }
  split; [exact E |]. rewrite E. discriminate.
Qed.

(** ** [fit_meta_d_logL]: the value returned *)

Lemma mapM_ok {X Y : Type} (f : X -> exc Y) (l : list X) :
  (forall a, In a l -> exists b, f a = Ok b) ->
  exists bs, mapM f l = Ok bs.
Proof.
  induction l as [| a l IH]; intros H; simpl.
  - now exists [].
  - destruct (H a) as [b Hb]; [now left |]. rewrite Hb. cbn [bind].
    destruct IH as [bs Hbs]; [intros; apply H; now right |].
    rewrite Hbs. cbn [bind]. now exists (b :: bs).
Qed.

Lemma type2_counts_returns (io : inputObj) (N : nat) :
  nRatings io = Z.of_nat N ->
  length (nR_S1 io) = (2 * N)%nat -> length (nR_S2 io) = (2 * N)%nat ->
  exists nC_rS1 nI_rS1 nC_rS2 nI_rS2,
    type2_counts io = Ok (nC_rS1, nI_rS1, nC_rS2, nI_rS2) /\
    length nC_rS1 = N /\ length nI_rS1 = N /\
    length nC_rS2 = N /\ length nI_rS2 = N.
Proof.
  intros HN H1 H2. unfold type2_counts.
  assert (HNn : Z.to_nat (nRatings io) = N) by lia.
  rewrite (mapM_range_pure _ (fun i => nth i (nR_S1 io) 0%R)).
  2:{ intros i Hi. rewrite (@py_index_nth _ (nR_S1 io) (Z.of_nat i) 0%R) by lia.
      now rewrite Nat2Z.id. }
  cbn [bind].
  rewrite (mapM_range_pure _ (fun i => nth i (nR_S2 io) 0%R)).
  2:{ intros i Hi. rewrite (@py_index_nth _ (nR_S2 io) (Z.of_nat i) 0%R) by lia.
      now rewrite Nat2Z.id. }
  cbn [bind].
  rewrite (mapM_range_pure _ (fun i => nth (i + N) (nR_S2 io) 0%R)).
  2:{ intros i Hi.
      rewrite (@py_index_nth _ (nR_S2 io) (Z.of_nat i + nRatings io) 0%R)
        by lia.
      do 2 f_equal. lia. }
  cbn [bind].
  rewrite (mapM_range_pure _ (fun i => nth (i + N) (nR_S1 io) 0%R)).
  2:{ intros i Hi.
      rewrite (@py_index_nth _ (nR_S1 io) (Z.of_nat i + nRatings io) 0%R)
        by lia.
      do 2 f_equal. lia. }
  cbn [bind]. do 4 eexists. split; [reflexivity |].
  rewrite !length_map, !length_seq. auto.
Qed.

Lemma log_likelihood_returns (parameters : list fval) (io : inputObj)
    (N : nat) :
  nRatings io = Z.of_nat N -> (1 <= N)%nat ->
  length parameters = (2 * N - 1)%nat ->
  length (nR_S1 io) = (2 * N)%nat -> length (nR_S2 io) = (2 * N)%nat ->
  s io <> 0%R -> criterion_evaluates io (nth 0 parameters NaN) ->
  exists logL, log_likelihood parameters io = Ok logL.
Proof.
  intros HN HN1 Hlen H1 H2 Hs [shift Hshift]. unfold log_likelihood.
  rewrite (@meta_d1_index parameters N HN1 Hlen). cbn [bind].
  assert (Hd : exists S1mu S1sd S2mu S2sd,
             distributions (nth 0 parameters NaN) io
             = Ok (S1mu, S1sd, S2mu, S2sd)).
  { rewrite (@distributions_eval _ io _ Hs Hshift). do 4 eexists. reflexivity. }
  destruct Hd as [S1mu [S1sd [S2mu [S2sd Hd]]]]. rewrite Hd. cbn [bind].
  destruct (@type2_counts_returns io N HN H1 H2)
    as [n1 [n2 [n3 [n4 [Hc [L1 [L2 [L3 L4]]]]]]]].
  rewrite Hc. cbn [bind].
  rewrite (type2_probabilities_eval parameters io HN HN1 Hlen Hd).
  cbn [bind].
  match goal with
  | |- exists logL, bind (mapM ?f ?l) _ = _ =>
      destruct (@mapM_ok _ _ f l) as [terms Ht]
  end.
  - intros i Hi. apply py_range_In in Hi.
    rewrite (@py_index_nth _ n1 i 0%R) by lia.
    rewrite (@py_index_nth _ n2 i 0%R) by lia.
    rewrite (@py_index_nth _ n3 i 0%R) by lia.
    rewrite (@py_index_nth _ n4 i 0%R) by lia.
    cbn [bind].
    repeat match goal with
           | |- context [py_index ?l i] =>
               rewrite (@py_index_nth _ l i NaN)
                 by (rewrite length_map, length_seq; lia);
               cbn [bind]
           end.
    eexists. reflexivity.
  - rewrite Ht. cbn [bind]. eexists. reflexivity.
Qed.



(** ** [fit_meta_d_MLE]: the initial guess *)

Lemma py_slice_from_skipn {T : Type} (l : list T) (c : nat) :
  py_slice_from l (Z.of_nat c) = skipn c l.
Proof.
  unfold py_slice_from, py_slice_bound.
  destruct (Z.ltb_spec (Z.of_nat c) 0); [lia |]. rewrite Nat2Z.id.
  destruct (Nat.le_gt_cases c (length l)) as [Hle | Hgt].
  - now rewrite Nat.min_l.
  - rewrite Nat.min_r by lia. rewrite !skipn_all2; [reflexivity | lia | lia].
Qed.

Lemma rating_rates_eval (nR_S1 nR_S2 : list R) (K : nat) :
  py_sum nR_S1 <> 0%R -> py_sum nR_S2 <> 0%R ->
  rating_rates nR_S1 nR_S2 (Z.of_nat K)
  = Ok (map (fun c => (py_sum (skipn c nR_S2) / py_sum nR_S2)%R)
            (seq 1 (2 * K - 1)),
        map (fun c => (py_sum (skipn c nR_S1) / py_sum nR_S1)%R)
            (seq 1 (2 * K - 1))).
Proof.
  intros H1 H2. unfold rating_rates, py_range.
  rewrite (mapM_ext_in _
    (fun c => Ok ((py_sum (skipn (Z.to_nat c) nR_S2) / py_sum nR_S2)%R,
                  (py_sum (skipn (Z.to_nat c) nR_S1) / py_sum nR_S1)%R))).
  2:{ intros c Hc. apply in_map_iff in Hc. destruct Hc as [i [<- _]].
      replace (1 + Z.of_nat i)%Z with (Z.of_nat (S i)) by lia.
      rewrite !py_slice_from_skipn, !pydiv_ok by assumption.
      cbn [bind]. now rewrite Nat2Z.id. }
  rewrite mapM_pure. cbn [bind]. rewrite !map_map. cbn [fst snd].
  replace (Z.to_nat (Z.of_nat K * 2 - 1)) with (2 * K - 1)%nat by lia.
  f_equal. f_equal.
  - rewrite <- seq_shift, map_map. apply map_ext. intros i.
    f_equal. f_equal. f_equal. lia.
  - rewrite <- seq_shift, map_map. apply map_ext. intros i.
    f_equal. f_equal. f_equal. lia.
Qed.

Lemma t2_indices_In (K i : Z) :
  In i (t2_indices K (K - 1)) -> (0 <= i < 2 * K - 1)%Z.
Proof.
  unfold t2_indices. intros H. apply filter_In in H.
  destruct H as [H _]. now apply py_range_In in H.
Qed.

Lemma t2_indices_length (K : nat) :
  (1 <= K)%nat ->
  length (t2_indices (Z.of_nat K) (Z.of_nat K - 1)) = (2 * K - 2)%nat.
Proof.
  intros HK. unfold t2_indices, py_range.
  replace (Z.to_nat (2 * Z.of_nat K - 1 - 0)) with (K - 1 + S (K - 1))%nat
    by lia.
  rewrite seq_app, map_app, filter_app, length_app. cbn [seq map filter].
  destruct (Z.eqb_spec (0 + Z.of_nat (0 + (K - 1))) (Z.of_nat K - 1));
    [| lia].
  cbn [negb].
  rewrite !forallb_filter_id.
  - rewrite !length_map, !length_seq. lia.
  - apply forallb_forall. intros z Hz. apply in_map_iff in Hz.
    destruct Hz as [i [<- Hi]]. apply in_seq in Hi.
    apply negb_true_iff, Z.eqb_neq. lia.
  - apply forallb_forall. intros z Hz. apply in_map_iff in Hz.
    destruct Hz as [i [<- Hi]]. apply in_seq in Hi.
    apply negb_true_iff, Z.eqb_neq. lia.
Qed.

Lemma initial_estimate_eval (nR_S1 nR_S2 : list R) (s : R)
    (fninv : fval -> fval) (K : nat) (hr far : list R) :
  length nR_S1 = (2 * K)%nat -> (1 <= K)%nat ->
  rating_rates nR_S1 nR_S2 (Z.of_nat K) = Ok (hr, far) ->
  length hr = (2 * K - 1)%nat -> length far = (2 * K - 1)%nat ->
  s <> 0%R -> (1 + s)%R <> 0%R ->
  let c1 := criteria_c1 fninv s hr far in
  let d := fsub (fmul (Fin (1 / s)) (fninv (Fin (nth (K - 1) hr 0%R))))
                (fninv (Fin (nth (K - 1) far 0%R))) in
  let t1 := nth (K - 1) c1 NaN in
  initial_estimate nR_S1 nR_S2 s fninv
  = Ok {| init_d1 := d;
          init_t1c1 := t1;
          guess := [d] ++ map (fun c => fsub c (fmul d (fdiv t1 d)))
                              (map (fun i => nth (Z.to_nat i) c1 NaN)
                                   (t2_indices (Z.of_nat K)
                                               (Z.of_nat K - 1))) |}.
Proof.
  intros Hlen HK Hrates Hhr Hfar Hs Hs1. cbv zeta. unfold initial_estimate.
  assert (Hdiv : (length nR_S1 / 2 = K)%nat).
  { rewrite Hlen, Nat.mul_comm. apply Nat.div_mul. discriminate. }
  rewrite Hdiv, Hrates. cbn [bind].
  rewrite (pydiv_ok 1 Hs). cbn [bind].
  rewrite (@py_index_nth _ hr (Z.of_nat K - 1) 0%R) by lia. cbn [bind].
  rewrite (@py_index_nth _ far (Z.of_nat K - 1) 0%R) by lia. cbn [bind].
  rewrite (pydiv_ok (-1) Hs1). cbn [bind].
  fold (criteria_c1 fninv s hr far).
  assert (Hc1 : length (criteria_c1 fninv s hr far) = (2 * K - 1)%nat).
  { unfold criteria_c1. rewrite length_map, length_combine. lia. }
  rewrite (@py_index_nth _ (criteria_c1 fninv s hr far)
             (Z.of_nat K - 1) NaN) by lia.
  cbn [bind].
  rewrite (mapM_ext_in _
    (fun i => Ok (nth (Z.to_nat i) (criteria_c1 fninv s hr far) NaN))).
  2:{ intros i Hi. apply t2_indices_In in Hi.
      apply py_index_nth. lia. }
  rewrite mapM_pure. cbn [bind].
  replace (Z.to_nat (Z.of_nat K - 1)) with (K - 1)%nat by lia.
  reflexivity.
Qed.

Ltac real_eq :=
  repeat match goal with
         | |- ?a = ?a => reflexivity
         | |- Ok _ = Ok _ => apply f_equal
         | |- (_, _) = (_, _) => apply f_equal2
         | |- _ :: _ = _ :: _ => apply f_equal2
         | |- Build_InitialEstimate _ _ _ = Build_InitialEstimate _ _ _ =>
             apply f_equal3
         | |- Fin _ = Fin _ => apply f_equal
         | |- @eq R _ _ => lra
         end.

Lemma rating_rates_zero_count :
  rating_rates [1; 1; 1; 1]%R [1; 1; 1; 0]%R 2
  = Ok ([2 / 3; 1 / 3; 0]%R, [3 / 4; 1 / 2; 1 / 4]%R).
Proof.
  change (rating_rates [1; 1; 1; 1]%R [1; 1; 1; 0]%R 2)
    with (rating_rates [1; 1; 1; 1]%R [1; 1; 1; 0]%R (Z.of_nat 2)).
  rewrite (@rating_rates_eval [1; 1; 1; 1]%R [1; 1; 1; 0]%R 2)
    by (unfold py_sum; cbn [fold_left]; lra).
  cbn [seq map skipn Nat.sub Nat.mul Nat.add]. unfold py_sum. cbn [fold_left].
  real_eq.
Qed.

(** Whatever inverse distribution function is plugged in, it is applied to
    the rate 0 itself; when it is infinite there, as [norm.ppf] is, the last
    component of the guess is not finite. *)
Lemma initial_estimate_applies_fninv_to_zero (fninv : fval -> fval) :
  fninv (Fin 0) = NInf -> is_finite (fninv (Fin (1 / 4))) ->
  exists est g,
    initial_estimate [1; 1; 1; 1]%R [1; 1; 1; 0]%R 1 fninv = Ok est /\
    nth_error (guess est) 2 = Some g /\ ~ is_finite g.
Proof.
  intros H0 [q Hq].
  pose proof (@initial_estimate_eval [1; 1; 1; 1]%R [1; 1; 1; 0]%R 1 fninv 2
                [2 / 3; 1 / 3; 0]%R [3 / 4; 1 / 2; 1 / 4]%R
                eq_refl (le_S _ _ (le_n 1)) rating_rates_zero_count
                eq_refl eq_refl) as H.
  cbv zeta in H. rewrite H by lra. clear H.
  change (t2_indices (Z.of_nat 2) (Z.of_nat 2 - 1)) with [0; 2]%Z.
  do 2 eexists. split; [reflexivity |]. cbn [guess app map nth_error].
  split; [reflexivity |].
  unfold criteria_c1. cbn [combine map nth Z.to_nat Pos.to_nat Pos.iter_op
                           Nat.add fst snd].
  rewrite H0, Hq. cbn [fadd fmul].
  rewrite (@Rsgn_Lt (-1 / (1 + 1))) by lra. cbn [CompOpp signed_inf].
  intros [r Hr]. unfold fsub in Hr.
  destruct (fneg _); discriminate.
Qed.

(** C7 as the specification words it does not hold.  For
    [nR_S1 = [1,1,1,1]] and [nR_S2 = [1,1,1,0]] the cumulative hit rate of
    the last split is 0; it is given to [norm.ppf] as it is, and the last
    component of the initial guess is not finite. *)
Lemma initial_estimate_zero_rate :
  rating_rates [1; 1; 1; 1]%R [1; 1; 1; 0]%R 2
  = Ok ([2 / 3; 1 / 3; 0]%R, [3 / 4; 1 / 2; 1 / 4]%R) /\
  exists est g,
    initial_estimate [1; 1; 1; 1]%R [1; 1; 1; 0]%R 1 norm_ppf = Ok est /\
    nth_error (guess est) 2 = Some g /\ ~ is_finite g.
Proof.
  split; [exact rating_rates_zero_count |].
  apply initial_estimate_applies_fninv_to_zero.
  - unfold norm_ppf.
    now rewrite (@Rsgn_Eq 0), (@Rsgn_Gt (1 - 0)) by lra.
  - apply norm_ppf_interior. lra.
Qed.

Lemma py_sum_nonneg (l : list R) :
  Forall (fun n => 0 < n)%R l -> (0 <= py_sum l)%R.
Proof.
  induction 1 as [| a l Ha _ IH].
  - unfold py_sum. simpl. lra.
  - rewrite py_sum_cons. lra.
Qed.

Lemma py_sum_pos (l : list R) :
  Forall (fun n => 0 < n)%R l -> l <> [] -> (0 < py_sum l)%R.
Proof.
  intros H Hne. destruct H as [| a l Ha Hl]; [congruence |].
  rewrite py_sum_cons. pose proof (py_sum_nonneg Hl). lra.
Qed.

Lemma cumulative_rate_interior (l : list R) (c : nat) :
  Forall (fun n => 0 < n)%R l -> (1 <= c < length l)%nat ->
  (0 < py_sum (skipn c l) / py_sum l < 1)%R.
Proof.
  intros Hpos Hc.
  assert (Hsplit : py_sum l = (py_sum (firstn c l) + py_sum (skipn c l))%R)
    by (now rewrite <- py_sum_app, firstn_skipn).
  assert (Hhead : (0 < py_sum (firstn c l))%R).
  { apply py_sum_pos.
    - rewrite Forall_forall in *. intros a Ha. apply Hpos.
      rewrite <- (firstn_skipn c l). apply in_or_app. now left.
    - intros E. apply (f_equal (@length R)) in E.
      rewrite length_firstn in E. simpl in E. lia. }
  assert (Htail : (0 < py_sum (skipn c l))%R).
  { apply py_sum_pos.
    - rewrite Forall_forall in *. intros a Ha. apply Hpos.
      rewrite <- (firstn_skipn c l). apply in_or_app. now right.
    - intros E. apply (f_equal (@length R)) in E.
      rewrite length_skipn in E. simpl in E. lia. }
  split.
  - apply Rdiv_lt_0_compat; lra.
  - apply (Rmult_lt_reg_r (py_sum l)); [lra |].
    unfold Rdiv. rewrite Rmult_assoc, Rinv_l by lra. lra.
Qed.

Lemma cumulative_rates_interior (l : list R) (K : nat) :
  Forall (fun n => 0 < n)%R l -> length l = (2 * K)%nat ->
  Forall (fun q => 0 < q < 1)%R
         (map (fun c => (py_sum (skipn c l) / py_sum l)%R)
              (seq 1 (2 * K - 1))).
Proof.
  intros Hpos Hlen. apply Forall_forall. intros q Hq.
  apply in_map_iff in Hq. destruct Hq as [c [<- Hc]]. apply in_seq in Hc.
  apply cumulative_rate_interior; [assumption | lia].
Qed.

Lemma criteria_c1_finite (fninv : fval -> fval) (s : R) (hr far : list R) :
  (forall q, (0 < q < 1)%R -> is_finite (fninv (Fin q))) ->
  Forall (fun q => 0 < q < 1)%R hr -> Forall (fun q => 0 < q < 1)%R far ->
  Forall is_finite (criteria_c1 fninv s hr far).
Proof.
  intros Hinv Hhr Hfar. unfold criteria_c1. apply Forall_forall.
  intros v Hv. apply in_map_iff in Hv. destruct Hv as [[h f] [<- Hin]].
  rewrite Forall_forall in Hhr, Hfar.
  destruct (Hinv h) as [a Ha]; [apply Hhr; eapply in_combine_l; eauto |].
  destruct (Hinv f) as [b Hb]; [apply Hfar; eapply in_combine_r; eauto |].
  cbn [fst snd]. rewrite Ha, Hb. eexists. reflexivity.
Qed.

(** C7, as the code behaves.  No boundary adjustment is made: the
    cumulative rates are given to the inverse distribution function as they
    are.  For count vectors of length [2K] whose counts are all strictly
    positive every rate lies strictly between 0 and 1; with an inverse
    distribution function finite on (0, 1) the initial d' is then finite,
    and the [2K-1] components of the initial guess are finite as long as
    that d' is not 0. *)
Theorem initial_estimate_finite (nR_S1 nR_S2 : list R) (s : R)
    (fninv : fval -> fval) (K : nat) :
  length nR_S1 = (2 * K)%nat -> length nR_S2 = (2 * K)%nat ->
  (1 <= K)%nat ->
  Forall (fun n => 0 < n)%R nR_S1 -> Forall (fun n => 0 < n)%R nR_S2 ->
  s <> 0%R -> (1 + s)%R <> 0%R ->
  (forall q, (0 < q < 1)%R -> is_finite (fninv (Fin q))) ->
  exists ratingHR ratingFAR est,
    rating_rates nR_S1 nR_S2 (Z.of_nat K) = Ok (ratingHR, ratingFAR) /\
    Forall (fun q => 0 < q < 1)%R ratingHR /\
    Forall (fun q => 0 < q < 1)%R ratingFAR /\
    initial_estimate nR_S1 nR_S2 s fninv = Ok est /\
    length (guess est) = (2 * K - 1)%nat /\
    is_finite (init_d1 est) /\
    (init_d1 est <> Fin 0 -> Forall is_finite (guess est)).
Proof.
  intros H1 H2 HK P1 P2 Hs Hs1 Hinv.
  assert (N1 : py_sum nR_S1 <> 0%R).
  { apply Rgt_not_eq, py_sum_pos; [assumption |].
    intros E. rewrite E in H1. simpl in H1. lia. }
  assert (N2 : py_sum nR_S2 <> 0%R).
  { apply Rgt_not_eq, py_sum_pos; [assumption |].
    intros E. rewrite E in H2. simpl in H2. lia. }
  pose proof (@rating_rates_eval nR_S1 nR_S2 K N1 N2) as Hrates.
  pose proof (@cumulative_rates_interior nR_S2 K P2 H2) as Rhr.
  pose proof (@cumulative_rates_interior nR_S1 K P1 H1) as Rfar.
  set (hr := map _ _) in Hrates, Rhr. set (far := map _ _) in Hrates, Rfar.
  assert (Lhr : length hr = (2 * K - 1)%nat)
    by (unfold hr; now rewrite length_map, length_seq).
  assert (Lfar : length far = (2 * K - 1)%nat)
    by (unfold far; now rewrite length_map, length_seq).
  pose proof (@initial_estimate_eval nR_S1 nR_S2 s fninv K hr far
                H1 HK Hrates Lhr Lfar Hs Hs1) as Heval.
  cbv zeta in Heval.
  pose proof (@criteria_c1_finite fninv s hr far Hinv Rhr Rfar) as Fc1.
  assert (Lc1 : length (criteria_c1 fninv s hr far) = (2 * K - 1)%nat)
    by (unfold criteria_c1; rewrite length_map, length_combine; lia).
  assert (Fd : is_finite
                 (fsub (fmul (Fin (1 / s)) (fninv (Fin (nth (K - 1) hr 0%R))))
                       (fninv (Fin (nth (K - 1) far 0%R))))).
  { rewrite Forall_forall in Rhr, Rfar.
    destruct (Hinv (nth (K - 1) hr 0%R)) as [a Ha];
      [apply Rhr, nth_In; lia |].
    destruct (Hinv (nth (K - 1) far 0%R)) as [b Hb];
      [apply Rfar, nth_In; lia |].
    rewrite Ha, Hb. eexists. reflexivity. }
  exists hr, far. eexists.
  split; [exact Hrates |]. split; [exact Rhr |]. split; [exact Rfar |].
  split; [exact Heval |]. cbn [guess init_d1].
  split; [| split; [exact Fd |]].
  - cbn [app length]. rewrite !length_map, t2_indices_length by assumption.
    lia.
  - intros Hd0. destruct Fd as [d Hd]. rewrite Hd in *.
    assert (Hd' : d <> 0%R) by (intros E; apply Hd0; now rewrite E).
    rewrite Forall_forall in Fc1.
    destruct (Fc1 (nth (K - 1) (criteria_c1 fninv s hr far) NaN)) as [t Ht];
      [apply nth_In; lia |].
    rewrite Ht. rewrite fdiv_finite by exact Hd'.
    cbn [fmul]. constructor; [eexists; reflexivity |].
    apply Forall_forall. intros v Hv. rewrite map_map in Hv.
    apply in_map_iff in Hv. destruct Hv as [i [<- Hi]].
    apply t2_indices_In in Hi.
    destruct (Fc1 (nth (Z.to_nat i) (criteria_c1 fninv s hr far) NaN))
      as [c Hc]; [apply nth_In; lia |].
    rewrite Hc. eexists. reflexivity.
Qed.

Lemma uniform_ppf_interior (q : R) :
  (0 < q < 1)%R -> uniform_ppf (Fin q) = Fin q.
Proof.
  intros H. unfold uniform_ppf.
  now rewrite (@Rsgn_Gt q), (@Rsgn_Gt (1 - q)) by lra.
Qed.

(** The initial estimate behind [uniform_io]. *)
Lemma initial_estimate_uniform_example :
  initial_estimate [3; 3; 1; 1]%R [1; 1; 3; 3]%R 1 uniform_ppf
  = Ok {| init_d1 := Fin 0.5;
          init_t1c1 := Fin (-0.5);
          guess := [Fin 0.5; Fin (-0.25); Fin 0.25] |}.
Proof.
  assert (Hrates : rating_rates [3; 3; 1; 1]%R [1; 1; 3; 3]%R (Z.of_nat 2)
                   = Ok ([7 / 8; 6 / 8; 3 / 8]%R, [5 / 8; 2 / 8; 1 / 8]%R)).
  { rewrite (@rating_rates_eval [3; 3; 1; 1]%R [1; 1; 3; 3]%R 2)
      by (unfold py_sum; cbn [fold_left]; lra).
    cbn [seq map skipn Nat.sub Nat.mul Nat.add]. unfold py_sum.
    cbn [fold_left]. real_eq. }
  pose proof (@initial_estimate_eval [3; 3; 1; 1]%R [1; 1; 3; 3]%R 1
                uniform_ppf 2 _ _ eq_refl (le_S _ _ (le_n 1)) Hrates
                eq_refl eq_refl) as H.
  cbv zeta in H. rewrite H by lra. clear H.
  change (t2_indices (Z.of_nat 2) (Z.of_nat 2 - 1)) with [0; 2]%Z.
  unfold criteria_c1.
  cbn [combine map app fst snd].
  change (Z.to_nat 0) with 0%nat. change (Z.to_nat 2) with 2%nat.
  cbn [nth Nat.sub].
  rewrite !uniform_ppf_interior by lra.
  feval.
  replace (1 / 1 * (6 / 8) + - (2 / 8))%R with (1 / 2)%R by lra.
  real_eq.
Qed.

Lemma initial_estimate_finite_witness :
  exists est,
    initial_estimate [3; 3; 1; 1]%R [1; 1; 3; 3]%R 1 uniform_ppf = Ok est /\
    Forall is_finite (guess est).
Proof.
  destruct (@initial_estimate_finite [3; 3; 1; 1]%R [1; 1; 3; 3]%R 1
              uniform_ppf 2 eq_refl eq_refl (le_S _ _ (le_n 1)))
    as [hr [far [est [_ [_ [_ [He [_ [_ Hfin]]]]]]]]].
  - repeat constructor; lra.
  - repeat constructor; lra.
  - lra.
  - lra.
  - intros q Hq. rewrite uniform_ppf_interior by exact Hq. now exists q.
  - exists est. split; [exact He |]. apply Hfin.
    rewrite initial_estimate_uniform_example in He. inversion He.
    cbn [init_d1]. intros E. inversion E. lra.
Defined.

(** ** [fit_meta_d_MLE]: packaging *)

Lemma fdiv_by_zero (v : fval) :
  ~ is_finite (fdiv v (Fin 0)) /\
  (fdiv v (Fin 0) = NaN <-> v = Fin 0 \/ v = NaN).
Proof.
  destruct v as [a | | |]; cbn [fdiv].
  - rewrite (@Reqb_true 0 0) by reflexivity. unfold Rsgn.
    destruct (total_order_T a 0) as [[Hlt | Heq] | Hgt]; cbn [signed_inf].
    + split; [intros [r Hr]; discriminate |].
      split; [discriminate |]. intros [E | E]; inversion E. lra.
    + split; [intros [r Hr]; discriminate |].
      split; [intros _; left; now rewrite Heq | reflexivity].
    + split; [intros [r Hr]; discriminate |].
      split; [discriminate |]. intros [E | E]; inversion E. lra.
  - rewrite (@Rsgn_Eq 0) by reflexivity.
    split; [intros [r Hr]; discriminate |].
    split; [discriminate | intros [E | E]; discriminate].
  - rewrite (@Rsgn_Eq 0) by reflexivity.
    split; [intros [r Hr]; discriminate |].
    split; [discriminate | intros [E | E]; discriminate].
  - split; [intros [r Hr]; discriminate |].
    split; [intros _; now right | reflexivity].
Qed.

(** [package] with the three evaluations of the criterion, which are
    made on NumPy scalars, carried out. *)
Ltac unfold_package :=
  unfold package;
  cbn [relative_criterion scalar_div divides_plain_zero scalar_value bind].

Ltac unfold_package_in H :=
  unfold package in H;
  cbn [relative_criterion scalar_div divides_plain_zero scalar_value bind]
    in H.

Lemma package_ratio (nR_S1 nR_S2 : list R) (s : R)
    (fncdf : fval -> fval -> fval -> fval) (d1 t1c1 : fval)
    (results : OptimizeResult) (fit : FitResult) :
  package nR_S1 nR_S2 s fncdf d1 t1c1 results = Ok fit ->
  exists r meta_d1,
    pydiv 2 (1 + s * s) = Ok r /\
    py_index (x results) 0 = Ok meta_d1 /\
    da fit = fmul (fmul (np_sqrt (Fin r)) (Fin s)) d1 /\
    meta_da fit = fmul (fmul (np_sqrt (Fin r)) (Fin s)) meta_d1 /\
    M_diff fit = fsub (meta_da fit) (da fit) /\
    M_ratio fit = fdiv (meta_da fit) (da fit).
Proof.
  intros H. unfold_package_in H.
  apply bind_ok_inv in H. destruct H as [meta_d1 [Hm H]].
  apply bind_ok_inv in H. destruct H as [o1 [_ H]].
  apply bind_ok_inv in H. destruct H as [o2 [_ H]].
  apply bind_ok_inv in H. destruct H as [S2sd [_ H]].
  apply bind_ok_inv in H. destruct H as [est [_ H]].
  apply bind_ok_inv in H. destruct H as [r [Hr H]].
  inversion H. subst fit. cbn [da meta_da M_diff M_ratio].
  exists r, meta_d1. repeat split; assumption.
Qed.

Lemma fit_meta_d_MLE_inv (minimize : minimizer) (nR_S1 nR_S2 : list R)
    (s : R) (fncdf : fval -> fval -> fval -> fval) (fninv : fval -> fval)
    (fit : FitResult) :
  fit_meta_d_MLE minimize nR_S1 nR_S2 s fncdf fninv = Ok fit ->
  exists init results,
    initial_estimate nR_S1 nR_S2 s fninv = Ok init /\
    package nR_S1 nR_S2 s fncdf (init_d1 init) (init_t1c1 init) results
    = Ok fit.
Proof.
  unfold fit_meta_d_MLE. intros H.
  destruct (negb (length nR_S1 mod 2 =? 0)%nat); [discriminate |].
  destruct (negb (length nR_S1 =? length nR_S2)%nat); [discriminate |].
  apply bind_ok_inv in H. destruct H as [cs [_ H]].
  apply bind_ok_inv in H. destruct H as [init [Hinit H]].
  apply bind_ok_inv in H. destruct H as [bounds [_ H]].
  apply bind_ok_inv in H. destruct H as [linear_constraint [_ H]].
  apply bind_ok_inv in H. destruct H as [results [_ H]].
  now exists init, results.
Qed.


Lemma observed_rates_py_returns (counts : list R) (n : Z) :
  py_sum counts <> 0%R -> exists l, observed_rates_py counts n = Ok l.
Proof.
  intros H. unfold observed_rates_py. apply mapM_ok. intros i _.
  rewrite pydiv_ok by exact H. cbn [bind]. eexists. reflexivity.
Qed.

Lemma package_returns (nR_S1 nR_S2 : list R) (s : R)
    (fncdf : fval -> fval -> fval -> fval) (d1 t1c1 : fval)
    (results : OptimizeResult) (K : nat) :
  length nR_S1 = (2 * K)%nat -> (1 <= K)%nat ->
  length (x results) = (2 * K - 1)%nat -> s <> 0%R ->
  py_sum (py_slice_from nR_S1 (Z.of_nat K)) <> 0%R ->
  py_sum (py_slice_from nR_S2 (Z.of_nat K)) <> 0%R ->
  exists fit, package nR_S1 nR_S2 s fncdf d1 t1c1 results = Ok fit.
Proof.
  intros Hlen HK Hx Hs N1 N2. unfold_package.
  assert (Hdiv : (length nR_S1 / 2 = K)%nat).
  { rewrite Hlen, Nat.mul_comm. apply Nat.div_mul. discriminate. }
  rewrite Hdiv.
  rewrite (@py_index_nth _ (x results) 0%Z NaN) by lia. cbn [bind].
  destruct (@observed_rates_py_returns _ (Z.of_nat K) N1) as [o1 ->].
  cbn [bind].
  destruct (@observed_rates_py_returns _ (Z.of_nat K) N2) as [o2 ->].
  cbn [bind]. rewrite (pydiv_ok 1 Hs). cbn [bind].
  match goal with
  | |- exists fit, bind (mapM ?f ?l) _ = _ =>
      destruct (@mapM_ok _ _ f l) as [est ->]
  end.
  - intros i Hi. apply py_range_In in Hi.
    match goal with
    | |- context [py_index ?l (Z.of_nat K - 1 - (i + 1))] =>
        assert (Hl : length l = (2 * K - 2)%nat)
          by (rewrite length_map, py_slice_from_length by lia; lia);
        rewrite (@py_index_nth _ l (Z.of_nat K - 1 - (i + 1)) NaN) by lia;
        rewrite (@py_index_nth _ l (Z.of_nat K - 1 + i) NaN) by lia
    end.
    cbn [bind]. eexists. reflexivity.
  - cbn [bind]. rewrite pydiv_ok by nra. cbn [bind]. eexists. reflexivity.
Qed.

Lemma fit_meta_d_MLE_eval (minimize : minimizer) (nR_S1 nR_S2 : list R)
    (s : R) (fncdf : fval -> fval -> fval -> fval) (fninv : fval -> fval)
    (K : nat) (cs : ConstraintSystem) (init : InitialEstimate)
    (results : OptimizeResult) :
  length nR_S1 = (2 * K)%nat -> length nR_S2 = (2 * K)%nat ->
  (2 <= K)%nat ->
  constraint_system nR_S1 = Ok cs ->
  initial_estimate nR_S1 nR_S2 s fninv = Ok init ->
  minimize (fun p => fit_meta_d_logL p
                       {| nR_S1 := nR_S1; nR_S2 := nR_S2;
                          nRatings := Z.of_nat K;
                          d1 := Numpy (init_d1 init);
                          t1c1 := Numpy (init_t1c1 init); s := s;
                          constant_criterion := relative_criterion;
                          fncdf := fncdf; fninv := fninv |})
           (guess init) cs = Ok results ->
  fit_meta_d_MLE minimize nR_S1 nR_S2 s fncdf fninv
  = package nR_S1 nR_S2 s fncdf (init_d1 init) (init_t1c1 init) results.
Proof.
  intros H1 H2 HK Hcs Hinit Hmin. unfold fit_meta_d_MLE.
  assert (Hdiv : (length nR_S1 / 2 = K)%nat).
  { rewrite H1, Nat.mul_comm. apply Nat.div_mul. discriminate. }
  assert (Hmod : (length nR_S1 mod 2 =? 0)%nat = true).
  { apply Nat.eqb_eq. rewrite H1, Nat.mul_comm. apply Nat.Div0.mod_mul. }
  destruct (@constraints_accepted nR_S1 K cs H1 ltac:(lia) Hcs) as [Eb El].
  destruct (Nat.eqb_spec K 1) as [E1 | _]; [lia |].
  rewrite Hmod, H1, H2, Nat.eqb_refl. cbn [negb].
  rewrite <- H1, Hcs, Hinit, Hdiv. cbn [bind].
  rewrite Eb, El. cbn [bind].
  rewrite Hmin. reflexivity.
Qed.

Lemma fit_meta_d_logL_returns (parameters : list fval) (io : inputObj)
    (N : nat) :
  nRatings io = Z.of_nat N -> (1 <= N)%nat ->
  length parameters = (2 * N - 1)%nat ->
  length (nR_S1 io) = (2 * N)%nat -> length (nR_S2 io) = (2 * N)%nat ->
  s io <> 0%R -> criterion_evaluates io (nth 0 parameters NaN) ->
  exists v, fit_meta_d_logL parameters io = Ok v.
Proof.
  intros HN HN1 Hlen H1 H2 Hs Hc.
  destruct (@log_likelihood_returns parameters io N HN HN1 Hlen H1 H2 Hs Hc)
    as [l Hl].
  unfold fit_meta_d_logL. rewrite Hl. cbn [bind]. eexists. reflexivity.
Qed.

Lemma fit_meta_d_MLE_minimize_at (pick : list fval -> list fval)
    (nR_S1 nR_S2 : list R) (s : R)
    (fncdf : fval -> fval -> fval -> fval) (fninv : fval -> fval)
    (K : nat) (init : InitialEstimate) (v : fval) :
  length nR_S1 = (2 * K)%nat -> length nR_S2 = (2 * K)%nat ->
  (2 <= K)%nat ->
  initial_estimate nR_S1 nR_S2 s fninv = Ok init ->
  fit_meta_d_logL (pick (guess init))
                  {| nR_S1 := nR_S1; nR_S2 := nR_S2; nRatings := Z.of_nat K;
                     d1 := Numpy (init_d1 init);
                     t1c1 := Numpy (init_t1c1 init); s := s;
                     constant_criterion := relative_criterion;
                     fncdf := fncdf; fninv := fninv |} = Ok v ->
  fit_meta_d_MLE (minimize_at pick) nR_S1 nR_S2 s fncdf fninv
  = package nR_S1 nR_S2 s fncdf (init_d1 init) (init_t1c1 init)
            {| x := pick (guess init); fun_ := v |}.
Proof.
  intros H1 H2 HK Hinit Hv.
  assert (Hdiv : (length nR_S1 / 2 = K)%nat).
  { rewrite H1, Nat.mul_comm. apply Nat.div_mul. discriminate. }
  pose proof (@constraint_system_eval nR_S1) as Hcs. cbv zeta in Hcs.
  rewrite Hdiv in Hcs. specialize (Hcs ltac:(lia)).
  apply (@fit_meta_d_MLE_eval _ _ _ _ _ _ K _ _ _ H1 H2 HK Hcs Hinit).
  unfold minimize_at. rewrite Hv. reflexivity.
Qed.

(** Equal count vectors under the uniform family: the initial d' is 0 and
    the criteria of the guess are NaN. *)
Lemma initial_estimate_no_sensitivity :
  initial_estimate [1; 1; 1; 1]%R [1; 1; 1; 1]%R 1 uniform_ppf
  = Ok {| init_d1 := Fin 0;
          init_t1c1 := Fin (-0.5);
          guess := [Fin 0; NaN; NaN] |}.
Proof.
  assert (Hrates : rating_rates [1; 1; 1; 1]%R [1; 1; 1; 1]%R (Z.of_nat 2)
                   = Ok ([3 / 4; 2 / 4; 1 / 4]%R, [3 / 4; 2 / 4; 1 / 4]%R)).
  { rewrite (@rating_rates_eval [1; 1; 1; 1]%R [1; 1; 1; 1]%R 2)
      by (unfold py_sum; cbn [fold_left]; lra).
    cbn [seq map skipn Nat.sub Nat.mul Nat.add]. unfold py_sum.
    cbn [fold_left]. real_eq. }
  pose proof (@initial_estimate_eval [1; 1; 1; 1]%R [1; 1; 1; 1]%R 1
                uniform_ppf 2 _ _ eq_refl (le_S _ _ (le_n 1)) Hrates
                eq_refl eq_refl) as H.
  cbv zeta in H. rewrite H by lra. clear H.
  change (t2_indices (Z.of_nat 2) (Z.of_nat 2 - 1)) with [0; 2]%Z.
  unfold criteria_c1.
  cbn [combine map app fst snd].
  change (Z.to_nat 0) with 0%nat. change (Z.to_nat 2) with 2%nat.
  cbn [nth Nat.sub].
  rewrite !uniform_ppf_interior by lra.
  feval. real_eq.
Qed.


(** ** The standard normal distribution: bounds on [Phi] *)

Unset Implicit Arguments.

Section StandardNormalBounds.

Local Open Scope R_scope.

Lemma gauss_integral_chasles (a b c : R) :
  gauss_integral a b + gauss_integral b c = gauss_integral a c.
Proof. apply RiemannInt_P26. Qed.

Lemma gauss_integral_refl (a : R) : gauss_integral a a = 0.
Proof. apply RiemannInt_P9. Qed.

Lemma gauss_bounds (t : R) : 0 < gauss t <= 1.
Proof.
  unfold gauss. split; [apply exp_pos |].
  rewrite <- exp_0. 
  destruct (Req_dec (t * t / 2) 0) as [E | E].
  - rewrite E, Ropp_0. lra.
  - left. apply exp_increasing. nra.
Qed.

Lemma gauss_integral_bounds (a b : R) :
  a <= b -> 0 <= gauss_integral a b <= b - a.
Proof.
  intros H.
  destruct (@RiemannInt_const_bound gauss a b 0 1 (gauss_integrable a b) H)
    as [L U].
  - intros x _. pose proof (gauss_bounds x). lra.
  - unfold gauss_integral. lra.
Qed.

Lemma exp_neg_series (u : R) :
  Un_cv (fun N => sum_f_R0 (tg_alt (fun n => u ^ n / INR (fact n))) N)
        (exp (- u)).
Proof.
  unfold exp. destruct (exist_exp (- u)) as [l Hl]. simpl.
  unfold exp_in, infinite_sum in Hl. intros eps Heps.
  destruct (Hl eps Heps) as [N HN]. exists N. intros n Hn.
  replace (sum_f_R0 (tg_alt (fun n0 => u ^ n0 / INR (fact n0))) n)
    with (sum_f_R0 (fun i => / INR (fact i) * (- u) ^ i) n).
  - now apply HN.
  - apply sum_eq. intros i _. unfold tg_alt.
    replace (- u) with (-1 * u) by ring. rewrite Rpow_mult_distr.
    unfold Rdiv. ring.
Qed.

Lemma pow_fact_decreasing (u : R) :
  0 <= u <= 1 -> Un_decreasing (fun n => u ^ n / INR (fact n)).
Proof.
  intros [H0 H1] n.
  assert (Hf : 0 < INR (fact n)) by (apply INR_fact_lt_0).
  assert (Hp : 0 <= u ^ n) by (now apply pow_le).
  rewrite fact_simpl, mult_INR, S_INR. simpl pow.
  assert (Hn : 0 <= INR n) by apply pos_INR.
  unfold Rdiv. rewrite Rinv_mult.
  assert (Hi : 0 < / INR (fact n)) by now apply Rinv_0_lt_compat.
  assert (Hq : 0 <= u ^ n * / INR (fact n)) by nra.
  assert (Hr : 0 < / (INR n + 1) <= 1).
  { split; [apply Rinv_0_lt_compat; lra |].
    rewrite <- Rinv_1 at 2. apply Rinv_le_contravar; lra. }
  replace (u * u ^ n * (/ (INR n + 1) * / INR (fact n)))
    with ((u ^ n * / INR (fact n)) * (u * / (INR n + 1))) by ring.
  assert (Hs : 0 <= u * / (INR n + 1) <= 1) by nra.
  nra.
Qed.

Lemma exp_neg_bounds (u : R) :
  0 <= u <= 1 ->
  1 - u + u ^ 2 / 2 - u ^ 3 / 6 <= exp (- u) <= 1 - u + u ^ 2 / 2.
Proof.
  intros Hu.
  pose proof (@alternated_series_ineq (fun n => u ^ n / INR (fact n))
                (exp (- u)) 1 (pow_fact_decreasing u Hu)
                (cv_speed_pow_fact u) (exp_neg_series u)) as [L U].
  simpl in L, U. unfold tg_alt in L, U. simpl in L, U.
  lra.
Qed.

Lemma RiemannInt_antiderivative (f g : R -> R) (a b : R)
    (pr : Riemann_integrable f a b) :
  a <= b -> continuity f -> (forall x, derivable_pt_lim g x (f x)) ->
  RiemannInt pr = g b - g a.
Proof.
  intros Hab Hc Hg.
  assert (C0 : forall x, a <= x <= b -> continuity_pt f x)
    by (intros; apply Hc).
  rewrite (RiemannInt_P20 Hab (FTC_P1 Hab C0) pr).
  pose proof (RiemannInt_P29 Hab C0) as H1.
  assert (H2 : antiderivative f g a b).
  { split; [| exact Hab]. intros x _.
    exists (exist _ (f x) (Hg x)). symmetry. apply derive_pt_eq_0. apply Hg. }
  destruct (antiderivative_Ucte f _ _ a b H1 H2) as [c Hc'].
  rewrite (Hc' b), (Hc' a) by lra. ring.
Qed.

Lemma taylor_upper_derive (x : R) :
  derivable_pt_lim taylor_upper_int x (taylor_upper x).
Proof.
  unfold taylor_upper.
  replace (1 - / 2 * x ^ 2 + / 8 * x ^ 4)
    with (1 - / 6 * (INR 3 * x ^ pred 3) + / 40 * (INR 5 * x ^ pred 5))
    by (simpl; field).
  change taylor_upper_int
    with (id - mult_real_fct (/ 6) (fun y => y ^ 3)
          + mult_real_fct (/ 40) (fun y => y ^ 5))%F.
  apply derivable_pt_lim_plus; [apply derivable_pt_lim_minus |].
  - apply derivable_pt_lim_id.
  - apply derivable_pt_lim_scal, derivable_pt_lim_pow.
  - apply derivable_pt_lim_scal, derivable_pt_lim_pow.
Qed.

Lemma taylor_lower_derive (x : R) :
  derivable_pt_lim taylor_lower_int x (taylor_lower x).
Proof.
  unfold taylor_lower.
  replace (1 - / 2 * x ^ 2 + / 8 * x ^ 4 - / 48 * x ^ 6)
    with (1 - / 6 * (INR 3 * x ^ pred 3) + / 40 * (INR 5 * x ^ pred 5)
          - / 336 * (INR 7 * x ^ pred 7))
    by (simpl; field).
  change taylor_lower_int
    with (id - mult_real_fct (/ 6) (fun y => y ^ 3)
          + mult_real_fct (/ 40) (fun y => y ^ 5)
          - mult_real_fct (/ 336) (fun y => y ^ 7))%F.
  apply derivable_pt_lim_minus;
    [apply derivable_pt_lim_plus; [apply derivable_pt_lim_minus |] |].
  - apply derivable_pt_lim_id.
  - apply derivable_pt_lim_scal, derivable_pt_lim_pow.
  - apply derivable_pt_lim_scal, derivable_pt_lim_pow.
  - apply derivable_pt_lim_scal, derivable_pt_lim_pow.
Qed.

Lemma taylor_upper_continuity : continuity taylor_upper.
Proof. unfold taylor_upper. reg. Qed.

Lemma taylor_lower_continuity : continuity taylor_lower.
Proof. unfold taylor_lower. reg. Qed.

Lemma gauss_taylor (t : R) :
  0 <= t <= 1 -> taylor_lower t <= gauss t <= taylor_upper t.
Proof.
  intros Ht. unfold gauss, taylor_lower, taylor_upper.
  assert (Hu : 0 <= t * t / 2 <= 1) by nra.
  pose proof (exp_neg_bounds (t * t / 2) Hu) as [L U].
  split.
  - eapply Rle_trans; [| exact L]. right. field.
  - eapply Rle_trans; [exact U |]. right. field.
Qed.

Lemma gauss_integral_taylor (x : R) :
  0 <= x <= 1 ->
  taylor_lower_int x <= gauss_integral 0 x <= taylor_upper_int x.
Proof.
  intros Hx.
  assert (IL : Riemann_integrable taylor_lower 0 x).
  { apply continuity_implies_RiemannInt; [lra |].
    intros; apply taylor_lower_continuity. }
  assert (IU : Riemann_integrable taylor_upper 0 x).
  { apply continuity_implies_RiemannInt; [lra |].
    intros; apply taylor_upper_continuity. }
  assert (EL : RiemannInt IL = taylor_lower_int x).
  { rewrite (@RiemannInt_antiderivative taylor_lower taylor_lower_int 0 x IL);
      [| lra | apply taylor_lower_continuity | apply taylor_lower_derive].
    unfold taylor_lower_int. simpl. ring. }
  assert (EU : RiemannInt IU = taylor_upper_int x).
  { rewrite (@RiemannInt_antiderivative taylor_upper taylor_upper_int 0 x IU);
      [| lra | apply taylor_upper_continuity | apply taylor_upper_derive].
    unfold taylor_upper_int. simpl. ring. }
  unfold gauss_integral. split.
  - rewrite <- EL. apply RiemannInt_P19; [lra |].
    intros t Ht. apply gauss_taylor. lra.
  - rewrite <- EU. apply RiemannInt_P19; [lra |].
    intros t Ht. apply gauss_taylor. lra.
Qed.

Lemma PI_upper : PI <= 68 / 21.
Proof.
  pose proof (PI_2_3_7_ineq 0) as [_ U].
  simpl in U. unfold tg_alt, PI_2_3_7_tg, Ratan_seq in U. simpl in U.
  lra.
Qed.

Lemma PI_lower : 3 < PI.
Proof. pose proof PI2_3_2. lra. Qed.

Lemma sqrt_2PI_bounds : 2.449 < sqrt_2PI < 2.545.
Proof.
  pose proof PI_upper. pose proof PI_lower.
  assert (Hsq : sqrt_2PI * sqrt_2PI = 2 * PI) by (apply sqrt_sqrt; lra).
  assert (Hpos : 0 <= sqrt_2PI) by apply sqrt_pos.
  split.
  - destruct (Rlt_le_dec 2.449 sqrt_2PI) as [Hlt | Hle]; [exact Hlt |].
    assert (sqrt_2PI * sqrt_2PI <= 2.449 * 2.449)
      by (apply Rmult_le_compat; lra).
    lra.
  - destruct (Rlt_le_dec sqrt_2PI 2.545) as [Hlt | Hle]; [exact Hlt |].
    assert (2.545 * 2.545 <= sqrt_2PI * sqrt_2PI)
      by (apply Rmult_le_compat; lra).
    lra.
Qed.

Lemma Phi_nonneg_arg (x : R) :
  0 <= x -> Phi x = 1 / 2 + gauss_integral 0 x / sqrt_2PI.
Proof. intros H. unfold Phi. destruct (Rle_dec 0 x); [reflexivity | lra]. Qed.

Lemma Phi_neg_arg (x : R) :
  x < 0 -> Phi x = 1 / 2 - gauss_integral 0 (- x) / sqrt_2PI.
Proof. intros H. unfold Phi. destruct (Rle_dec 0 x); [lra | reflexivity]. Qed.

Lemma gauss_integral_monotone (x y : R) :
  0 <= x <= y -> gauss_integral 0 x <= gauss_integral 0 y.
Proof.
  intros H. rewrite <- (gauss_integral_chasles 0 x y).
  pose proof (gauss_integral_bounds x y). lra.
Qed.

Lemma div_sqrt_2PI_monotone (a b : R) :
  a <= b -> a / sqrt_2PI <= b / sqrt_2PI.
Proof.
  intros H. pose proof sqrt_2PI_bounds. unfold Rdiv.
  apply Rmult_le_compat_r; [| exact H].
  left. apply Rinv_0_lt_compat. lra.
Qed.

Lemma Phi_monotone (x y : R) : x <= y -> Phi x <= Phi y.
Proof.
  intros H.
  destruct (Rle_dec 0 x) as [Hx | Hx]; destruct (Rle_dec 0 y) as [Hy | Hy].
  - rewrite !Phi_nonneg_arg by assumption.
    pose proof (div_sqrt_2PI_monotone _ _
                  (gauss_integral_monotone x y (conj Hx H))). lra.
  - lra.
  - rewrite Phi_neg_arg, Phi_nonneg_arg by lra.
    pose proof (gauss_integral_bounds 0 (- x)).
    pose proof (gauss_integral_bounds 0 y).
    pose proof (div_sqrt_2PI_monotone 0 (gauss_integral 0 (- x))).
    pose proof (div_sqrt_2PI_monotone 0 (gauss_integral 0 y)).
    unfold Rdiv in *. rewrite Rmult_0_l in *. lra.
  - rewrite !Phi_neg_arg by lra.
    assert (Hm : 0 <= - y <= - x) by lra.
    pose proof (div_sqrt_2PI_monotone _ _
                  (gauss_integral_monotone (- y) (- x) Hm)). lra.
Qed.

Lemma ratio_below (a c p : R) : 0 < c -> a < p * c -> a / c < p.
Proof.
  intros Hc H. apply (Rmult_lt_reg_r c); [exact Hc |].
  unfold Rdiv. rewrite Rmult_assoc, Rinv_l by lra. lra.
Qed.

Lemma ratio_above (a c p : R) : 0 < c -> p * c < a -> p < a / c.
Proof.
  intros Hc H. apply (Rmult_lt_reg_r c); [exact Hc |].
  unfold Rdiv. rewrite Rmult_assoc, Rinv_l by lra. lra.
Qed.

Lemma Phi_brackets :
  Phi 0.81 < 104 / 130 < Phi 0.86 /\ Phi (-0.69) < 33 / 130 < Phi (-0.64).
Proof.
  pose proof sqrt_2PI_bounds as Hc.
  pose proof (gauss_integral_taylor 0.81) as B1.
  pose proof (gauss_integral_taylor 0.86) as B2.
  pose proof (gauss_integral_taylor 0.69) as B3.
  pose proof (gauss_integral_taylor 0.64) as B4.
  unfold taylor_lower_int, taylor_upper_int in *. simpl pow in *.
  rewrite (Phi_nonneg_arg 0.81), (Phi_nonneg_arg 0.86) by lra.
  rewrite (Phi_neg_arg (-0.69)), (Phi_neg_arg (-0.64)) by lra.
  replace (- -0.69) with 0.69 by lra. replace (- -0.64) with 0.64 by lra.
  assert (G1 : gauss_integral 0 0.81 / sqrt_2PI < 0.3)
    by (apply ratio_below; lra).
  assert (G2 : 0.3 < gauss_integral 0 0.86 / sqrt_2PI)
    by (apply ratio_above; lra).
  assert (G3 : 32 / 130 < gauss_integral 0 0.69 / sqrt_2PI)
    by (apply ratio_above; lra).
  assert (G4 : gauss_integral 0 0.64 / sqrt_2PI < 32 / 130)
    by (apply ratio_below; lra).
  lra.
Qed.

Lemma Phi_quantile_brackets (q1 q2 : R) :
  Phi q1 = 104 / 130 -> Phi q2 = 33 / 130 ->
  0.81 < q1 < 0.86 /\ -0.69 < q2 < -0.64.
Proof.
  intros H1 H2. destruct Phi_brackets as [[A1 A2] [A3 A4]].
  repeat split.
  - destruct (Rlt_le_dec 0.81 q1) as [H | H]; [exact H |].
    pose proof (Phi_monotone _ _ H). lra.
  - destruct (Rlt_le_dec q1 0.86) as [H | H]; [exact H |].
    pose proof (Phi_monotone _ _ H). lra.
  - destruct (Rlt_le_dec (-0.69) q2) as [H | H]; [exact H |].
    pose proof (Phi_monotone _ _ H). lra.
  - destruct (Rlt_le_dec q2 (-0.64)) as [H | H]; [exact H |].
    pose proof (Phi_monotone _ _ H). lra.
Qed.

Lemma gauss_integral_lipschitz (x y : R) :
  Rabs (gauss_integral 0 y - gauss_integral 0 x) <= Rabs (y - x).
Proof.
  destruct (Rle_dec x y) as [H | H].
  - rewrite <- (gauss_integral_chasles 0 x y).
    pose proof (gauss_integral_bounds x y H).
    rewrite !Rabs_pos_eq by lra. lra.
  - rewrite <- (gauss_integral_chasles 0 y x).
    pose proof (gauss_integral_bounds y x ltac:(lra)).
    rewrite (Rabs_left1 (y - x)) by lra.
    rewrite Rabs_left1 by lra. lra.
Qed.

Lemma gauss_integral_continuity : continuity (gauss_integral 0).
Proof.
  intros x eps Heps. exists eps. split; [exact Heps |].
  intros y [_ Hy]. simpl in *. unfold Rdist in *.
  eapply Rle_lt_trans; [apply gauss_integral_lipschitz | exact Hy].
Qed.

Lemma gauss_integral_value (x y l : R) :
  x < y -> gauss_integral 0 x < l < gauss_integral 0 y ->
  exists z, x <= z <= y /\ gauss_integral 0 z = l.
Proof.
  intros Hxy [Hx Hy].
  destruct (IVT (fun z => gauss_integral 0 z - l) x y) as [z [Hz Ez]].
  - apply (continuity_minus (gauss_integral 0) (fun _ => l)).
    + apply gauss_integral_continuity.
    + apply continuity_const. intros a b. reflexivity.
  - exact Hxy.
  - lra.
  - lra.
  - exists z. split; [exact Hz | lra].
Qed.

Lemma Phi_quantiles_exist :
  (exists q, Phi q = 104 / 130) /\ (exists q, Phi q = 33 / 130).
Proof.
  pose proof sqrt_2PI_bounds as Hc.
  pose proof (gauss_integral_taylor 0.81) as B1.
  pose proof (gauss_integral_taylor 0.86) as B2.
  pose proof (gauss_integral_taylor 0.69) as B3.
  pose proof (gauss_integral_taylor 0.64) as B4.
  unfold taylor_lower_int, taylor_upper_int in *. simpl pow in *.
  split.
  - destruct (gauss_integral_value 0.81 0.86 (0.3 * sqrt_2PI))
      as [z [Hz Ez]]; [lra | lra |].
    exists z. rewrite Phi_nonneg_arg by lra. rewrite Ez.
    unfold Rdiv. rewrite Rmult_assoc, Rinv_r by lra. lra.
  - destruct (gauss_integral_value 0.64 0.69 (32 / 130 * sqrt_2PI))
      as [z [Hz Ez]]; [lra | lra |].
    exists (- z). rewrite Phi_neg_arg by lra.
    rewrite Ropp_involutive, Ez.
    unfold Rdiv. rewrite (Rmult_assoc _ sqrt_2PI), Rinv_r by lra. lra.
Qed.

End StandardNormalBounds.

(** ** [fit_meta_d_MLE] on the count vectors of its docstring *)

Lemma norm_ppf_spec (p : R) :
  (0 < p < 1)%R -> (exists z, Phi z = p) ->
  exists q, norm_ppf (Fin p) = Fin q /\ Phi q = p.
Proof.
  intros Hp Hex. unfold norm_ppf.
  rewrite (@Rsgn_Gt p), (@Rsgn_Gt (1 - p)%R) by lra.
  eexists. split; [reflexivity |].
  apply (epsilon_spec (inhabits 0%R) (fun z => Phi z = p)). exact Hex.
Qed.

Lemma docstring_rates :
  exists ratingHR ratingFAR,
    rating_rates docstring_nR_S1 docstring_nR_S2 (Z.of_nat 4)
    = Ok (ratingHR, ratingFAR) /\
    length ratingHR = 7%nat /\ length ratingFAR = 7%nat /\
    nth 3 ratingHR 0%R = (104 / 130)%R /\
    nth 3 ratingFAR 0%R = (33 / 130)%R.
Proof.
  do 2 eexists. split.
  - apply rating_rates_eval;
      unfold docstring_nR_S1, docstring_nR_S2, py_sum; cbn [fold_left]; lra.
  - split; [reflexivity |]. split; [reflexivity |].
    cbn [seq map nth Nat.sub Nat.mul Nat.add].
    unfold docstring_nR_S1, docstring_nR_S2, py_sum. cbn [skipn fold_left].
    split; apply f_equal2; try lra; apply f_equal; lra.
Qed.

Lemma docstring_initial_estimate (fninv : fval -> fval) :
  exists init,
    initial_estimate docstring_nR_S1 docstring_nR_S2 1 fninv = Ok init /\
    init_d1 init
    = fsub (fmul (Fin (1 / 1)) (fninv (Fin (104 / 130))))
           (fninv (Fin (33 / 130))) /\
    length (guess init) = 7%nat.
Proof.
  destruct docstring_rates as [hr [far [Hrates [Lhr [Lfar [Ehr Efar]]]]]].
  pose proof (@initial_estimate_eval docstring_nR_S1 docstring_nR_S2 1 fninv
                4 hr far eq_refl (le_S _ _ (le_S _ _ (le_S _ _ (le_n 1))))
                Hrates Lhr Lfar) as H.
  cbv zeta in H. eexists. split; [apply H; lra |].
  cbn [init_d1 guess Nat.sub]. rewrite Ehr, Efar.
  split; [reflexivity |].
  cbn [app length]. rewrite !length_map.
  now rewrite (@t2_indices_length 4) by lia.
Qed.

Lemma package_meta_d1 (nR_S1 nR_S2 : list R) (s : R)
    (fncdf : fval -> fval -> fval -> fval) (d1 t1c1 : fval)
    (results : OptimizeResult) (fit : FitResult) :
  package nR_S1 nR_S2 s fncdf d1 t1c1 results = Ok fit ->
  py_index (x results) 0 = Ok (S1_meta_d1 (S1units_ fit)).
Proof.
  intros H. unfold_package_in H.
  apply bind_ok_inv in H. destruct H as [meta_d1 [Hm H]].
  apply bind_ok_inv in H. destruct H as [o1 [_ H]].
  apply bind_ok_inv in H. destruct H as [o2 [_ H]].
  apply bind_ok_inv in H. destruct H as [S2sd [_ H]].
  apply bind_ok_inv in H. destruct H as [est [_ H]].
  apply bind_ok_inv in H. destruct H as [r [Hr H]].
  inversion H. subst fit. cbn [S1units_ S1_meta_d1]. exact Hm.
Qed.

(** The packaged values for [s = 1]: [da] is the initial d' and [meta_da]
    the fitted meta-d'. *)
Lemma package_unit_s (nR_S1 nR_S2 : list R)
    (fncdf : fval -> fval -> fval -> fval) (t1c1 : fval) (d m : R)
    (results : OptimizeResult) (fit : FitResult) :
  package nR_S1 nR_S2 1 fncdf (Fin d) t1c1 results = Ok fit ->
  da fit = Fin d /\
  (S1_meta_d1 (S1units_ fit) = Fin m -> meta_da fit = Fin m).
Proof.
  intros H. pose proof (package_meta_d1 _ _ _ _ _ _ _ _ H) as Hm.
  destruct (package_ratio _ _ _ _ _ _ _ H)
    as [r [meta_d1 [Hr [Hm' [Hda [Hmda _]]]]]].
  rewrite Hm in Hm'. inversion Hm'. subst meta_d1. clear Hm'.
  apply pydiv_inv in Hr. destruct Hr as [_ ->].
  assert (Er : (2 / (1 + 1 * 1) = 1)%R) by lra.
  rewrite Er in Hda, Hmda.
  assert (Es : np_sqrt (Fin 1) = Fin 1).
  { cbn [np_sqrt]. rewrite (@Rsgn_Gt 1) by lra. now rewrite sqrt_1. }
  rewrite Es in Hda, Hmda. cbn [fmul] in Hda.
  split.
  - rewrite Hda. f_equal. lra.
  - intros E. rewrite Hmda, E. cbn [fmul]. f_equal. lra.
Qed.

(** The type 1 sensitivity of the docstring data: between 1.45 and 1.55,
    whatever the optimizer does. *)
Lemma docstring_da (minimize : minimizer)
    (fncdf : fval -> fval -> fval -> fval) (fit : FitResult) :
  fit_meta_d_MLE minimize docstring_nR_S1 docstring_nR_S2 1 fncdf norm_ppf
  = Ok fit ->
  (exists a, da fit = Fin a /\ (1.45 < a < 1.55)%R) /\
  (forall m, S1_meta_d1 (S1units_ fit) = Fin m -> meta_da fit = Fin m).
Proof.
  intros H. apply fit_meta_d_MLE_inv in H.
  destruct H as [init [results [Hinit Hpack]]].
  destruct (docstring_initial_estimate norm_ppf) as [init' [Hinit' [Hd _]]].
  rewrite Hinit in Hinit'. inversion Hinit'. subst init'. clear Hinit'.
  destruct Phi_quantiles_exist as [Hq1 Hq2].
  destruct (norm_ppf_spec (104 / 130) ltac:(lra) Hq1) as [q1 [E1 P1]].
  destruct (norm_ppf_spec (33 / 130) ltac:(lra) Hq2) as [q2 [E2 P2]].
  rewrite E1, E2 in Hd. cbn [fmul fsub fneg fadd] in Hd.
  rewrite Hd in Hpack.
  destruct (Phi_quantile_brackets q1 q2 P1 P2) as [B1 B2].
  split.
  - destruct (package_unit_s _ _ _ _ _ 0%R _ _ Hpack) as [Hda _].
    eexists. split; [exact Hda | lra].
  - intros m Hm.
    destruct (package_unit_s _ _ _ _ _ m _ _ Hpack) as [_ Hmda].
    now apply Hmda.
Qed.

(** The function returns on the docstring data when the optimizer stays at
    the initial guess. *)
Lemma docstring_run_returns :
  exists fit,
    fit_meta_d_MLE (minimize_at (fun g => g)) docstring_nR_S1 docstring_nR_S2
                   1 norm_cdf norm_ppf = Ok fit.
Proof.
  destruct (docstring_initial_estimate norm_ppf) as [init [Hinit [_ Hlen]]].
  destruct (@fit_meta_d_logL_returns (guess init)
              {| nR_S1 := docstring_nR_S1; nR_S2 := docstring_nR_S2;
                 nRatings := Z.of_nat 4;
                 d1 := Numpy (init_d1 init); t1c1 := Numpy (init_t1c1 init);
                 s := 1;
                 constant_criterion := relative_criterion;
                 fncdf := norm_cdf; fninv := norm_ppf |} 4)
    as [v Hv]; try reflexivity;
    [lia | exact Hlen | cbn [s]; lra | eexists; reflexivity |].
  rewrite (@fit_meta_d_MLE_minimize_at (fun g => g)
             docstring_nR_S1 docstring_nR_S2 1 norm_cdf norm_ppf 4 init v
             eq_refl eq_refl ltac:(lia) Hinit Hv).
  apply (@package_returns docstring_nR_S1 docstring_nR_S2 1 norm_cdf
           (init_d1 init) (init_t1c1 init)
           {| x := guess init; fun_ := v |} 4);
    try reflexivity; try exact Hlen; try lia; try lra;
    rewrite py_slice_from_skipn;
    unfold docstring_nR_S1, docstring_nR_S2, py_sum;
    cbn [skipn fold_left]; lra.
Qed.

(** C1, as far as the code under [src/] decides it.  On the count vectors
    of the docstring with [s = 1] and the normal distribution, every result
    of [fit_meta_d_MLE] has [da = Phi^-1(0.8) - Phi^-1(33/130)], which is
    positive and within 0.05 of 1.50, and a [meta_da] equal to the fitted
    meta-d'. *)
Theorem fit_meta_d_MLE_docstring_da (minimize : minimizer)
    (fncdf : fval -> fval -> fval -> fval) (fit : FitResult) :
  fit_meta_d_MLE minimize docstring_nR_S1 docstring_nR_S2 1 fncdf norm_ppf
  = Ok fit ->
  (exists a,
      da fit = Fin a /\ (0 < a)%R /\ (1.50 - 0.05 < a < 1.50 + 0.05)%R) /\
  (forall m, S1_meta_d1 (S1units_ fit) = Fin m -> meta_da fit = Fin m).
Proof.
  intros H. destruct (docstring_da minimize fncdf fit H) as [[a [Ha Hb]] Hm].
  split; [| exact Hm]. exists a. split; [exact Ha |]. lra.
Qed.

Lemma fit_meta_d_MLE_docstring_da_witness :
  exists fit a,
    fit_meta_d_MLE (minimize_at (fun g => g)) docstring_nR_S1 docstring_nR_S2
                   1 norm_cdf norm_ppf = Ok fit /\
    da fit = Fin a /\ (1.45 < a < 1.55)%R.
Proof.
  destruct docstring_run_returns as [fit Hfit].
  destruct (fit_meta_d_MLE_docstring_da _ _ _ Hfit) as [[a [Ha [_ Hb]]] _].
  exists fit, a. split; [exact Hfit |]. split; [exact Ha | lra].
Defined.

(** C1 as the specification words it does not hold: [da] is not within
    0.05 of 1.69. *)
Lemma fit_meta_d_MLE_docstring_da_not_169 :
  exists fit a,
    fit_meta_d_MLE (minimize_at (fun g => g)) docstring_nR_S1 docstring_nR_S2
                   1 norm_cdf norm_ppf = Ok fit /\
    da fit = Fin a /\ ~ (1.69 - 0.05 <= a <= 1.69 + 0.05)%R.
Proof.
  destruct docstring_run_returns as [fit Hfit].
  destruct (docstring_da _ _ _ Hfit) as [[a [Ha Hb]] _].
  exists fit, a. split; [exact Hfit |]. split; [exact Ha | lra].
Qed.

(* ================================================================= *)
(** * Further properties *)

(** ** Further properties of [dprime] *)

Lemma fadd_not_finite_l (a b : fval) : ~ is_finite a -> ~ is_finite (fadd a b).
Proof.
  intros Ha [r Hr]. apply Ha.
  destruct a as [x | | |]; [now exists x | | |];
    destruct b; discriminate.
Qed.

Lemma fadd_not_finite_r (a b : fval) : ~ is_finite b -> ~ is_finite (fadd a b).
Proof.
  intros Hb [r Hr]. apply Hb.
  destruct b as [x | | |]; [now exists x | | |];
    destruct a; discriminate.
Qed.

Lemma fneg_not_finite (a : fval) : ~ is_finite a -> ~ is_finite (fneg a).
Proof.
  intros Ha [r Hr]. apply Ha.
  destruct a as [x | | |]; [now exists x | | |]; discriminate.
Qed.

Lemma fneg_fsub (a b : fval) : fneg (fsub a b) = fsub b a.
Proof.
  unfold fsub.
  destruct a as [x | | |], b as [y | | |]; cbn [fneg fadd]; try reflexivity.
  f_equal. lra.
Qed.

Lemma norm_ppf_outside (p : R) :
  (p <= 0 \/ 1 <= p)%R -> ~ is_finite (norm_ppf (Fin p)).
Proof.
  intros Hp [r Hr]. unfold norm_ppf in Hr.
  destruct Hp as [Hp | Hp].
  - destruct (Rle_lt_or_eq_dec _ _ Hp) as [Hlt | Heq].
    + rewrite (@Rsgn_Lt p) in Hr by lra. discriminate.
    + rewrite (@Rsgn_Eq p) in Hr by lra.
      destruct (Rsgn (1 - p)); discriminate.
  - rewrite (@Rsgn_Gt p) in Hr by lra.
    destruct (Rle_lt_or_eq_dec _ _ Hp) as [Hlt | Heq].
    + rewrite (@Rsgn_Lt (1 - p)) in Hr by lra. discriminate.
    + rewrite (@Rsgn_Eq (1 - p)) in Hr by lra. discriminate.
Qed.

Lemma dprime_unfold (hits misses fas crs : R) :
  (hits + misses <> 0)%R -> (fas + crs <> 0)%R ->
  dprime hits misses fas crs
  = Ok (fsub (norm_ppf (Fin (adjusted_rate hits misses)))
             (norm_ppf (Fin (adjusted_rate fas crs)))).
Proof.
  intros Hh Hf. unfold dprime. rewrite !pydiv_ok by assumption.
  reflexivity.
Qed.

Lemma adjusted_rate_interior (n m : R) :
  (0 < n / (n + m) < 1)%R -> adjusted_rate n m = (n / (n + m))%R.
Proof.
  intros H. unfold adjusted_rate.
  rewrite (@Reqb_false (n / (n + m)) 1) by lra.
  now rewrite (@Reqb_false (n / (n + m)) 0) by lra.
Qed.

Lemma adjusted_rate_degenerate (n m : R) :
  (n = 0 \/ m = 0)%R -> (2 <= n + m)%R ->
  (adjusted_rate n m <= 0 \/ 1 <= adjusted_rate n m)%R.
Proof.
  intros H0 H2. unfold adjusted_rate. destruct H0 as [-> | ->].
  - replace (0 / (0 + m))%R with 0%R by (unfold Rdiv; lra).
    rewrite (@Reqb_false 0 1) by lra.
    rewrite (@Reqb_true 0 0) by reflexivity. right. lra.
  - replace (n / (n + 0))%R with 1%R by (rewrite Rplus_0_r; field; lra).
    rewrite (@Reqb_true 1 1) by reflexivity.
    destruct (Reqb_spec (1 - 0.5 * (n + 0)) 0) as [E | E].
    + right. lra.
    + left. lra.
Qed.

Lemma dprime_ok_inv (hits misses fas crs : R) (d : fval) :
  dprime hits misses fas crs = Ok d ->
  (hits + misses <> 0 /\ fas + crs <> 0)%R.
Proof.
  unfold dprime, pydiv.
  destruct (Reqb_spec (hits + misses) 0) as [Eh | Eh]; cbn [bind];
    [discriminate |].
  destruct (Reqb_spec (fas + crs) 0) as [Ef | Ef]; cbn [bind];
    [discriminate | auto].
Qed.

(** X1.  [dprime] raises [ZeroDivisionError] exactly when there is no
    signal trial ([hits + misses = 0]) or no noise trial
    ([fas + crs = 0]); in every other case it returns a value, and no other
    exception is possible. *)
Theorem dprime_zero_division (hits misses fas crs : R) :
  match dprime hits misses fas crs with
  | Ok _ => (hits + misses <> 0 /\ fas + crs <> 0)%R
  | Raise e => e = ZeroDivisionError /\ (hits + misses = 0 \/ fas + crs = 0)%R
  end.
Proof.
  unfold dprime, pydiv.
  destruct (Reqb_spec (hits + misses) 0) as [Eh | Eh]; cbn [bind]; [auto |].
  destruct (Reqb_spec (fas + crs) 0) as [Ef | Ef]; cbn [bind]; auto.
Qed.

(** X2.  Exchanging the signal counts with the noise counts negates d':
    [dprime(fas, crs, hits, misses)] is [- dprime(hits, misses, fas, crs)],
    with [nan] and the infinities negated as IEEE does, and it raises
    exactly when the other call raises. *)
Theorem dprime_swap (hits misses fas crs : R) :
  dprime fas crs hits misses
  = (d <- dprime hits misses fas crs ;; Ok (fneg d)).
Proof.
  destruct (Req_dec_T (hits + misses) 0) as [Eh | Eh];
    destruct (Req_dec_T (fas + crs) 0) as [Ef | Ef].
  - unfold dprime. rewrite Eh, Ef, !pydiv_zero. reflexivity.
  - unfold dprime. rewrite Eh, !pydiv_zero.
    rewrite pydiv_ok by exact Ef. reflexivity.
  - unfold dprime. rewrite Ef, !pydiv_zero.
    rewrite pydiv_ok by exact Eh. reflexivity.
  - rewrite !dprime_unfold by assumption. cbn [bind].
    now rewrite fneg_fsub.
Qed.

(** X3.  The correction of lines 29-44 does not keep d' finite: whenever
    the hit rate is 0 or 1 and there are at least two signal trials, or the
    false-alarm rate is 0 or 1 and there are at least two noise trials, the
    value returned is [nan] or an infinity. *)
Theorem dprime_degenerate_rate (hits misses fas crs : R) (d : fval) :
  ((hits = 0 \/ misses = 0) /\ 2 <= hits + misses
   \/ (fas = 0 \/ crs = 0) /\ 2 <= fas + crs)%R ->
  dprime hits misses fas crs = Ok d -> ~ is_finite d.
Proof.
  intros Hdeg Hd.
  destruct (dprime_ok_inv _ _ _ _ _ Hd) as [Hh Hf].
  rewrite dprime_unfold in Hd by assumption. injection Hd as <-.
  unfold fsub. destruct Hdeg as [[H0 H2] | [H0 H2]].
  - apply fadd_not_finite_l, norm_ppf_outside.
    now apply adjusted_rate_degenerate.
  - apply fadd_not_finite_r, fneg_not_finite, norm_ppf_outside.
    now apply adjusted_rate_degenerate.
Qed.

Lemma dprime_degenerate_rate_witness :
  dprime 2 0 1 9 = Ok PInf /\ ~ is_finite PInf.
Proof.
  split; [exact dprime_ceiling_two_hits |].
  apply (dprime_degenerate_rate 2 0 1 9 PInf).
  - left. split; [right; reflexivity | lra].
  - exact dprime_ceiling_two_hits.
Defined.

Lemma Phi_reflects_lt (a b : R) : (Phi a < Phi b)%R -> (a < b)%R.
Proof.
  intros H. destruct (Rlt_le_dec a b) as [Hlt | Hle]; [exact Hlt |].
  pose proof (Phi_monotone b a Hle). lra.
Qed.

(** X4.  When the hit rate and the false-alarm rate are strictly between 0
    and 1 no correction is applied and d' is the difference of the two
    normal quantiles: a finite number, positive exactly when the hit rate
    exceeds the false-alarm rate and zero exactly when the two rates are
    equal.  (The two rates are assumed to be values of [Phi], as every
    number of (0, 1) is.) *)
Theorem dprime_sign (hits misses fas crs : R) :
  (hits + misses <> 0)%R -> (fas + crs <> 0)%R ->
  (0 < hits / (hits + misses) < 1)%R -> (0 < fas / (fas + crs) < 1)%R ->
  (exists z, Phi z = (hits / (hits + misses))%R) ->
  (exists z, Phi z = (fas / (fas + crs))%R) ->
  exists zh zf : R,
    Phi zh = (hits / (hits + misses))%R /\
    Phi zf = (fas / (fas + crs))%R /\
    dprime hits misses fas crs = Ok (Fin (zh - zf)) /\
    ((0 < zh - zf)%R <-> (fas / (fas + crs) < hits / (hits + misses))%R) /\
    ((zh - zf)%R = 0%R <-> (fas / (fas + crs))%R = (hits / (hits + misses))%R).
Proof.
  intros Hh Hf Rh Rf Eh Ef.
  destruct (norm_ppf_spec _ Rh Eh) as [zh [Nh Ph]].
  destruct (norm_ppf_spec _ Rf Ef) as [zf [Nf Pf]].
  exists zh, zf. split; [exact Ph |]. split; [exact Pf |]. split.
  - rewrite dprime_interior by assumption. rewrite Nh, Nf.
    cbn [fsub fneg fadd]. reflexivity.
  - split; split; intros H.
    + destruct (Rlt_le_dec (fas / (fas + crs)) (hits / (hits + misses)))
        as [Hlt | Hle]; [exact Hlt |].
      rewrite <- Ph, <- Pf in Hle.
      destruct (Rle_lt_or_eq_dec _ _ Hle) as [Hlt | Heq].
      * apply Phi_reflects_lt in Hlt. lra.
      * assert (E : zh = zf).
        { rewrite Ph, Pf in Heq.
          rewrite Heq in Nh. rewrite Nh in Nf. now inversion Nf. }
        lra.
    + rewrite <- Ph, <- Pf in H. apply Phi_reflects_lt in H. lra.
    + assert (E : zh = zf) by lra. rewrite <- Ph, <- Pf. now rewrite E.
    + rewrite H in Nf. rewrite Nh in Nf. inversion Nf. lra.
Qed.

Lemma dprime_sign_witness :
  exists zh zf : R,
    dprime 104 26 33 97 = Ok (Fin (zh - zf)) /\ (0 < zh - zf)%R.
Proof.
  assert (E1 : (104 / (104 + 26) = 104 / 130)%R)
    by (replace (104 + 26)%R with 130%R by lra; reflexivity).
  assert (E2 : (33 / (33 + 97) = 33 / 130)%R)
    by (replace (33 + 97)%R with 130%R by lra; reflexivity).
  destruct Phi_quantiles_exist as [Q1 Q2].
  destruct (dprime_sign 104 26 33 97) as [zh [zf [_ [_ [Hd [Hpos _]]]]]].
  - lra.
  - lra.
  - rewrite E1. lra.
  - rewrite E2. lra.
  - rewrite E1. exact Q1.
  - rewrite E2. exact Q2.
  - exists zh, zf. split; [exact Hd |]. apply Hpos. rewrite E1, E2. lra.
Defined.

(** X5.  As long as both rates are strictly between 0 and 1, d' depends on
    the four counts only through the two rates: multiplying all four counts
    by the same non-zero factor leaves the result unchanged. *)
Theorem dprime_scale_invariant (k hits misses fas crs : R) :
  k <> 0%R -> (hits + misses <> 0)%R -> (fas + crs <> 0)%R ->
  (0 < hits / (hits + misses) < 1)%R -> (0 < fas / (fas + crs) < 1)%R ->
  dprime (k * hits) (k * misses) (k * fas) (k * crs)
  = dprime hits misses fas crs.
Proof.
  intros Hk Hh Hf Rh Rf.
  assert (Eh : (k * hits / (k * hits + k * misses)
                = hits / (hits + misses))%R) by (field; split; [lra | nra]).
  assert (Ef : (k * fas / (k * fas + k * crs) = fas / (fas + crs))%R)
    by (field; split; [lra | nra]).
  rewrite (dprime_interior (hits:=hits)) by assumption.
  rewrite dprime_interior; rewrite ?Eh, ?Ef; try assumption.
  - reflexivity.
  - nra.
  - nra.
Qed.

Lemma dprime_scale_invariant_witness :
  dprime (2 * 8) (2 * 2) (2 * 1) (2 * 9) = dprime 8 2 1 9.
Proof.
  assert (E1 : (8 / (8 + 2) = 0.8)%R) by (replace (8 + 2)%R with 10%R; lra).
  assert (E2 : (1 / (1 + 9) = 0.1)%R) by (replace (1 + 9)%R with 10%R; lra).
  apply dprime_scale_invariant; rewrite ?E1, ?E2; lra.
Defined.

(** ** Further properties of [trials2counts] *)

Lemma filter_cell_valid (stim resp r nRatings : Z) (all : list trial) :
  (stim = 0 \/ stim = 1)%Z -> (resp = 0 \/ resp = 1)%Z ->
  (1 <= r <= nRatings)%Z ->
  filter (cell stim resp r) (filter (valid_trial nRatings) all)
  = filter (cell stim resp r) all.
Proof.
  intros Hs Hr Hrt. rewrite filter_filter_andb. apply filter_ext.
  intros [[s0 rp] rt]. unfold valid_trial, cell.
  destruct Hs; destruct Hr; subst; bool_cases.
Qed.

Lemma count_row_valid (stim nRatings : Z) (all : list trial) :
  (stim = 0 \/ stim = 1)%Z ->
  count_row stim nRatings (filter (valid_trial nRatings) all)
  = count_row stim nRatings all.
Proof.
  intros Hs. unfold count_row, cell_count. f_equal; apply map_ext_in;
    intros r Hr; do 2 f_equal.
  - apply py_range_desc_In in Hr. apply filter_cell_valid; auto; lia.
  - apply py_range_In in Hr. apply filter_cell_valid; auto; lia.
Qed.

(** The value of [trials2counts] once the length check has passed. *)
Lemma trials2counts_table (stimID response rating : list Z) (nRatings : Z)
    (padCells : bool) (padAmount : option R) :
  ~ (length stimID <> length response /\ length stimID = length rating) ->
  trials2counts stimID response rating nRatings padCells padAmount
  = (pad <- match padAmount with
            | None => pydiv 1 (IZR (2 * nRatings))
            | Some p => Ok p
            end ;;
     let all := zip3 stimID response rating in
     if padCells
     then Ok (map (fun n => PyFloat (IZR n + pad)) (count_row 0 nRatings all),
              map (fun n => PyFloat (IZR n + pad)) (count_row 1 nRatings all))
     else Ok (map PyInt (count_row 0 nRatings all),
              map PyInt (count_row 1 nRatings all))).
Proof.
  intros Hlen. unfold trials2counts.
  destruct (Nat.eqb_spec (length stimID) (length response)) as [E1 | E1];
    destruct (Nat.eqb_spec (length stimID) (length rating)) as [E2 | E2];
    simpl negb; cbv iota; simpl andb; cbv iota;
    try (exfalso; apply Hlen; now split).
  all: rewrite zip3_unzip;
    destruct (match padAmount with
              | Some p => Ok p
              | None => pydiv 1 (IZR (2 * nRatings))
              end) as [pad | e]; cbn [bind]; [| reflexivity];
    cbv zeta; rewrite !map_map;
    rewrite <- (@count_row_valid 0 nRatings (zip3 stimID response rating))
      by auto;
    rewrite <- (@count_row_valid 1 nRatings (zip3 stimID response rating))
      by auto;
    unfold count_row, cell_count; rewrite !map_app, !map_map;
    destruct padCells; do 2 f_equal;
      f_equal; apply map_ext; intros r; rewrite count_cells_spec;
      reflexivity.
Qed.

Lemma py_range_desc_length (a b : Z) :
  length (py_range_desc a b) = Z.to_nat (a - b).
Proof. unfold py_range_desc. now rewrite length_map, length_seq. Qed.

Lemma py_range_desc_nth (a b : Z) (i : nat) :
  (i < Z.to_nat (a - b))%nat ->
  nth_error (py_range_desc a b) i = Some (a - Z.of_nat i)%Z.
Proof.
  intros H. unfold py_range_desc.
  rewrite nth_error_map, nth_error_seq.
  destruct (Nat.ltb_spec i (Z.to_nat (a - b))); [reflexivity | lia].
Qed.

Lemma count_row_length (stim nRatings : Z) (all : list trial) :
  length (count_row stim nRatings all) = (2 * Z.to_nat nRatings)%nat.
Proof.
  unfold count_row.
  rewrite length_app, !length_map, py_range_desc_length, py_range_length.
  lia.
Qed.

Lemma count_row_nth (stim nRatings resp r : Z) (all : list trial) :
  (resp = 0 \/ resp = 1)%Z -> (1 <= r <= nRatings)%Z ->
  nth_error (count_row stim nRatings all)
            (Z.to_nat (if (resp =? 0)%Z then nRatings - r
                       else nRatings + r - 1))
  = Some (cell_count stim resp r all).
Proof.
  intros Hresp Hr. unfold count_row. destruct Hresp; subst resp; simpl Z.eqb;
    cbv iota.
  - rewrite nth_error_app1
      by (rewrite length_map, py_range_desc_length; lia).
    rewrite nth_error_map, py_range_desc_nth by lia. cbn [option_map].
    do 2 f_equal. lia.
  - rewrite nth_error_app2
      by (rewrite length_map, py_range_desc_length; lia).
    rewrite length_map, py_range_desc_length.
    rewrite nth_error_map, py_range_nth by lia. cbn [option_map].
    do 2 f_equal. lia.
Qed.

Lemma trials2counts_ok_check (stimID response rating : list Z)
    (nRatings : Z) (padCells : bool) (padAmount : option R)
    (v : list pynum * list pynum) :
  trials2counts stimID response rating nRatings padCells padAmount = Ok v ->
  ~ (length stimID <> length response /\ length stimID = length rating).
Proof.
  intros H [E1 E2]. unfold trials2counts in H.
  destruct (Nat.eqb_spec (length stimID) (length response)); [contradiction |].
  destruct (Nat.eqb_spec (length stimID) (length rating)); [| contradiction].
  discriminate.
Qed.

(** X6.  The layout of the two vectors.  With padding disabled, each
    vector returned by [trials2counts] has [2 * nRatings] entries; for a
    rating [r] between 1 and [nRatings], entry [nRatings - r] is the number
    of records with response 0 and rating [r], and entry
    [nRatings + r - 1] the number of records with response 1 and rating
    [r], among the records of stimulus 0 for the first vector and of
    stimulus 1 for the second. *)
Theorem trials2counts_layout (stimID response rating : list Z)
    (nRatings : Z) (padAmount : option R) (v1 v2 : list pynum) :
  trials2counts stimID response rating nRatings false padAmount
  = Ok (v1, v2) ->
  length v1 = (2 * Z.to_nat nRatings)%nat /\
  length v2 = (2 * Z.to_nat nRatings)%nat /\
  forall resp r : Z,
    (resp = 0 \/ resp = 1)%Z -> (1 <= r <= nRatings)%Z ->
    let i := Z.to_nat (if (resp =? 0)%Z then nRatings - r
                       else nRatings + r - 1) in
    let all := zip3 stimID response rating in
    nth_error v1 i = Some (PyInt (cell_count 0 resp r all)) /\
    nth_error v2 i = Some (PyInt (cell_count 1 resp r all)).
Proof.
  intros H. pose proof (trials2counts_ok_check _ _ _ _ _ _ _ H) as Hc.
  rewrite (trials2counts_table _ _ _ _ _ _ Hc) in H.
  apply bind_ok_inv in H. destruct H as [pad [_ H]]. cbv zeta in H.
  injection H as <- <-.
  rewrite !length_map, !count_row_length.
  split; [reflexivity |]. split; [reflexivity |].
  intros resp r Hresp Hr. cbv zeta.
  rewrite !nth_error_map, !count_row_nth by assumption. now split.
Qed.

Lemma trials2counts_layout_witness :
  exists v1 v2,
    trials2counts [0; 1; 0; 0; 1; 1; 1; 1]%Z [0; 1; 1; 1; 0; 0; 1; 1]%Z
                  [1; 2; 3; 4; 4; 3; 2; 1]%Z 4 false None = Ok (v1, v2) /\
    length v1 = 8%nat /\
    nth_error v2 5 = Some (PyInt 2).
Proof.
  pose proof (trials2counts_layout
                [0; 1; 0; 0; 1; 1; 1; 1]%Z [0; 1; 1; 1; 0; 0; 1; 1]%Z
                [1; 2; 3; 4; 4; 3; 2; 1]%Z 4 None) as H.
  assert (E : trials2counts [0; 1; 0; 0; 1; 1; 1; 1]%Z
                [0; 1; 1; 1; 0; 0; 1; 1]%Z [1; 2; 3; 4; 4; 3; 2; 1]%Z
                4 false None
              = Ok (map PyInt [0; 0; 0; 1; 0; 0; 1; 1]%Z,
                    map PyInt [1; 1; 0; 0; 1; 2; 0; 0]%Z)).
  { unfold trials2counts. simpl negb. cbv iota.
    rewrite pydiv_ok by (simpl; lra). reflexivity. }
  do 2 eexists. split; [exact E |].
  destruct (H _ _ E) as [L1 [_ Hcell]].
  split; [exact L1 |].
  destruct (Hcell 1%Z 2%Z) as [_ H2]; [now right | lia |].
  exact H2.
Defined.

(** X7.  Padding.  When the call without padding returns [(v1, v2)], the
    call with [padCells] set returns the same two vectors with [padAmount]
    added to every cell; the default [padAmount] is [1 / (2 * nRatings)]. *)
Theorem trials2counts_padding (stimID response rating : list Z)
    (nRatings : Z) (padAmount : option R) (v1 v2 : list pynum) :
  trials2counts stimID response rating nRatings false padAmount
  = Ok (v1, v2) ->
  let pad := match padAmount with
             | Some p => p
             | None => (1 / IZR (2 * nRatings))%R
             end in
  trials2counts stimID response rating nRatings true padAmount
  = Ok (map (pad_count pad) v1, map (pad_count pad) v2).
Proof.
  intros H. pose proof (trials2counts_ok_check _ _ _ _ _ _ _ H) as Hc.
  rewrite (trials2counts_table _ _ _ _ _ _ Hc) in H.
  rewrite (trials2counts_table _ _ _ _ _ _ Hc).
  apply bind_ok_inv in H. destruct H as [pad [Hpad H]]. cbv zeta in H.
  injection H as <- <-. rewrite Hpad. cbn [bind]. cbv zeta.
  assert (E : pad = match padAmount with
                    | Some p => p
                    | None => (1 / IZR (2 * nRatings))%R
                    end).
  { destruct padAmount as [p |].
    - now injection Hpad as ->.
    - now apply pydiv_inv in Hpad. }
  rewrite <- E, !map_map. reflexivity.
Qed.

Lemma trials2counts_unpadded_example :
  trials2counts [0; 1; 7; 0]%Z [0; 1; 1; 1]%Z [1; 2; 2; 5]%Z 2 false None
  = Ok (map PyInt [0; 1; 0; 0]%Z, map PyInt [0; 0; 0; 1]%Z).
Proof.
  unfold trials2counts. simpl negb. cbv iota.
  rewrite pydiv_ok by (simpl; lra). reflexivity.
Qed.

Lemma trials2counts_padding_example :
  trials2counts [0; 1; 7; 0]%Z [0; 1; 1; 1]%Z [1; 2; 2; 5]%Z 2 true None
  = Ok (map (fun n => PyFloat (IZR n + 1 / IZR (2 * 2))) [0; 1; 0; 0]%Z,
        map (fun n => PyFloat (IZR n + 1 / IZR (2 * 2))) [0; 0; 0; 1]%Z).
Proof.
  unfold trials2counts. simpl negb. cbv iota.
  rewrite pydiv_ok by (simpl; lra). reflexivity.
Qed.

Lemma trials2counts_padding_witness :
  trials2counts [0; 1; 7; 0]%Z [0; 1; 1; 1]%Z [1; 2; 2; 5]%Z 2 true None
  = Ok (map (pad_count (1 / IZR (2 * 2))) (map PyInt [0; 1; 0; 0]%Z),
        map (pad_count (1 / IZR (2 * 2))) (map PyInt [0; 0; 0; 1]%Z)).
Proof.
  apply (trials2counts_padding [0; 1; 7; 0]%Z [0; 1; 1; 1]%Z [1; 2; 2; 5]%Z
           2 None).
  exact trials2counts_unpadded_example.
Defined.

Lemma pynum_sum_padded (p : R) (l : list Z) :
  l <> [] ->
  pynum_sum (map (fun n => PyFloat (IZR n + p)) l)
  = PyFloat (IZR (Zsum l) + INR (length l) * p).
Proof.
  intros Hne. destruct l as [| a l]; [congruence |]. clear Hne.
  unfold pynum_sum. cbn [map fold_left pynum_add].
  assert (H : forall (l : list Z) (x : R),
             fold_left pynum_add (map (fun n => PyFloat (IZR n + p)) l)
                       (PyFloat x)
             = PyFloat (x + IZR (Zsum l) + INR (length l) * p)).
  { clear. induction l as [| b l IH]; intros x.
    - simpl. f_equal. unfold Zsum. simpl. lra.
    - cbn [map fold_left pynum_add]. rewrite IH, Zsum_cons, plus_IZR.
      change (length (b :: l)) with (S (length l)). rewrite S_INR.
      f_equal. lra. }
  rewrite H, Zsum_cons, plus_IZR.
  change (length (a :: l)) with (S (length l)). rewrite S_INR.
  f_equal. lra.
Qed.

Lemma count_row_total (stim nRatings : Z) (stimID response rating : list Z) :
  (stim = 0 \/ stim = 1)%Z ->
  Zsum (count_row stim nRatings (zip3 stimID response rating))
  = in_range_trials stim nRatings stimID response rating.
Proof.
  intros Hs. rewrite <- count_row_valid by exact Hs.
  unfold count_row, cell_count, in_range_trials.
  exact (@kept_rows_total stim nRatings (zip3 stimID response rating) Hs).
Qed.

(** X8.  With padding enabled and the default [padAmount], the padding
    adds exactly one to the total of each vector: [sum(nR_S1)] is the number
    of in-range records of stimulus 0 plus 1, [sum(nR_S2)] the number of
    in-range records of stimulus 1 plus 1. *)
Theorem trials2counts_default_padding_total
    (stimID response rating : list Z) (nRatings : Z) (v1 v2 : list pynum) :
  (1 <= nRatings)%Z ->
  trials2counts stimID response rating nRatings true None = Ok (v1, v2) ->
  pynum_sum v1
  = PyFloat (IZR (in_range_trials 0 nRatings stimID response rating) + 1) /\
  pynum_sum v2
  = PyFloat (IZR (in_range_trials 1 nRatings stimID response rating) + 1).
Proof.
  intros Hn H. pose proof (trials2counts_ok_check _ _ _ _ _ _ _ H) as Hc.
  rewrite (trials2counts_table _ _ _ _ _ _ Hc) in H.
  apply bind_ok_inv in H. destruct H as [pad [Hpad H]]. cbv zeta in H.
  injection H as <- <-. apply pydiv_inv in Hpad. destruct Hpad as [Hnz ->].
  assert (Hne : forall stim,
             count_row stim nRatings (zip3 stimID response rating) <> []).
  { intros stim E. apply (f_equal (@length Z)) in E.
    rewrite count_row_length in E. simpl in E. lia. }
  rewrite !pynum_sum_padded by apply Hne.
  rewrite !count_row_length, !count_row_total by auto.
  assert (E : (INR (2 * Z.to_nat nRatings) * (1 / IZR (2 * nRatings)) = 1)%R).
  { rewrite INR_IZR_INZ.
    replace (Z.of_nat (2 * Z.to_nat nRatings)) with (2 * nRatings)%Z by lia.
    field. exact Hnz. }
  rewrite E. split; reflexivity.
Qed.

Lemma trials2counts_default_padding_total_witness :
  exists v1 v2,
    trials2counts [0; 1; 7; 0]%Z [0; 1; 1; 1]%Z [1; 2; 2; 5]%Z 2 true None
    = Ok (v1, v2) /\
    pynum_sum v1 = PyFloat (IZR 1 + 1) /\ pynum_sum v2 = PyFloat (IZR 1 + 1).
Proof.
  do 2 eexists. split; [apply trials2counts_padding_example |].
  apply (trials2counts_default_padding_total
           [0; 1; 7; 0]%Z [0; 1; 1; 1]%Z [1; 2; 2; 5]%Z 2); [lia |].
  apply trials2counts_padding_example.
Defined.

(** X9.  [padAmount] is computed whether or not padding is asked for: with
    [nRatings = 0] and no [padAmount] given, a call that passes the length
    check raises [ZeroDivisionError] even with [padCells] false; with a
    [padAmount] given it returns two empty vectors. *)
Theorem trials2counts_zero_ratings (stimID response rating : list Z)
    (padCells : bool) :
  ~ (length stimID <> length response /\ length stimID = length rating) ->
  trials2counts stimID response rating 0 padCells None
  = Raise ZeroDivisionError /\
  forall p : R,
    trials2counts stimID response rating 0 padCells (Some p) = Ok ([], []).
Proof.
  intros Hc. rewrite !(trials2counts_table _ _ _ _ _ _ Hc). split.
  - simpl Z.mul. now rewrite pydiv_zero.
  - intros p. rewrite (trials2counts_table _ _ _ _ _ _ Hc). cbn [bind].
    cbv zeta. now destruct padCells.
Qed.

Lemma trials2counts_zero_ratings_witness :
  trials2counts [0; 1]%Z [0; 1]%Z [1; 2]%Z 0 false None
  = Raise ZeroDivisionError.
Proof.
  apply (trials2counts_zero_ratings [0; 1]%Z [0; 1]%Z [1; 2]%Z false).
  simpl. intros [H _]. now apply H.
Defined.

Lemma Permutation_filter_length {T : Type} (p : T -> bool) (l l' : list T) :
  Permutation l l' -> length (filter p l) = length (filter p l').
Proof.
  induction 1 as [| a l l' _ IH | a b l | l l' l'' _ IH1 _ IH2]; simpl.
  - reflexivity.
  - destruct (p a); simpl; now rewrite IH.
  - destruct (p a), (p b); reflexivity.
  - now rewrite IH1.
Qed.

Lemma count_row_Permutation (stim nRatings : Z) (l l' : list trial) :
  Permutation l l' -> count_row stim nRatings l = count_row stim nRatings l'.
Proof.
  intros H. unfold count_row, cell_count.
  f_equal; apply map_ext; intros r;
    now rewrite (Permutation_filter_length _ _ _ H).
Qed.

(** X10.  The result depends only on which in-range records there are, not
    on their order nor on the records that are out of range: two inputs
    that pass the length check and whose kept records are a permutation of
    each other give the same result. *)
Theorem trials2counts_multiset
    (stimID response rating stimID' response' rating' : list Z)
    (nRatings : Z) (padCells : bool) (padAmount : option R) :
  ~ (length stimID <> length response /\ length stimID = length rating) ->
  ~ (length stimID' <> length response' /\
     length stimID' = length rating') ->
  Permutation (filter (valid_trial nRatings) (zip3 stimID response rating))
              (filter (valid_trial nRatings)
                      (zip3 stimID' response' rating')) ->
  trials2counts stimID response rating nRatings padCells padAmount
  = trials2counts stimID' response' rating' nRatings padCells padAmount.
Proof.
  intros Hc Hc' Hperm.
  rewrite (trials2counts_table _ _ _ _ _ _ Hc).
  rewrite (trials2counts_table _ _ _ _ _ _ Hc').
  cbv zeta.
  rewrite <- (count_row_valid 0 nRatings (zip3 stimID response rating))
    by auto.
  rewrite <- (count_row_valid 1 nRatings (zip3 stimID response rating))
    by auto.
  rewrite <- (count_row_valid 0 nRatings (zip3 stimID' response' rating'))
    by auto.
  rewrite <- (count_row_valid 1 nRatings (zip3 stimID' response' rating'))
    by auto.
  now rewrite !(count_row_Permutation _ _ _ _ Hperm).
Qed.

Lemma trials2counts_multiset_witness :
  trials2counts [0; 1; 7; 0]%Z [0; 1; 1; 1]%Z [1; 2; 2; 5]%Z 2 false None
  = trials2counts [1; 0]%Z [1; 0]%Z [2; 1]%Z 2 false None.
Proof.
  apply trials2counts_multiset.
  - simpl. intros [H _]. now apply H.
  - simpl. intros [H _]. now apply H.
  - simpl. apply perm_swap.
Defined.

Lemma trials2counts_mismatch (stimID response rating : list Z) (nRatings : Z)
    (padCells : bool) (padAmount : option R) :
  length stimID <> length response /\ length stimID = length rating ->
  trials2counts stimID response rating nRatings padCells padAmount
  = Raise (TypeError "Input vectors must have the same lengths").
Proof.
  intros [E1 E2]. unfold trials2counts.
  destruct (Nat.eqb_spec (length stimID) (length response)); [contradiction |].
  destruct (Nat.eqb_spec (length stimID) (length rating)); [| contradiction].
  reflexivity.
Qed.

Lemma mismatch_dec (a b c : nat) : {a <> b /\ a = c} + {~ (a <> b /\ a = c)}.
Proof.
  destruct (Nat.eq_dec a b) as [E | E]; [right; tauto |].
  destruct (Nat.eq_dec a c) as [E' | E']; [left; tauto | right; tauto].
Qed.

Lemma zip3_map_stim {X Y W X' : Type} (f : X -> X')
    (a : list X) (b : list Y) (c : list W) :
  zip3 (map f a) b c
  = map (fun t : X * Y * W => (f (fst (fst t)), snd (fst t), snd t))
        (zip3 a b c).
Proof.
  unfold zip3. revert b c.
  induction a as [| x a IH]; intros [| y b] [| w c]; simpl;
    try reflexivity.
  now rewrite IH.
Qed.

Lemma zip3_map_resp {X Y W Y' : Type} (g : Y -> Y')
    (a : list X) (b : list Y) (c : list W) :
  zip3 a (map g b) c
  = map (fun t : X * Y * W => (fst (fst t), g (snd (fst t)), snd t))
        (zip3 a b c).
Proof.
  unfold zip3. revert b c.
  induction a as [| x a IH]; intros [| y b] [| w c]; simpl;
    try reflexivity.
  now rewrite IH.
Qed.

Lemma filter_map_length {X Y : Type} (p : Y -> bool) (g : X -> Y)
    (l : list X) :
  length (filter p (map g l)) = length (filter (fun a => p (g a)) l).
Proof.
  induction l as [| a l IH]; simpl; [reflexivity |].
  destruct (p (g a)); simpl; now rewrite IH.
Qed.

Lemma cell_count_map (stim resp r stim' resp' : Z) (g : trial -> trial)
    (l : list trial) :
  (forall t, cell stim resp r (g t) = cell stim' resp' r t) ->
  cell_count stim resp r (map g l) = cell_count stim' resp' r l.
Proof.
  intros H. unfold cell_count. rewrite filter_map_length.
  do 2 f_equal. apply filter_ext. exact H.
Qed.

(** X11.  Exchanging the two stimulus labels ([s] becomes [1 - s])
    exchanges the two vectors. *)
Theorem trials2counts_swap_stimuli (stimID response rating : list Z)
    (nRatings : Z) (padCells : bool) (padAmount : option R) :
  trials2counts (map (fun s => 1 - s)%Z stimID) response rating nRatings
                padCells padAmount
  = (v <- trials2counts stimID response rating nRatings padCells padAmount ;;
     Ok (snd v, fst v)).
Proof.
  destruct (mismatch_dec (length stimID) (length response) (length rating))
    as [Hm | Hc].
  - rewrite !trials2counts_mismatch; rewrite ?length_map; auto.
  - rewrite !trials2counts_table; rewrite ?length_map; auto.
    destruct (match padAmount with
              | Some p => Ok p
              | None => pydiv 1 (IZR (2 * nRatings))
              end) as [pad | e]; cbn [bind]; [| reflexivity].
    cbv zeta.
    rewrite zip3_map_stim.
    assert (E : forall stim stim' : Z,
               (stim = 0 /\ stim' = 1 \/ stim = 1 /\ stim' = 0)%Z ->
               count_row stim nRatings
                 (map (fun t : Z * Z * Z =>
                         ((1 - fst (fst t))%Z, snd (fst t), snd t))
                      (zip3 stimID response rating))
               = count_row stim' nRatings (zip3 stimID response rating)).
    { intros stim stim' Hs. unfold count_row.
      f_equal; apply map_ext; intros r; apply cell_count_map;
        intros [[s0 rp] rt]; unfold cell; cbn [fst snd];
        destruct Hs as [[-> ->] | [-> ->]]; bool_cases. }
    rewrite (E 0%Z 1%Z), (E 1%Z 0%Z) by auto.
    destruct padCells; reflexivity.
Qed.

Lemma rev_seq_shifted (k : nat) :
  rev (map (fun i => 1 + Z.of_nat i)%Z (seq 0 k))
  = map (fun i => Z.of_nat k - Z.of_nat i)%Z (seq 0 k).
Proof.
  induction k as [| k IH].
  - reflexivity.
  - rewrite seq_S at 1. rewrite map_app, rev_app_distr. cbn [map rev app].
    rewrite IH. cbn [seq map]. f_equal; [lia |].
    rewrite <- seq_shift, map_map. apply map_ext. intros i. lia.
Qed.

Lemma rev_py_range (n : Z) :
  rev (py_range 1 (n + 1)) = py_range_desc n 0.
Proof.
  unfold py_range, py_range_desc.
  replace (n + 1 - 1)%Z with n by lia. rewrite Z.sub_0_r.
  destruct (Z.le_gt_cases 0 n) as [Hn | Hn].
  - rewrite rev_seq_shifted. apply map_ext. intros i. lia.
  - replace (Z.to_nat n) with 0%nat by lia. reflexivity.
Qed.

Lemma rev_count_row (stim nRatings : Z) (l : list trial) :
  rev (count_row stim nRatings l)
  = map (fun r => cell_count stim 1 r l) (py_range_desc nRatings 0)
    ++ map (fun r => cell_count stim 0 r l) (py_range 1 (nRatings + 1)).
Proof.
  unfold count_row. rewrite rev_app_distr, <- !map_rev.
  rewrite rev_py_range. rewrite <- rev_py_range, rev_involutive.
  reflexivity.
Qed.

(** X12.  Exchanging the two response labels ([rp] becomes [1 - rp])
    reverses each of the two vectors. *)
Theorem trials2counts_swap_responses (stimID response rating : list Z)
    (nRatings : Z) (padCells : bool) (padAmount : option R) :
  trials2counts stimID (map (fun rp => 1 - rp)%Z response) rating nRatings
                padCells padAmount
  = (v <- trials2counts stimID response rating nRatings padCells padAmount ;;
     Ok (rev (fst v), rev (snd v))).
Proof.
  destruct (mismatch_dec (length stimID) (length response) (length rating))
    as [Hm | Hc].
  - rewrite !trials2counts_mismatch; rewrite ?length_map; auto.
  - rewrite !trials2counts_table; rewrite ?length_map; auto.
    destruct (match padAmount with
              | Some p => Ok p
              | None => pydiv 1 (IZR (2 * nRatings))
              end) as [pad | e]; cbn [bind]; [| reflexivity].
    cbv zeta.
    rewrite zip3_map_resp.
    assert (E : forall stim : Z,
               count_row stim nRatings
                 (map (fun t : Z * Z * Z =>
                         (fst (fst t), (1 - snd (fst t))%Z, snd t))
                      (zip3 stimID response rating))
               = rev (count_row stim nRatings (zip3 stimID response rating))).
    { intros stim. rewrite rev_count_row. unfold count_row.
      f_equal; apply map_ext; intros r; apply cell_count_map;
        intros [[s0 rp] rt]; unfold cell; cbn [fst snd]; bool_cases. }
    rewrite !E.
    destruct padCells; cbn [bind fst snd]; now rewrite !map_rev.
Qed.

Lemma zip3_app {X Y W : Type} (a1 a2 : list X) (b1 b2 : list Y)
    (c1 c2 : list W) :
  length a1 = length b1 -> length a1 = length c1 ->
  zip3 (a1 ++ a2) (b1 ++ b2) (c1 ++ c2) = zip3 a1 b1 c1 ++ zip3 a2 b2 c2.
Proof.
  unfold zip3. revert b1 c1.
  induction a1 as [| x a1 IH]; intros [| y b1] [| w c1] H1 H2;
    try discriminate; simpl.
  - reflexivity.
  - f_equal. apply IH; simpl in *; lia.
Qed.

Lemma combine_map_same {X Y W : Type} (f : X -> Y) (g : X -> W)
    (l : list X) :
  combine (map f l) (map g l) = map (fun a => (f a, g a)) l.
Proof. induction l as [| a l IH]; simpl; [| rewrite IH]; reflexivity. Qed.

Lemma combine_app_same_length {X Y : Type} (a1 a2 : list X) (b1 b2 : list Y) :
  length a1 = length b1 ->
  combine (a1 ++ a2) (b1 ++ b2) = combine a1 b1 ++ combine a2 b2.
Proof.
  revert b1. induction a1 as [| x a1 IH]; intros [| y b1] H;
    try discriminate; simpl; [reflexivity |].
  f_equal. apply IH. simpl in H. lia.
Qed.

Lemma count_row_app (stim nRatings : Z) (l1 l2 : list trial) :
  count_row stim nRatings (l1 ++ l2)
  = map (fun p => (fst p + snd p)%Z)
        (combine (count_row stim nRatings l1) (count_row stim nRatings l2)).
Proof.
  unfold count_row.
  rewrite combine_app_same_length by now rewrite !length_map.
  rewrite !combine_map_same, map_app, !map_map. cbn [fst snd].
  f_equal; apply map_ext; intros r; unfold cell_count;
    rewrite filter_app, length_app; lia.
Qed.

Lemma add_counts_ints (a b : list Z) :
  add_counts (map PyInt a) (map PyInt b)
  = map PyInt (map (fun p => (fst p + snd p)%Z) (combine a b)).
Proof.
  unfold add_counts. revert b.
  induction a as [| x a IH]; intros [| y b]; simpl; try reflexivity.
  now rewrite IH.
Qed.

(** X13.  Pooling two sets of records adds their counts: when the first
    three sequences have equal lengths, the vectors for the concatenated
    sequences are the cell-by-cell sums of the vectors of the two parts
    (padding disabled). *)
Theorem trials2counts_additive
    (stimID response rating stimID' response' rating' : list Z)
    (nRatings : Z) (padAmount : option R) (a1 a2 b1 b2 : list pynum) :
  length stimID = length response -> length stimID = length rating ->
  trials2counts stimID response rating nRatings false padAmount
  = Ok (a1, a2) ->
  trials2counts stimID' response' rating' nRatings false padAmount
  = Ok (b1, b2) ->
  trials2counts (stimID ++ stimID') (response ++ response')
                (rating ++ rating') nRatings false padAmount
  = Ok (add_counts a1 b1, add_counts a2 b2).
Proof.
  intros L1 L2 Ha Hb.
  pose proof (trials2counts_ok_check _ _ _ _ _ _ _ Ha) as Hca.
  pose proof (trials2counts_ok_check _ _ _ _ _ _ _ Hb) as Hcb.
  rewrite (trials2counts_table _ _ _ _ _ _ Hca) in Ha.
  rewrite (trials2counts_table _ _ _ _ _ _ Hcb) in Hb.
  rewrite trials2counts_table by (rewrite !length_app; lia).
  apply bind_ok_inv in Ha. destruct Ha as [pad [Hpad Ha]].
  apply bind_ok_inv in Hb. destruct Hb as [pad' [_ Hb]].
  cbv zeta in Ha, Hb. injection Ha as <- <-. injection Hb as <- <-.
  rewrite Hpad. cbn [bind]. cbv zeta.
  rewrite zip3_app, !count_row_app, !add_counts_ints by assumption.
  reflexivity.
Qed.

Lemma trials2counts_additive_witness :
  trials2counts ([0; 1; 7; 0] ++ [0; 1; 7; 0])%Z
                ([0; 1; 1; 1] ++ [0; 1; 1; 1])%Z
                ([1; 2; 2; 5] ++ [1; 2; 2; 5])%Z 2 false None
  = Ok (map PyInt [0; 2; 0; 0]%Z, map PyInt [0; 0; 0; 2]%Z).
Proof.
  exact (trials2counts_additive
           [0; 1; 7; 0]%Z [0; 1; 1; 1]%Z [1; 2; 2; 5]%Z
           [0; 1; 7; 0]%Z [0; 1; 1; 1]%Z [1; 2; 2; 5]%Z 2 None
           _ _ _ _ eq_refl eq_refl
           trials2counts_unpadded_example trials2counts_unpadded_example).
Defined.

(** ** Further properties of [fit_meta_d_logL] *)


Lemma py_index_ok_bound {T : Type} (l : list T) (i : Z) (a : T) :
  py_index l i = Ok a -> (0 <= i)%Z -> (i < Z.of_nat (length l))%Z.
Proof.
  unfold py_index. intros H Hi.
  destruct (Z.ltb_spec i 0); [lia |].
  destruct (Z.leb_spec 0 i); [| discriminate].
  destruct (Z.ltb_spec i (Z.of_nat (length l))); [assumption | discriminate].
Qed.

Lemma mapM_ok_inv {X Y : Type} (f : X -> exc Y) (l : list X) (bs : list Y) :
  mapM f l = Ok bs -> forall a, In a l -> exists b, f a = Ok b.
Proof.
  revert bs. induction l as [| a l IH]; simpl; intros bs H a' Ha.
  - contradiction.
  - apply bind_ok_inv in H. destruct H as [b [Hb H]].
    apply bind_ok_inv in H. destruct H as [bs' [Hbs' _]].
    destruct Ha as [<- | Ha]; [eauto | eapply IH; eauto].
Qed.

Lemma mapM_nth {X Y : Type} (f : X -> exc Y) (l : list X) (bs : list Y)
    (i : nat) (a : X) :
  mapM f l = Ok bs -> nth_error l i = Some a ->
  exists b, nth_error bs i = Some b /\ f a = Ok b.
Proof.
  revert bs i. induction l as [| a' l IH]; simpl; intros bs i H Hi.
  - destruct i; discriminate.
  - apply bind_ok_inv in H. destruct H as [b [Hb H]].
    apply bind_ok_inv in H. destruct H as [bs' [Hbs' H]].
    injection H as <-. destruct i as [| i]; simpl in *.
    + injection Hi as <-. eauto.
    + eapply IH; eauto.
Qed.











Lemma fold_fadd_not_finite_acc (l : list fval) (a : fval) :
  ~ is_finite a -> ~ is_finite (fold_left fadd l a).
Proof.
  revert a. induction l as [| t l IH]; intros a Ha; simpl; [exact Ha |].
  apply IH. now apply fadd_not_finite_l.
Qed.

Lemma np_sum_not_finite (l : list fval) :
  Exists (fun t => ~ is_finite t) l -> ~ is_finite (np_sum l).
Proof.
  unfold np_sum. generalize (Fin 0). intros a Hex. revert a.
  induction Hex as [t l Ht | t l _ IH]; intros a; simpl.
  - apply fold_fadd_not_finite_acc. now apply fadd_not_finite_r.
  - apply IH.
Qed.

Lemma weighted_log_not_finite (n : R) (p : fval) :
  (forall r, p = Fin r -> (r <= 0)%R) ->
  ~ is_finite (fmul (Fin n) (np_log p)).
Proof.
  intros Hp [x Hx].
  destruct p as [r | | |]; cbn [np_log] in Hx.
  - specialize (Hp r eq_refl).
    destruct (Rle_lt_or_eq_dec _ _ Hp) as [Hlt | Heq].
    + rewrite (@Rsgn_Lt r) in Hx by exact Hlt. discriminate.
    + rewrite (@Rsgn_Eq r) in Hx by exact Heq. cbn [fmul] in Hx.
      destruct (Rsgn n); discriminate.
  - cbn [fmul] in Hx. destruct (Rsgn n); discriminate.
  - discriminate.
  - discriminate.
Qed.

Lemma guard_logL_not_finite (logL : fval) :
  ~ is_finite logL -> guard_logL logL = Fin (-1e300).
Proof.
  intros H. unfold guard_logL.
  destruct logL as [r | | |]; try reflexivity.
  exfalso. apply H. now exists r.
Qed.

Lemma py_index_nth_error {T : Type} (l : list T) (i : nat) (a : T) :
  py_index l (Z.of_nat i) = Ok a -> nth_error l i = Some a.
Proof.
  unfold py_index.
  destruct (Z.ltb_spec (Z.of_nat i) 0); [lia |].
  destruct ((0 <=? Z.of_nat i) && (Z.of_nat i <? Z.of_nat (length l)))%Z;
    [| discriminate].
  rewrite Nat2Z.id.
  destruct (nth_error l i) as [b |]; [| discriminate].
  intros E. now injection E as ->.
Qed.

Lemma nth_error_lt {T : Type} (l : list T) (i : nat) (a : T) :
  nth_error l i = Some a -> (i < length l)%nat.
Proof. intros H. apply nth_error_Some. rewrite H. discriminate. Qed.

Lemma type2_probabilities_lengths (parameters : list fval) (io : inputObj)
    (p1 p2 p3 p4 : list fval) :
  type2_probabilities parameters io = Ok (p1, p2, p3, p4) ->
  let n := Z.to_nat (nRatings io) in
  length p1 = n /\ length p2 = n /\ length p3 = n /\ length p4 = n.
Proof.
  intros H. unfold type2_probabilities in H.
  apply bind_ok_inv in H. destruct H as [m [_ H]].
  apply bind_ok_inv in H. destruct H as [[[[S1mu S1sd] S2mu] S2sd] [_ H]].
  unfold type1_areas in H.
  apply bind_ok_inv in H. destruct H as [q1 [E1 H]].
  apply bind_ok_inv in H. destruct H as [q2 [E2 H]].
  apply bind_ok_inv in H. destruct H as [q3 [E3 H]].
  apply bind_ok_inv in H. destruct H as [q4 [E4 H]].
  injection H as <- <- <- <-.
  apply mapM_length in E1, E2, E3, E4.
  rewrite py_range_length, Z.sub_0_r in E1, E2, E3, E4. cbv zeta. auto.
Qed.

(** ** The sign of the value returned *)

Lemma mapM_In {X Y : Type} (f : X -> exc Y) (l : list X) (bs : list Y)
    (b : Y) :
  mapM f l = Ok bs -> In b bs -> exists a, In a l /\ f a = Ok b.
Proof.
  revert bs. induction l as [| a l IH]; simpl; intros bs H Hb.
  - injection H as <-. contradiction.
  - apply bind_ok_inv in H. destruct H as [b' [Hb' H]].
    apply bind_ok_inv in H. destruct H as [bs' [Hbs' H]].
    injection H as <-. destruct Hb as [<- | Hb].
    + exists a. auto.
    + destruct (IH _ Hbs' Hb) as [a' [Ha' Hf]]. exists a'. auto.
Qed.

Lemma type2_counts_In (io : inputObj) (c1 c2 c3 c4 : list R) (n : R) :
  type2_counts io = Ok (c1, c2, c3, c4) ->
  In n (c1 ++ c2 ++ c3 ++ c4) -> In n (nR_S1 io ++ nR_S2 io).
Proof.
  intros H Hn. unfold type2_counts in H.
  apply bind_ok_inv in H. destruct H as [q1 [E1 H]].
  apply bind_ok_inv in H. destruct H as [q2 [E2 H]].
  apply bind_ok_inv in H. destruct H as [q3 [E3 H]].
  apply bind_ok_inv in H. destruct H as [q4 [E4 H]].
  injection H as <- <- <- <-. apply in_or_app.
  repeat (apply in_app_or in Hn; destruct Hn as [Hn | Hn]).
  - destruct (mapM_In _ _ _ _ E1 Hn) as [i [_ Hi]].
    left. eapply py_index_ok_inv, Hi.
  - destruct (mapM_In _ _ _ _ E2 Hn) as [i [_ Hi]].
    right. eapply py_index_ok_inv, Hi.
  - destruct (mapM_In _ _ _ _ E3 Hn) as [i [_ Hi]].
    right. eapply py_index_ok_inv, Hi.
  - destruct (mapM_In _ _ _ _ E4 Hn) as [i [_ Hi]].
    left. eapply py_index_ok_inv, Hi.
Qed.

(** The terms of the sum of lines 241-245, with the counts they weigh. *)
Lemma log_likelihood_weighted_terms (parameters : list fval) (io : inputObj)
    (p1 p2 p3 p4 : list fval) (logL : fval) :
  type2_probabilities parameters io = Ok (p1, p2, p3, p4) ->
  log_likelihood parameters io = Ok logL ->
  exists terms,
    logL = np_sum terms /\
    length terms = Z.to_nat (nRatings io) /\
    forall i, (i < Z.to_nat (nRatings io))%nat ->
      exists n1 n2 n3 n4 q1 q2 q3 q4,
        In n1 (nR_S1 io ++ nR_S2 io) /\ In n2 (nR_S1 io ++ nR_S2 io) /\
        In n3 (nR_S1 io ++ nR_S2 io) /\ In n4 (nR_S1 io ++ nR_S2 io) /\
        nth_error p1 i = Some q1 /\ nth_error p2 i = Some q2 /\
        nth_error p3 i = Some q3 /\ nth_error p4 i = Some q4 /\
        nth_error terms i
        = Some (fadd (fadd (fadd (fmul (Fin n1) (np_log q1))
                                 (fmul (Fin n2) (np_log q2)))
                           (fmul (Fin n3) (np_log q3)))
                     (fmul (Fin n4) (np_log q4))).
Proof.
  intros Hp H. unfold log_likelihood in H.
  apply bind_ok_inv in H. destruct H as [m [_ H]].
  apply bind_ok_inv in H. destruct H as [d [_ H]].
  apply bind_ok_inv in H. destruct H as [[[[c1 c2] c3] c4] [Hc H]].
  rewrite Hp in H. cbn [bind] in H.
  apply bind_ok_inv in H. destruct H as [terms [Ht H]].
  injection H as <-. exists terms. split; [reflexivity |].
  split.
  { apply mapM_length in Ht. rewrite Ht, py_range_length. lia. }
  intros i Hi.
  destruct (mapM_nth _ _ _ i (0 + Z.of_nat i)%Z Ht) as [t [Hnth Hf]].
  { apply py_range_nth. lia. }
  rewrite Z.add_0_l in Hf.
  apply bind_ok_inv in Hf. destruct Hf as [n1 [N1 Hf]].
  apply bind_ok_inv in Hf. destruct Hf as [q1 [Q1 Hf]].
  apply bind_ok_inv in Hf. destruct Hf as [n2 [N2 Hf]].
  apply bind_ok_inv in Hf. destruct Hf as [q2 [Q2 Hf]].
  apply bind_ok_inv in Hf. destruct Hf as [n3 [N3 Hf]].
  apply bind_ok_inv in Hf. destruct Hf as [q3 [Q3 Hf]].
  apply bind_ok_inv in Hf. destruct Hf as [n4 [N4 Hf]].
  apply bind_ok_inv in Hf. destruct Hf as [q4 [Q4 Hf]].
  injection Hf as <-.
  apply py_index_nth_error in Q1, Q2, Q3, Q4.
  apply py_index_ok_inv in N1, N2, N3, N4.
  exists n1, n2, n3, n4, q1, q2, q3, q4.
  repeat split; try assumption;
    apply (type2_counts_In _ _ _ _ _ _ Hc);
    repeat (apply in_or_app; auto; right); auto.
Qed.





Section LikelihoodSign.

Variable parameters : list fval.
Variable io : inputObj.
Variable N : nat.

Hypothesis HN : nRatings io = Z.of_nat N.
Hypothesis HN1 : (1 <= N)%nat.
Hypothesis Hlen : length parameters = (2 * N - 1)%nat.
Hypothesis Hfin : Forall is_finite parameters.

Local Abbreviation c := (criterion_at parameters (nRatings io)).

Hypothesis Hsorted :
  forall (i j : nat) (a b : R),
    (i <= j)%nat -> c i = Fin a -> c j = Fin b -> (a <= b)%R.






End LikelihoodSign.

Lemma log_likelihood_not_finite (parameters : list fval) (io : inputObj)
    (p1 p2 p3 p4 : list fval) (logL : fval) :
  type2_probabilities parameters io = Ok (p1, p2, p3, p4) ->
  Exists (fun p => forall r, p = Fin r -> (r <= 0)%R)
         (p1 ++ p2 ++ p3 ++ p4) ->
  log_likelihood parameters io = Ok logL -> ~ is_finite logL.
Proof.
  intros Hp Hex HlogL.
  destruct (log_likelihood_weighted_terms _ _ _ _ _ _ _ Hp HlogL)
    as [terms [-> [_ Hterms]]].
  destruct (type2_probabilities_lengths _ _ _ _ _ _ Hp) as [L1 [L2 [L3 L4]]].
  apply np_sum_not_finite. apply Exists_exists.
  apply Exists_exists in Hex. destruct Hex as [p [Hin Hbad]].
  assert (Hi : exists i, (i < Z.to_nat (nRatings io))%nat /\
                         (nth_error p1 i = Some p \/
                          nth_error p2 i = Some p \/
                          nth_error p3 i = Some p \/
                          nth_error p4 i = Some p)).
  { repeat (apply in_app_or in Hin; destruct Hin as [Hin | Hin]);
      apply In_nth_error in Hin; destruct Hin as [i Hi];
      exists i; (split; [| tauto]);
      apply nth_error_lt in Hi; lia. }
  destruct Hi as [i [Hi Hnth]].
  destruct (Hterms i Hi)
    as [n1 [n2 [n3 [n4 [q1 [q2 [q3 [q4
         [_ [_ [_ [_ [Q1 [Q2 [Q3 [Q4 Ht]]]]]]]]]]]]]]]].
  eexists. split; [eapply nth_error_In; exact Ht |].
  destruct Hnth as [E | [E | [E | E]]].
  - rewrite E in Q1. injection Q1 as <-.
    do 3 apply fadd_not_finite_l. now apply weighted_log_not_finite.
  - rewrite E in Q2. injection Q2 as <-.
    do 2 apply fadd_not_finite_l. apply fadd_not_finite_r.
    now apply weighted_log_not_finite.
  - rewrite E in Q3. injection Q3 as <-.
    apply fadd_not_finite_l, fadd_not_finite_r.
    now apply weighted_log_not_finite.
  - rewrite E in Q4. injection Q4 as <-.
    apply fadd_not_finite_r. now apply weighted_log_not_finite.
Qed.

(** X15.  The penalty value.  Whenever one of the type 2 probabilities of
    the parameter vector is not a positive number (it is 0, negative, an
    infinity or [nan]), the sum of line 241 is not finite whatever the
    counts are, and [fit_meta_d_logL] returns exactly [1e300]. *)
Theorem fit_meta_d_logL_penalty (parameters : list fval) (io : inputObj)
    (prC_rS1 prI_rS1 prC_rS2 prI_rS2 : list fval) (v : fval) :
  type2_probabilities parameters io
  = Ok (prC_rS1, prI_rS1, prC_rS2, prI_rS2) ->
  Exists (fun p => forall r, p = Fin r -> (r <= 0)%R)
         (prC_rS1 ++ prI_rS1 ++ prC_rS2 ++ prI_rS2) ->
  fit_meta_d_logL parameters io = Ok v -> v = Fin 1e300.
Proof.
  intros Hp Hex H. unfold fit_meta_d_logL in H.
  apply bind_ok_inv in H. destruct H as [logL [HlogL H]].
  injection H as <-.
  rewrite guard_logL_not_finite; [cbn [fneg]; f_equal; lra |].
  exact (log_likelihood_not_finite _ _ _ _ _ _ _ Hp Hex HlogL).
Qed.

Lemma fit_meta_d_logL_penalty_witness :
  fit_meta_d_logL [Fin 2; Fin (-0.5); Fin 0.5] uniform_io = Ok (Fin 1e300).
Proof.
  destruct (@fit_meta_d_logL_returns [Fin 2; Fin (-0.5); Fin 0.5]
              uniform_io 2) as [v Hv]; try reflexivity;
    [lia | cbn [s uniform_io]; lra | eexists; reflexivity |].
  pose proof (@type2_probabilities_eval
                [Fin 2; Fin (-0.5); Fin 0.5] uniform_io 2
                eq_refl (le_S _ _ (le_n 1)) eq_refl
                _ _ _ _ (uniform_io_distributions 2)) as Hp.
  cbv zeta in Hp. rewrite Hv. f_equal.
  apply (fit_meta_d_logL_penalty _ _ _ _ _ _ v Hp); [| exact Hv].
  cbn [seq map app]. apply Exists_cons_hd.
  intros r E. exfalso.
  cbn [fncdf uniform_io] in E.
  rewrite (@uniform_cdf_left 0 (2 / 2) 1) in E by lra.
  apply (proj1 (fdiv_by_zero _)) with (1 := ex_intro _ r E).
Defined.




(** ** Further properties of [fit_meta_d_MLE] *)

(** ** Errors raised before the optimizer is called *)

Lemma even_length_half (l : list R) (K : nat) :
  length l = (2 * K)%nat -> (length l / 2 = K)%nat.
Proof. intros H. rewrite H, Nat.mul_comm. apply Nat.div_mul. discriminate. Qed.

Lemma even_length_mod (l : list R) (K : nat) :
  length l = (2 * K)%nat -> (length l mod 2 =? 0)%nat = true.
Proof.
  intros H. apply Nat.eqb_eq. rewrite H, Nat.mul_comm.
  apply Nat.Div0.mod_mul.
Qed.

(** X17.  The checks on the inputs.  An odd number of counts raises the
    first [TypeError] (the [raise] of a string), whatever the second vector
    is; an even number with a second vector of another length raises the
    second one; two empty vectors pass both checks and make [np.ones]
    raise [ValueError] on the dimension -1.  The optimizer is not called in
    any of these cases. *)
Theorem fit_meta_d_MLE_input_errors (minimize : minimizer)
    (nR_S1 nR_S2 : list R) (s : R)
    (fncdf : fval -> fval -> fval -> fval) (fninv : fval -> fval) :
  let result := fit_meta_d_MLE minimize nR_S1 nR_S2 s fncdf fninv in
  (Nat.Odd (length nR_S1) ->
   result = Raise (TypeError
                     "input arrays must have an even number of elements")) /\
  (Nat.Even (length nR_S1) -> length nR_S1 <> length nR_S2 ->
   result = Raise (TypeError
                     "input arrays must have the same number of elements")) /\
  (nR_S1 = [] -> nR_S2 = [] -> result = Raise ValueError).
Proof.
  cbv zeta. unfold fit_meta_d_MLE. split; [| split].
  - intros [m Hm].
    assert (E : (length nR_S1 mod 2 = 1)%nat).
    { rewrite Hm, Nat.add_comm, Nat.mul_comm, Nat.Div0.mod_add.
      reflexivity. }
    rewrite E. reflexivity.
  - intros [k Hk] Hne. rewrite (even_length_mod _ k Hk). cbn [negb].
    destruct (Nat.eqb_spec (length nR_S1) (length nR_S2)); [contradiction |].
    reflexivity.
  - intros -> ->. reflexivity.
Qed.

Lemma py_range_cons (a b : Z) :
  (a < b)%Z -> py_range a b = a :: py_range (a + 1) b.
Proof.
  intros H. unfold py_range.
  replace (Z.to_nat (b - a)) with (S (Z.to_nat (b - (a + 1)))) by lia.
  cbn [seq map]. f_equal; [lia |].
  rewrite <- seq_shift, map_map. apply map_ext. intros i. lia.
Qed.

Lemma rating_rates_zero_total (nR_S1 nR_S2 : list R) (K : nat) :
  (1 <= K)%nat -> (py_sum nR_S2 = 0 \/ py_sum nR_S1 = 0)%R ->
  rating_rates nR_S1 nR_S2 (Z.of_nat K) = Raise ZeroDivisionError.
Proof.
  intros HK H0. unfold rating_rates.
  rewrite py_range_cons by lia. cbn [mapM bind].
  unfold pydiv at 1.
  destruct (Reqb_spec (py_sum nR_S2) 0) as [E2 | E2]; [reflexivity |].
  cbn [bind]. destruct H0 as [H0 | H0]; [contradiction |].
  rewrite H0, pydiv_zero. reflexivity.
Qed.

Lemma rating_rates_lengths (nR_S1 nR_S2 : list R) (n : Z)
    (hr far : list R) :
  rating_rates nR_S1 nR_S2 n = Ok (hr, far) ->
  length hr = Z.to_nat (n * 2 - 1) /\ length far = Z.to_nat (n * 2 - 1).
Proof.
  unfold rating_rates. intros H.
  apply bind_ok_inv in H. destruct H as [rates [Hr H]].
  injection H as <- <-. apply mapM_length in Hr.
  now rewrite !length_map, Hr, py_range_length.
Qed.

Lemma initial_estimate_zero_division (nR_S1 nR_S2 : list R) (s : R)
    (fninv : fval -> fval) (K : nat) :
  length nR_S1 = (2 * K)%nat -> (1 <= K)%nat ->
  (py_sum nR_S2 = 0 \/ py_sum nR_S1 = 0 \/ s = 0 \/ s = -1)%R ->
  initial_estimate nR_S1 nR_S2 s fninv = Raise ZeroDivisionError.
Proof.
  intros Hlen HK H0. unfold initial_estimate.
  rewrite (even_length_half _ K Hlen).
  destruct (Req_dec_T (py_sum nR_S2) 0) as [E2 | E2].
  { rewrite rating_rates_zero_total by auto. reflexivity. }
  destruct (Req_dec_T (py_sum nR_S1) 0) as [E1 | E1].
  { rewrite rating_rates_zero_total by auto. reflexivity. }
  rewrite (@rating_rates_eval nR_S1 nR_S2 K E1 E2). cbn [bind].
  destruct (Req_dec_T s 0) as [Es | Es].
  { rewrite Es, pydiv_zero. reflexivity. }
  rewrite (pydiv_ok 1 Es). cbn [bind].
  rewrite (@py_index_nth _ _ (Z.of_nat K - 1) 0%R)
    by (rewrite length_map, length_seq; lia).
  cbn [bind].
  rewrite (@py_index_nth _ _ (Z.of_nat K - 1) 0%R)
    by (rewrite length_map, length_seq; lia).
  cbn [bind].
  destruct H0 as [H0 | [H0 | [H0 | H0]]]; try contradiction.
  replace (1 + s)%R with 0%R by lra. rewrite pydiv_zero. reflexivity.
Qed.

(** X18.  Divisions by zero before the optimizer is called.  For count
    vectors of [2K >= 2] plain Python numbers, a vector whose counts sum to
    0, [s = 0] and [s = -1] each make [fit_meta_d_MLE] raise
    [ZeroDivisionError] (lines 448, 449, 455 and 458), whatever the
    optimizer and the distribution are. *)
Theorem fit_meta_d_MLE_zero_division (minimize : minimizer)
    (nR_S1 nR_S2 : list R) (s : R)
    (fncdf : fval -> fval -> fval -> fval) (fninv : fval -> fval)
    (K : nat) :
  length nR_S1 = (2 * K)%nat -> length nR_S2 = (2 * K)%nat ->
  (1 <= K)%nat ->
  (py_sum nR_S2 = 0 \/ py_sum nR_S1 = 0 \/ s = 0 \/ s = -1)%R ->
  fit_meta_d_MLE minimize nR_S1 nR_S2 s fncdf fninv
  = Raise ZeroDivisionError.
Proof.
  intros H1 H2 HK H0. unfold fit_meta_d_MLE.
  rewrite (even_length_mod _ K H1), H1, H2, Nat.eqb_refl. cbn [negb].
  rewrite <- H1.
  pose proof (@constraint_system_eval nR_S1) as Hcs. cbv zeta in Hcs.
  rewrite Hcs by (rewrite (even_length_half _ K H1); lia). cbn [bind].
  rewrite (initial_estimate_zero_division _ _ _ _ K) by assumption.
  reflexivity.
Qed.

Lemma fit_meta_d_MLE_zero_division_witness :
  fit_meta_d_MLE (minimize_at (fun g => g)) [3; 3; 1; 1]%R [1; 1; 3; 3]%R
                 (-1) uniform_cdf uniform_ppf
  = Raise ZeroDivisionError.
Proof.
  apply (fit_meta_d_MLE_zero_division _ _ _ _ _ _ 2);
    [reflexivity | reflexivity | lia |].
  right. right. right. reflexivity.
Defined.

(** ** The call of the optimizer *)





(** ** The packaged result *)

Ltac package_inversion H fit :=
  let meta_d1 := fresh "meta_d1" in
  let o1 := fresh "o1" in
  let o2 := fresh "o2" in
  let S2sd := fresh "S2sd" in
  let est := fresh "est" in
  let r := fresh "r" in
  let Hm := fresh "Hm" in
  let Ho1 := fresh "Ho1" in
  let Ho2 := fresh "Ho2" in
  let Hsd := fresh "Hsd" in
  let Hest := fresh "Hest" in
  let Hr := fresh "Hr" in
  apply bind_ok_inv in H; destruct H as [meta_d1 [Hm H]];
  apply bind_ok_inv in H; destruct H as [o1 [Ho1 H]];
  apply bind_ok_inv in H; destruct H as [o2 [Ho2 H]];
  apply bind_ok_inv in H; destruct H as [S2sd [Hsd H]];
  apply bind_ok_inv in H; destruct H as [est [Hest H]];
  apply bind_ok_inv in H; destruct H as [r [Hr H]];
  apply (f_equal (fun o => match o with Ok y => y | Raise _ => fit end)) in H;
  cbv beta iota in H; subst fit.

Lemma observed_rates_py_length (counts : list R) (n : Z) (l : list fval) :
  observed_rates_py counts n = Ok l -> length l = Z.to_nat (n - 1).
Proof.
  unfold observed_rates_py. intros H. apply mapM_length in H.
  rewrite H, py_range_length. lia.
Qed.

Lemma observed_rates_np_length (counts : list R) (n : Z) :
  length (observed_rates_np counts n) = Z.to_nat (n - 1).
Proof.
  unfold observed_rates_np. rewrite length_map, py_range_length. lia.
Qed.

Lemma fit_meta_d_MLE_ok_inv (minimize : minimizer) (nR_S1 nR_S2 : list R)
    (s : R) (fncdf : fval -> fval -> fval -> fval) (fninv : fval -> fval)
    (fit : FitResult) :
  fit_meta_d_MLE minimize nR_S1 nR_S2 s fncdf fninv = Ok fit ->
  exists K init results,
    length nR_S1 = (2 * K)%nat /\ length nR_S2 = (2 * K)%nat /\
    (1 <= K)%nat /\
    initial_estimate nR_S1 nR_S2 s fninv = Ok init /\
    package nR_S1 nR_S2 s fncdf (init_d1 init) (init_t1c1 init) results
    = Ok fit.
Proof.
  unfold fit_meta_d_MLE. intros H.
  destruct (Nat.eqb_spec (length nR_S1 mod 2) 0) as [Emod | Emod];
    cbn [negb] in H; [| discriminate].
  destruct (Nat.eqb_spec (length nR_S1) (length nR_S2)) as [Elen | Elen];
    cbn [negb] in H; [| discriminate].
  apply bind_ok_inv in H. destruct H as [cs [Hcs H]].
  apply bind_ok_inv in H. destruct H as [init [Hinit H]].
  apply bind_ok_inv in H. destruct H as [bounds [_ H]].
  apply bind_ok_inv in H. destruct H as [linear_constraint [_ H]].
  apply bind_ok_inv in H. destruct H as [results [_ H]].
  apply Nat.Div0.mod_divides in Emod. destruct Emod as [K HK].
  exists K, init, results.
  split; [exact HK |]. split; [now rewrite <- Elen |].
  split; [| now split].
  destruct K as [| K]; [| lia]. exfalso.
  destruct nR_S1; [| discriminate]. discriminate.
Qed.

(** X20.  The shape of the result.  In every result of [fit_meta_d_MLE],
    with [K = len(nR_S1) / 2 >= 1], each of the eight lists of observed and
    estimated type 2 rates has [K - 1] entries, and so have [t2ca_rS1] and
    [t2c1_rS1]; [t2ca_rS2] and [t2c1_rS2] have the same number of entries,
    at least [K - 1]. *)
Theorem fit_meta_d_MLE_result_shape (minimize : minimizer)
    (nR_S1 nR_S2 : list R) (s : R)
    (fncdf : fval -> fval -> fval -> fval) (fninv : fval -> fval)
    (fit : FitResult) :
  fit_meta_d_MLE minimize nR_S1 nR_S2 s fncdf fninv = Ok fit ->
  let K := (length nR_S1 / 2)%nat in
  (1 <= K)%nat /\ length nR_S1 = (2 * K)%nat /\
  length (obs_HR2_rS1 fit) = (K - 1)%nat /\
  length (obs_FAR2_rS1 fit) = (K - 1)%nat /\
  length (obs_HR2_rS2 fit) = (K - 1)%nat /\
  length (obs_FAR2_rS2 fit) = (K - 1)%nat /\
  length (est_HR2_rS1 fit) = (K - 1)%nat /\
  length (est_FAR2_rS1 fit) = (K - 1)%nat /\
  length (est_HR2_rS2 fit) = (K - 1)%nat /\
  length (est_FAR2_rS2 fit) = (K - 1)%nat /\
  length (t2ca_rS1 fit) = (K - 1)%nat /\
  length (S1_t2c1_rS1 (S1units_ fit)) = (K - 1)%nat /\
  (K - 1 <= length (t2ca_rS2 fit))%nat /\
  length (S1_t2c1_rS2 (S1units_ fit)) = length (t2ca_rS2 fit).
Proof.
  intros H. cbv zeta.
  destruct (fit_meta_d_MLE_ok_inv _ _ _ _ _ _ _ H)
    as [K [init [results [H1 [H2 [HK [_ Hpack]]]]]]].
  rewrite (even_length_half _ K H1).
  unfold_package_in Hpack. rewrite (even_length_half _ K H1) in Hpack.
  package_inversion Hpack fit.
  cbn [obs_HR2_rS1 obs_FAR2_rS1 obs_HR2_rS2 obs_FAR2_rS2
       est_HR2_rS1 est_FAR2_rS1 est_HR2_rS2 est_FAR2_rS2
       t2ca_rS1 t2ca_rS2 S1units_ S1_t2c1_rS1 S1_t2c1_rS2].
  apply observed_rates_py_length in Ho1, Ho2.
  pose proof Hest as Lest. apply mapM_length in Lest.
  rewrite py_range_length in Lest.
  rewrite !observed_rates_np_length, !length_map, Ho1, Ho2, Lest.
  set (t2c1 := map _ (py_slice_from (x results) 1)) in *.
  assert (Lt : (2 * K - 2 <= length t2c1)%nat).
  { destruct (Nat.eq_dec K 1) as [-> | HK1]; [simpl; lia |].
    assert (Hin : In (Z.of_nat K - 2)%Z (py_range 0 (Z.of_nat K - 1)))
      by (apply py_range_In; lia).
    destruct (mapM_ok_inv _ _ _ Hest _ Hin) as [e He].
    apply bind_ok_inv in He. destruct He as [lo [_ He]].
    apply bind_ok_inv in He. destruct He as [hi [Hhi _]].
    apply py_index_ok_bound in Hhi; lia. }
  rewrite !py_slice_prefix_length, !py_slice_from_length, !length_map by lia.
  fold t2c1. repeat split; lia.
Qed.

(** A run on which the function returns: the uniform family, an optimizer
    that stays at the initial guess. *)
Lemma uniform_run_returns :
  exists fit,
    fit_meta_d_MLE (minimize_at (fun g => g))
                   [3; 3; 1; 1]%R [1; 1; 3; 3]%R 1 uniform_cdf uniform_ppf
    = Ok fit /\
    S1_d1 (S1units_ fit) = Fin 0.5 /\ S1_meta_d1 (S1units_ fit) = Fin 0.5.
Proof.
  destruct (@fit_meta_d_logL_returns [Fin 0.5; Fin (-0.25); Fin 0.25]
              {| nR_S1 := [3; 3; 1; 1]%R; nR_S2 := [1; 1; 3; 3]%R;
                 nRatings := Z.of_nat 2;
                 d1 := Numpy (Fin 0.5); t1c1 := Numpy (Fin (-0.5));
                 s := 1;
                 constant_criterion := relative_criterion;
                 fncdf := uniform_cdf; fninv := uniform_ppf |} 2)
    as [v Hv]; try reflexivity;
    [lia | cbn [s]; lra | eexists; reflexivity |].
  pose proof (@fit_meta_d_MLE_minimize_at
                (fun g => g)
                [3; 3; 1; 1]%R [1; 1; 3; 3]%R 1 uniform_cdf uniform_ppf 2
                _ v eq_refl eq_refl (le_n 2)
                initial_estimate_uniform_example Hv) as Hfit.
  cbn [init_d1 init_t1c1 guess] in Hfit. rewrite Hfit.
  destruct (@package_returns [3; 3; 1; 1]%R [1; 1; 3; 3]%R 1 uniform_cdf
              (Fin 0.5) (Fin (-0.5))
              {| x := [Fin 0.5; Fin (-0.25); Fin 0.25]; fun_ := v |} 2)
    as [fit Hpack]; try reflexivity;
    try (rewrite py_slice_from_skipn; unfold py_sum; cbn [skipn fold_left]);
    try lra; [lia |].
  exists fit. split; [exact Hpack |].
  unfold_package_in Hpack. package_inversion Hpack fit.
  cbn [S1units_ S1_d1 S1_meta_d1]. split; [reflexivity |].
  change (py_index (x {| x := [Fin 0.5; Fin (-0.25); Fin 0.25];
                         fun_ := v |}) 0)
    with (Ok (Fin 0.5)) in Hm.
  now injection Hm as <-.
Qed.

Lemma fit_meta_d_MLE_result_shape_witness :
  exists fit,
    fit_meta_d_MLE (minimize_at (fun g => g))
                   [3; 3; 1; 1]%R [1; 1; 3; 3]%R 1 uniform_cdf uniform_ppf
    = Ok fit /\
    length (obs_HR2_rS1 fit) = 1%nat /\ length (est_FAR2_rS2 fit) = 1%nat.
Proof.
  destruct uniform_run_returns as [fit [Hfit [Ed Em]]]. exists fit.
  split; [exact Hfit |].
  pose proof (fit_meta_d_MLE_result_shape _ _ _ _ _ _ _ Hfit) as H.
  cbv zeta in H. simpl length in H. simpl Nat.div in H.
  destruct H as [_ [_ [H1 [_ [_ [_ [_ [_ [_ [H8 _]]]]]]]]]].
  split; assumption.
Defined.

Lemma fmul_one (k : R) (v : fval) : k = 1%R -> fmul (Fin k) v = v.
Proof.
  intros ->. destruct v as [a | | |]; cbn [fmul].
  - f_equal. lra.
  - now rewrite (@Rsgn_Gt 1) by lra.
  - now rewrite (@Rsgn_Gt 1) by lra.
  - reflexivity.
Qed.

Lemma map_fmul_one (k : R) (l : list fval) :
  k = 1%R -> map (fmul (Fin k)) l = l.
Proof.
  intros Hk. rewrite <- (map_id l) at 2. apply map_ext.
  intros v. now apply fmul_one.
Qed.

(** X21.  With [s = 1] the rescaling of lines 542-557 is the identity: in
    every result, [da], [meta_da], [meta_ca], [t2ca_rS1] and [t2ca_rS2] are
    equal to the values in S1 units ([d1], [meta_d1], [meta_c1],
    [t2c1_rS1], [t2c1_rS2]). *)
Theorem fit_meta_d_MLE_unit_s (minimize : minimizer)
    (nR_S1 nR_S2 : list R)
    (fncdf : fval -> fval -> fval -> fval) (fninv : fval -> fval)
    (fit : FitResult) :
  fit_meta_d_MLE minimize nR_S1 nR_S2 1 fncdf fninv = Ok fit ->
  da fit = S1_d1 (S1units_ fit) /\
  meta_da fit = S1_meta_d1 (S1units_ fit) /\
  meta_ca fit = S1_meta_c1 (S1units_ fit) /\
  t2ca_rS1 fit = S1_t2c1_rS1 (S1units_ fit) /\
  t2ca_rS2 fit = S1_t2c1_rS2 (S1units_ fit).
Proof.
  intros H.
  destruct (fit_meta_d_MLE_ok_inv _ _ _ _ _ _ _ H)
    as [K [init [results [H1 [H2 [HK [_ Hpack]]]]]]].
  unfold_package_in Hpack. package_inversion Hpack fit.
  cbn [da meta_da meta_ca t2ca_rS1 t2ca_rS2 S1units_ S1_d1 S1_meta_d1
       S1_meta_c1 S1_t2c1_rS1 S1_t2c1_rS2].
  apply pydiv_inv in Hr. destruct Hr as [_ ->].
  assert (E2 : (2 / (1 + 1 * 1) = 1)%R) by lra.
  assert (Es : np_sqrt (Fin (2 / (1 + 1 * 1))) = Fin 1).
  { rewrite E2. cbn [np_sqrt]. rewrite (@Rsgn_Gt 1) by lra.
    now rewrite sqrt_1. }
  assert (Hsq : (0 < sqrt 2)%R) by (apply sqrt_lt_R0; lra).
  assert (Erms : fdiv (fmul (np_sqrt (Fin 2)) (Fin 1))
                      (np_sqrt (Fin (1 + 1 * 1)))
                 = Fin (sqrt 2 * 1 / sqrt 2)).
  { replace (1 + 1 * 1)%R with 2%R by lra. cbn [np_sqrt].
    rewrite (@Rsgn_Gt 2) by lra. cbn [fmul fdiv].
    now rewrite (@Reqb_false (sqrt 2) 0) by lra. }
  assert (E1 : (sqrt 2 * 1 / sqrt 2 = 1)%R) by (field; lra).
  rewrite Es, Erms.
  rewrite !(fmul_one 1 _ eq_refl).
  rewrite !(fmul_one _ _ E1), (map_fmul_one _ _ E1).
  repeat split; reflexivity.
Qed.

Lemma fit_meta_d_MLE_unit_s_witness :
  exists fit,
    fit_meta_d_MLE (minimize_at (fun g => g))
                   [3; 3; 1; 1]%R [1; 1; 3; 3]%R 1 uniform_cdf uniform_ppf
    = Ok fit /\
    da fit = S1_d1 (S1units_ fit) /\ meta_da fit = S1_meta_d1 (S1units_ fit).
Proof.
  destruct uniform_run_returns as [fit [Hfit [Ed Em]]]. exists fit.
  split; [exact Hfit |].
  destruct (fit_meta_d_MLE_unit_s _ _ _ _ _ _ Hfit) as [Hd [Hm _]].
  split; assumption.
Defined.

(** X22.  The efficiency ratio does not depend on the scaling by [s]: in
    every result with [s] other than 0, a finite non-zero [d1] and a finite
    [meta_d1], [M_ratio] is [meta_d1 / d1] and [M_diff] is
    [sqrt(2 / (1 + s^2)) * s * (meta_d1 - d1)]. *)
Theorem fit_meta_d_MLE_ratio_in_S1_units (minimize : minimizer)
    (nR_S1 nR_S2 : list R) (s : R)
    (fncdf : fval -> fval -> fval -> fval) (fninv : fval -> fval)
    (fit : FitResult) (d m : R) :
  fit_meta_d_MLE minimize nR_S1 nR_S2 s fncdf fninv = Ok fit ->
  s <> 0%R -> d <> 0%R ->
  S1_d1 (S1units_ fit) = Fin d -> S1_meta_d1 (S1units_ fit) = Fin m ->
  M_ratio fit = Fin (m / d) /\
  M_diff fit = Fin (sqrt (2 / (1 + s * s)) * s * (m - d)).
Proof.
  intros H Hs Hd Ed Em.
  destruct (fit_meta_d_MLE_ok_inv _ _ _ _ _ _ _ H)
    as [K [init [results [H1 [H2 [HK [_ Hpack]]]]]]].
  unfold_package_in Hpack. package_inversion Hpack fit.
  cbn [S1units_ S1_d1 S1_meta_d1] in Ed, Em.
  cbn [M_ratio M_diff]. rewrite Ed, Em.
  apply pydiv_inv in Hr. destruct Hr as [_ ->].
  assert (Hpos : (0 < 2 / (1 + s * s))%R)
    by (apply Rdiv_lt_0_compat; nra).
  assert (Hsq : (0 < sqrt (2 / (1 + s * s)))%R) by now apply sqrt_lt_R0.
  cbn [np_sqrt]. rewrite (@Rsgn_Gt (2 / (1 + s * s))) by exact Hpos.
  cbn [fmul fsub fneg fadd fdiv].
  set (k := sqrt (2 / (1 + s * s))) in *.
  assert (Hk : (k * s * d <> 0)%R).
  { intros E. apply Rmult_integral in E. destruct E as [E | E]; [| lra].
    apply Rmult_integral in E. destruct E; lra. }
  rewrite (@Reqb_false (k * s * d) 0) by exact Hk.
  split; f_equal; [| lra]. field. repeat split; lra.
Qed.

Lemma fit_meta_d_MLE_ratio_in_S1_units_witness :
  exists fit,
    fit_meta_d_MLE (minimize_at (fun g => g))
                   [3; 3; 1; 1]%R [1; 1; 3; 3]%R 1 uniform_cdf uniform_ppf
    = Ok fit /\
    M_ratio fit = Fin (0.5 / 0.5).
Proof.
  destruct uniform_run_returns as [fit [Hfit [Ed Em]]]. exists fit.
  split; [exact Hfit |].
  apply (fit_meta_d_MLE_ratio_in_S1_units _ _ _ _ _ _ fit 0.5 0.5 Hfit);
    try assumption; lra.
Defined.

(** ** The observed type 2 rates *)

Lemma StronglySorted_map_seq {T : Type} (rel : T -> T -> Prop)
    (f : nat -> T) (a n : nat) :
  (forall i j, (a <= i < j)%nat -> (j < a + n)%nat -> rel (f i) (f j)) ->
  StronglySorted rel (map f (seq a n)).
Proof.
  revert a. induction n as [| n IH]; intros a H; cbn [seq map].
  - constructor.
  - constructor.
    + apply IH. intros i j Hij Hj. apply H; lia.
    + apply Forall_forall. intros y Hy. apply in_map_iff in Hy.
      destruct Hy as [j [<- Hj]]. apply in_seq in Hj. apply H; lia.
Qed.

Lemma tail_sum_step (l : list R) (c : nat) :
  Forall (fun n => 0 < n)%R l -> (c < length l)%nat ->
  (py_sum (skipn (S c) l) < py_sum (skipn c l))%R.
Proof.
  intros Hpos. revert c. induction Hpos as [| a l Ha Hl IH]; intros c Hc.
  - simpl in Hc. lia.
  - destruct c as [| c].
    + cbn [skipn]. rewrite py_sum_cons. lra.
    + cbn [skipn]. apply IH. simpl in Hc. lia.
Qed.

Lemma tail_sum_decreasing (l : list R) (i j : nat) :
  Forall (fun n => 0 < n)%R l -> (i < j <= length l)%nat ->
  (py_sum (skipn j l) < py_sum (skipn i l))%R.
Proof.
  intros Hpos [Hij Hj]. induction Hij as [| j Hij IH].
  - apply tail_sum_step; [assumption | lia].
  - eapply Rlt_trans; [| apply IH; lia].
    apply tail_sum_step; [assumption | lia].
Qed.

Lemma observed_rates_decreasing (counts : list R) (K : nat) :
  Forall (fun n => 0 < n)%R counts -> length counts = K ->
  let qs := map (fun i => (py_sum (skipn (S i) counts) / py_sum counts)%R)
                (seq 0 (K - 1)) in
  Forall (fun q => 0 < q < 1)%R qs /\
  StronglySorted (fun a b => b < a)%R qs.
Proof.
  intros Hpos Hlen. cbv zeta. split.
  - apply Forall_forall. intros q Hq. apply in_map_iff in Hq.
    destruct Hq as [i [<- Hi]]. apply in_seq in Hi.
    apply cumulative_rate_interior; [assumption | lia].
  - apply StronglySorted_map_seq. intros i j Hij Hj.
    assert (Hsum : (0 < py_sum counts)%R).
    { apply py_sum_pos; [assumption |]. intros E. rewrite E in Hlen.
      simpl in Hlen. lia. }
    unfold Rdiv. apply Rmult_lt_compat_r.
    + now apply Rinv_0_lt_compat.
    + apply tail_sum_decreasing; [assumption | lia].
Qed.

Lemma observed_rates_py_eval (counts : list R) (K : nat) :
  py_sum counts <> 0%R ->
  observed_rates_py counts (Z.of_nat K)
  = Ok (map Fin
            (map (fun i => (py_sum (skipn (S i) counts) / py_sum counts)%R)
                 (seq 0 (K - 1)))).
Proof.
  intros Hsum. unfold observed_rates_py.
  rewrite (mapM_range_pure _
    (fun i => Fin (py_sum (skipn (S i) counts) / py_sum counts))).
  - replace (Z.to_nat (Z.of_nat K - 1)) with (K - 1)%nat by lia.
    now rewrite map_map.
  - intros i Hi.
    replace (Z.of_nat i + 1)%Z with (Z.of_nat (S i)) by lia.
    rewrite py_slice_from_skipn, pydiv_ok by exact Hsum. reflexivity.
Qed.

Lemma observed_rates_np_eval (counts : list R) (K : nat) :
  py_sum counts <> 0%R ->
  observed_rates_np counts (Z.of_nat K)
  = map Fin
        (map (fun i => (py_sum (skipn (S i) counts) / py_sum counts)%R)
             (seq 0 (K - 1))).
Proof.
  intros Hsum. unfold observed_rates_np, py_range.
  replace (Z.to_nat (Z.of_nat K - 1 - 0)) with (K - 1)%nat by lia.
  rewrite !map_map. apply map_ext. intros i.
  replace (0 + Z.of_nat i + 1)%Z with (Z.of_nat (S i)) by lia.
  rewrite py_slice_from_skipn. now apply fdiv_finite.
Qed.

Lemma positive_sublist (l l' : list R) :
  Forall (fun n => 0 < n)%R l -> (forall a, In a l' -> In a l) ->
  Forall (fun n => 0 < n)%R l'.
Proof.
  intros H Hin. rewrite Forall_forall in *. auto.
Qed.

(** X23.  When every count is strictly positive, each of the four lists of
    observed type 2 rates in the result ([obs_HR2_rS1], [obs_FAR2_rS1],
    [obs_HR2_rS2], [obs_FAR2_rS2]) consists of [K - 1] numbers strictly
    between 0 and 1 that strictly decrease with the rating. *)
Theorem fit_meta_d_MLE_observed_rates (minimize : minimizer)
    (nR_S1 nR_S2 : list R) (s : R)
    (fncdf : fval -> fval -> fval -> fval) (fninv : fval -> fval)
    (fit : FitResult) :
  Forall (fun n => 0 < n)%R nR_S1 -> Forall (fun n => 0 < n)%R nR_S2 ->
  fit_meta_d_MLE minimize nR_S1 nR_S2 s fncdf fninv = Ok fit ->
  decreasing_rates (obs_HR2_rS1 fit) /\
  decreasing_rates (obs_FAR2_rS1 fit) /\
  decreasing_rates (obs_HR2_rS2 fit) /\
  decreasing_rates (obs_FAR2_rS2 fit).
Proof.
  intros P1 P2 H.
  destruct (fit_meta_d_MLE_ok_inv _ _ _ _ _ _ _ H)
    as [K [init [results [H1 [H2 [HK [_ Hpack]]]]]]].
  unfold_package_in Hpack. rewrite (even_length_half _ K H1) in Hpack.
  package_inversion Hpack fit.
  cbn [obs_HR2_rS1 obs_FAR2_rS1 obs_HR2_rS2 obs_FAR2_rS2].
  set (I2 := py_slice_from nR_S1 (Z.of_nat K)) in *.
  set (C2 := py_slice_from nR_S2 (Z.of_nat K)) in *.
  set (I1 := rev (py_slice nR_S2 0 (Z.of_nat K))).
  set (C1 := rev (py_slice nR_S1 0 (Z.of_nat K))).
  assert (PI2 : Forall (fun n => 0 < n)%R I2)
    by (apply (positive_sublist nR_S1); [assumption |];
        intros a; apply py_slice_from_incl).
  assert (PC2 : Forall (fun n => 0 < n)%R C2)
    by (apply (positive_sublist nR_S2); [assumption |];
        intros a; apply py_slice_from_incl).
  assert (PI1 : Forall (fun n => 0 < n)%R I1)
    by (apply (positive_sublist nR_S2); [assumption |];
        intros a Ha; apply in_rev in Ha; eapply py_slice_incl, Ha).
  assert (PC1 : Forall (fun n => 0 < n)%R C1)
    by (apply (positive_sublist nR_S1); [assumption |];
        intros a Ha; apply in_rev in Ha; eapply py_slice_incl, Ha).
  assert (LI2 : length I2 = K)
    by (unfold I2; rewrite py_slice_from_length by lia; lia).
  assert (LC2 : length C2 = K)
    by (unfold C2; rewrite py_slice_from_length by lia; lia).
  assert (LI1 : length I1 = K)
    by (unfold I1; rewrite length_rev, py_slice_prefix_length by lia; lia).
  assert (LC1 : length C1 = K)
    by (unfold C1; rewrite length_rev, py_slice_prefix_length by lia; lia).
  assert (Hne : forall l, Forall (fun n => 0 < n)%R l -> length l = K ->
                          py_sum l <> 0%R).
  { intros l Pl Ll. apply Rgt_not_eq, py_sum_pos; [assumption |].
    intros E. rewrite E in Ll. simpl in Ll. lia. }
  rewrite (observed_rates_py_eval I2 K (Hne _ PI2 LI2)) in Ho1.
  rewrite (observed_rates_py_eval C2 K (Hne _ PC2 LC2)) in Ho2.
  injection Ho1 as <-. injection Ho2 as <-.
  rewrite (observed_rates_np_eval I1 K (Hne _ PI1 LI1)).
  rewrite (observed_rates_np_eval C1 K (Hne _ PC1 LC1)).
  repeat split; eexists; (split; [reflexivity |]);
    now apply observed_rates_decreasing.
Qed.

Lemma fit_meta_d_MLE_observed_rates_witness :
  exists fit,
    fit_meta_d_MLE (minimize_at (fun g => g))
                   [3; 3; 1; 1]%R [1; 1; 3; 3]%R 1 uniform_cdf uniform_ppf
    = Ok fit /\
    decreasing_rates (obs_HR2_rS2 fit).
Proof.
  destruct uniform_run_returns as [fit [Hfit _]]. exists fit.
  split; [exact Hfit |].
  apply (fit_meta_d_MLE_observed_rates _ _ _ _ _ _ fit) in Hfit.
  - destruct Hfit as [_ [_ [H _]]]. exact H.
  - repeat constructor; lra.
  - repeat constructor; lra.
Defined.

(** ** Response categories that were never used *)

Lemma py_sum_rev (l : list R) : py_sum (rev l) = py_sum l.
Proof.
  induction l as [| a l IH]; [reflexivity |].
  cbn [rev]. rewrite py_sum_app, IH, !py_sum_cons.
  unfold py_sum. simpl. lra.
Qed.

Lemma observed_rates_py_ok_inv (counts : list R) (n : Z) (l : list fval) :
  (2 <= n)%Z -> observed_rates_py counts n = Ok l -> py_sum counts <> 0%R.
Proof.
  intros Hn H. unfold observed_rates_py in H.
  rewrite py_range_cons in H by lia. cbn [mapM] in H.
  apply bind_ok_inv in H. destruct H as [b [Hb _]].
  apply bind_ok_inv in Hb. destruct Hb as [q [Hq _]].
  now apply pydiv_inv in Hq.
Qed.

Lemma observed_rates_np_zero_total (counts : list R) (n : Z) :
  py_sum counts = 0%R ->
  Forall (fun q => ~ is_finite q) (observed_rates_np counts n).
Proof.
  intros H0. unfold observed_rates_np. apply Forall_forall.
  intros q Hq. apply in_map_iff in Hq. destruct Hq as [i [<- _]].
  rewrite H0. apply fdiv_by_zero.
Qed.

(** X24.  Response categories without trials ([K >= 2], counts given as
    Python lists).  When the counts of the "S2" responses sum to 0 in
    [nR_S1] or in [nR_S2], the quotient of line 494 or 496 raises and
    [fit_meta_d_MLE] returns no result, whatever the optimizer found.  When
    the counts of the "S1" responses sum to 0, the same quotient is taken on
    NumPy numbers (lines 498 and 500): the function can return, and then
    every entry of the observed rate list concerned is [nan] or an
    infinity. *)
Theorem fit_meta_d_MLE_unused_responses (minimize : minimizer)
    (nR_S1 nR_S2 : list R) (s : R)
    (fncdf : fval -> fval -> fval -> fval) (fninv : fval -> fval) :
  let K := Z.of_nat (length nR_S1 / 2) in
  (2 <= K)%Z ->
  ((py_sum (py_slice_from nR_S1 K) = 0 \/
    py_sum (py_slice_from nR_S2 K) = 0)%R ->
   forall fit, fit_meta_d_MLE minimize nR_S1 nR_S2 s fncdf fninv <> Ok fit)
  /\
  (forall fit,
      fit_meta_d_MLE minimize nR_S1 nR_S2 s fncdf fninv = Ok fit ->
      (py_sum (py_slice nR_S2 0 K) = 0%R ->
       obs_FAR2_rS1 fit <> [] /\
       Forall (fun q => ~ is_finite q) (obs_FAR2_rS1 fit)) /\
      (py_sum (py_slice nR_S1 0 K) = 0%R ->
       obs_HR2_rS1 fit <> [] /\
       Forall (fun q => ~ is_finite q) (obs_HR2_rS1 fit))).
Proof.
  cbv zeta. intros HK. split.
  - intros H0 fit H.
    destruct (fit_meta_d_MLE_ok_inv _ _ _ _ _ _ _ H)
      as [K [init [results [H1 [H2 [_ [_ Hpack]]]]]]].
    unfold_package_in Hpack. package_inversion Hpack fit.
    apply observed_rates_py_ok_inv in Ho1, Ho2; try exact HK.
    destruct H0; contradiction.
  - intros fit H.
    destruct (fit_meta_d_MLE_ok_inv _ _ _ _ _ _ _ H)
      as [K [init [results [H1 [H2 [_ [_ Hpack]]]]]]].
    unfold_package_in Hpack. package_inversion Hpack fit.
    cbn [obs_FAR2_rS1 obs_HR2_rS1].
    assert (Hne : forall counts,
               observed_rates_np counts (Z.of_nat (length nR_S1 / 2)) <> []).
    { intros counts E. apply (f_equal (@length fval)) in E.
      rewrite observed_rates_np_length in E. cbn [length] in E. lia. }
    split; intros H0; (split; [apply Hne |]);
      apply observed_rates_np_zero_total; now rewrite py_sum_rev.
Qed.

Lemma fit_meta_d_MLE_unused_responses_witness :
  ~ (exists fit,
        fit_meta_d_MLE (minimize_at (fun g => g))
                       [1; 1; 0; 0]%R [1; 1; 1; 1]%R 1
                       uniform_cdf uniform_ppf
        = Ok fit).
Proof.
  destruct (fit_meta_d_MLE_unused_responses
              (minimize_at (fun g => g))
              [1; 1; 0; 0]%R [1; 1; 1; 1]%R 1 uniform_cdf uniform_ppf)
    as [H _].
  - simpl. lia.
  - assert (H0 : (py_sum (py_slice_from [1; 1; 0; 0]%R
                            (Z.of_nat (length [1; 1; 0; 0]%R / 2))) = 0
                  \/ py_sum (py_slice_from [1; 1; 1; 1]%R
                               (Z.of_nat (length [1; 1; 0; 0]%R / 2))) = 0)%R).
    { left. simpl Nat.div. rewrite py_slice_from_skipn.
      unfold py_sum. cbn [skipn fold_left]. lra. }
    exact (fun Hex => match Hex with
                      | ex_intro _ fit Hfit => H H0 fit Hfit
                      end).
Defined.

(** ** Mirror-symmetric data *)

Lemma py_sum_firstn_skipn (l : list R) (c : nat) :
  py_sum l = (py_sum (firstn c l) + py_sum (skipn c l))%R.
Proof. now rewrite <- py_sum_app, firstn_skipn. Qed.

Lemma mirrored_tail_sum (l : list R) (K : nat) :
  length l = (2 * K)%nat ->
  py_sum (skipn K (rev l)) = (py_sum l - py_sum (skipn K l))%R.
Proof.
  intros Hlen. rewrite skipn_rev, py_sum_rev.
  replace (length l - K)%nat with K by lia.
  rewrite (py_sum_firstn_skipn l K). lra.
Qed.

Lemma nth_map_lt {X Y : Type} (f : X -> Y) (l : list X) (i : nat)
    (d : Y) (d' : X) :
  (i < length l)%nat -> nth i (map f l) d = f (nth i l d').
Proof.
  intros H. rewrite (nth_indep _ d (f d')) by now rewrite length_map.
  apply map_nth.
Qed.

(** X25.  Mirror-symmetric data give an unbiased starting point.  When
    [nR_S2] is [nR_S1] reversed (all counts positive) and the inverse
    distribution function is odd around 1/2, as [norm.ppf] is, the type 1
    hit rate is one minus the type 1 false-alarm rate and the initial type
    1 criterion [t1c1] is 0. *)
Theorem initial_estimate_symmetric (nR_S1 : list R) (s : R)
    (fninv : fval -> fval) (K : nat) :
  length nR_S1 = (2 * K)%nat -> (1 <= K)%nat ->
  Forall (fun n => 0 < n)%R nR_S1 ->
  s <> 0%R -> s <> (-1)%R ->
  (forall p, (0 < p < 1)%R ->
     exists a, fninv (Fin p) = Fin a /\ fninv (Fin (1 - p)) = Fin (- a)) ->
  exists ratingHR ratingFAR init,
    rating_rates nR_S1 (rev nR_S1) (Z.of_nat K) = Ok (ratingHR, ratingFAR) /\
    nth (K - 1) ratingHR 0%R = (1 - nth (K - 1) ratingFAR 0)%R /\
    initial_estimate nR_S1 (rev nR_S1) s fninv = Ok init /\
    init_t1c1 init = Fin 0.
Proof.
  intros Hlen HK Hpos Hs Hs1 Hodd.
  assert (N1 : py_sum nR_S1 <> 0%R).
  { apply Rgt_not_eq, py_sum_pos; [assumption |].
    intros E. rewrite E in Hlen. simpl in Hlen. lia. }
  assert (N2 : py_sum (rev nR_S1) <> 0%R) by now rewrite py_sum_rev.
  pose proof (@rating_rates_eval nR_S1 (rev nR_S1) K N1 N2) as Hrates.
  set (hr := map _ _) in Hrates. set (far := map _ _) in Hrates.
  assert (Lhr : length hr = (2 * K - 1)%nat)
    by (unfold hr; now rewrite length_map, length_seq).
  assert (Lfar : length far = (2 * K - 1)%nat)
    by (unfold far; now rewrite length_map, length_seq).
  assert (Efar : nth (K - 1) far 0%R
                 = (py_sum (skipn K nR_S1) / py_sum nR_S1)%R).
  { unfold far.
    rewrite (nth_map_lt _ _ _ _ 0%nat) by (rewrite length_seq; lia).
    rewrite seq_nth by lia.
    replace (1 + (K - 1))%nat with K by lia. reflexivity. }
  assert (Ehr : nth (K - 1) hr 0%R = (1 - nth (K - 1) far 0)%R).
  { rewrite Efar. unfold hr.
    rewrite (nth_map_lt _ _ _ _ 0%nat) by (rewrite length_seq; lia).
    rewrite seq_nth by lia.
    replace (1 + (K - 1))%nat with K by lia.
    rewrite (mirrored_tail_sum _ K Hlen), py_sum_rev. field. exact N1. }
  pose proof (@initial_estimate_eval nR_S1 (rev nR_S1) s fninv K hr far
                Hlen HK Hrates Lhr Lfar Hs ltac:(lra)) as Heval.
  cbv zeta in Heval.
  exists hr, far. eexists.
  split; [exact Hrates |]. split; [exact Ehr |]. split; [exact Heval |].
  cbn [init_t1c1]. unfold criteria_c1.
  rewrite (nth_map_lt _ _ _ _ (0%R, 0%R)) by (rewrite length_combine; lia).
  rewrite combine_nth by lia. cbn [fst snd].
  rewrite Ehr.
  destruct (Hodd (nth (K - 1) far 0%R)) as [a [Ea Ea']].
  { rewrite Efar. apply cumulative_rate_interior; [assumption | lia]. }
  rewrite Ea, Ea'. cbn [fadd fmul]. f_equal. lra.
Qed.

Lemma initial_estimate_symmetric_witness :
  exists init,
    initial_estimate [3; 3; 1; 1]%R (rev [3; 3; 1; 1]%R) 1
                     (fun q => fsub (uniform_ppf q) (Fin 0.5)) = Ok init /\
    init_t1c1 init = Fin 0.
Proof.
  destruct (initial_estimate_symmetric
              [3; 3; 1; 1]%R 1 (fun q => fsub (uniform_ppf q) (Fin 0.5)) 2)
    as [hr [far [init [_ [_ [Hinit Ht]]]]]].
  - reflexivity.
  - lia.
  - repeat constructor; lra.
  - lra.
  - lra.
  - intros p Hp. exists (p - 0.5)%R.
    rewrite !uniform_ppf_interior by lra.
    cbn [fsub fneg fadd]. split; f_equal; lra.
  - exists init. split; assumption.
Defined.

(** ** When [fit_meta_d_MLE] returns *)






(** ** The order of the initial guess *)

Lemma t2_indices_eq (K : nat) :
  (1 <= K)%nat ->
  t2_indices (Z.of_nat K) (Z.of_nat K - 1)
  = map Z.of_nat (seq 0 (K - 1) ++ seq K (K - 1)).
Proof.
  intros HK. unfold t2_indices, py_range.
  replace (Z.to_nat (2 * Z.of_nat K - 1 - 0)) with (K - 1 + S (K - 1))%nat
    by lia.
  rewrite seq_app, map_app, filter_app. cbn [seq map filter].
  destruct (Z.eqb_spec (0 + Z.of_nat (0 + (K - 1))) (Z.of_nat K - 1));
    [| lia].
  cbn [negb]. rewrite map_app. f_equal.
  - rewrite forallb_filter_id.
    + apply map_ext. intros i. lia.
    + apply forallb_forall. intros z Hz. apply in_map_iff in Hz.
      destruct Hz as [i [<- Hi]]. apply in_seq in Hi.
      apply negb_true_iff, Z.eqb_neq. lia.
  - rewrite forallb_filter_id.
    + replace (S (0 + (K - 1))) with K by lia.
      apply map_ext. intros i. lia.
    + apply forallb_forall. intros z Hz. apply in_map_iff in Hz.
      destruct Hz as [i [<- Hi]]. apply in_seq in Hi.
      apply negb_true_iff, Z.eqb_neq. lia.
Qed.

Lemma skipped_index_nth (K i : nat) :
  (i < 2 * K - 2)%nat ->
  nth_error (seq 0 (K - 1) ++ seq K (K - 1)) i
  = Some (if (i <? K - 1)%nat then i else S i).
Proof.
  intros Hi. destruct (Nat.ltb_spec i (K - 1)) as [Hlt | Hge].
  - rewrite nth_error_app1 by now rewrite length_seq.
    rewrite nth_error_seq.
    now destruct (Nat.ltb_spec i (K - 1)); [| lia].
  - rewrite nth_error_app2 by now rewrite length_seq.
    rewrite length_seq, nth_error_seq.
    destruct (Nat.ltb_spec (i - (K - 1)) (K - 1)); [| lia].
    f_equal. lia.
Qed.

Lemma tail_rate_decreasing (l : list R) (i j : nat) :
  Forall (fun n => 0 < n)%R l -> (i <= j <= length l)%nat ->
  (py_sum (skipn j l) / py_sum l <= py_sum (skipn i l) / py_sum l)%R.
Proof.
  intros Hpos Hij.
  destruct (Nat.eq_dec i j) as [-> | Hne]; [lra |].
  assert (Hne' : l <> []) by (intros ->; simpl in Hij; lia).
  pose proof (py_sum_pos Hpos Hne') as Hsum.
  unfold Rdiv. apply Rmult_le_compat_r.
  - left. now apply Rinv_0_lt_compat.
  - left. apply tail_sum_decreasing; [assumption | lia].
Qed.

(** X27.  The initial guess respects the order the constraints ask for.
    For count vectors of [2K] strictly positive counts, [s > -1] other
    than 0, an inverse distribution function that is finite and
    non-decreasing on (0, 1), and an initial d' that is not 0, the type 2
    criteria of the initial guess (its entries after the first) are [2K-2]
    finite numbers in non-decreasing order, the first [K-1] of them
    non-positive and the last [K-1] non-negative. *)
Theorem initial_estimate_ordered (nR_S1 nR_S2 : list R) (s : R)
    (fninv : fval -> fval) (quantile : R -> R) (K : nat) :
  length nR_S1 = (2 * K)%nat -> length nR_S2 = (2 * K)%nat ->
  (1 <= K)%nat ->
  Forall (fun n => 0 < n)%R nR_S1 -> Forall (fun n => 0 < n)%R nR_S2 ->
  s <> 0%R -> (-1 < s)%R ->
  (forall p, (0 < p < 1)%R -> fninv (Fin p) = Fin (quantile p)) ->
  (forall p q, (0 < p <= q)%R -> (q < 1)%R ->
               (quantile p <= quantile q)%R) ->
  exists init,
    initial_estimate nR_S1 nR_S2 s fninv = Ok init /\
    (init_d1 init <> Fin 0 ->
     exists g : list R,
       guess init = init_d1 init :: map Fin g /\
       length g = (2 * K - 2)%nat /\
       (forall i x, (i < K - 1)%nat -> nth_error g i = Some x ->
                    (x <= 0)%R) /\
       (forall i x, (K - 1 <= i)%nat -> nth_error g i = Some x ->
                    (0 <= x)%R) /\
       (forall i j x y, (i <= j)%nat -> nth_error g i = Some x ->
                        nth_error g j = Some y -> (x <= y)%R)).
Proof.
  intros H1 H2 HK P1 P2 Hs Hs1 Hq Hmono.
  assert (N1 : py_sum nR_S1 <> 0%R).
  { apply Rgt_not_eq, py_sum_pos; [assumption |].
    intros E. rewrite E in H1. simpl in H1. lia. }
  assert (N2 : py_sum nR_S2 <> 0%R).
  { apply Rgt_not_eq, py_sum_pos; [assumption |].
    intros E. rewrite E in H2. simpl in H2. lia. }
  pose proof (@rating_rates_eval nR_S1 nR_S2 K N1 N2) as Hrates.
  set (h := fun c => (py_sum (skipn c nR_S2) / py_sum nR_S2)%R) in *.
  set (f := fun c => (py_sum (skipn c nR_S1) / py_sum nR_S1)%R) in *.
  set (hr := map h (seq 1 (2 * K - 1))) in *.
  set (far := map f (seq 1 (2 * K - 1))) in *.
  assert (Lhr : length hr = (2 * K - 1)%nat)
    by (unfold hr; now rewrite length_map, length_seq).
  assert (Lfar : length far = (2 * K - 1)%nat)
    by (unfold far; now rewrite length_map, length_seq).
  pose proof (@initial_estimate_eval nR_S1 nR_S2 s fninv K hr far
                H1 HK Hrates Lhr Lfar Hs ltac:(lra)) as Heval.
  cbv zeta in Heval.
  assert (Hh : forall c, (1 <= c < 2 * K)%nat -> (0 < h c < 1)%R)
    by (intros c Hc; apply cumulative_rate_interior; [assumption | lia]).
  assert (Hf : forall c, (1 <= c < 2 * K)%nat -> (0 < f c < 1)%R)
    by (intros c Hc; apply cumulative_rate_interior; [assumption | lia]).
  set (scale := (-1 / (1 + s))%R).
  assert (Hscale : (scale < 0)%R).
  { assert (Hinv : (0 < / (1 + s))%R) by (apply Rinv_0_lt_compat; lra).
    unfold scale, Rdiv. lra. }
  pose (gamma := fun i =>
          (scale * (quantile (h (S i)) + quantile (f (S i))))%R).
  assert (Hc1 : forall i, (i < 2 * K - 1)%nat ->
                          nth i (criteria_c1 fninv s hr far) NaN
                          = Fin (gamma i)).
  { intros i Hi. unfold criteria_c1.
    rewrite (nth_map_lt _ _ _ _ (0%R, 0%R)) by (rewrite length_combine; lia).
    rewrite combine_nth by lia. cbn [fst snd]. unfold hr, far.
    rewrite (nth_map_lt h _ _ _ 0%nat), (nth_map_lt f _ _ _ 0%nat)
      by (rewrite length_seq; lia).
    rewrite seq_nth by lia. cbn [Nat.add].
    rewrite (Hq (h (S i))), (Hq (f (S i))) by (apply Hh || apply Hf; lia).
    reflexivity. }
  assert (Hgamma : forall i j, (i <= j < 2 * K - 1)%nat ->
                               (gamma i <= gamma j)%R).
  { intros i j Hij. unfold gamma.
    assert (Eh : (quantile (h (S j)) <= quantile (h (S i)))%R).
    { apply Hmono; [split; [apply Hh; lia |] | apply Hh; lia].
      apply tail_rate_decreasing; [assumption | lia]. }
    assert (Ef : (quantile (f (S j)) <= quantile (f (S i)))%R).
    { apply Hmono; [split; [apply Hf; lia |] | apply Hf; lia].
      apply tail_rate_decreasing; [assumption | lia]. }
    nra. }
  eexists. split; [exact Heval |]. cbn [init_d1 guess].
  set (d := fsub _ _) in *.
  assert (Ed : exists delta, d = Fin delta).
  { unfold d, hr, far.
    rewrite (nth_map_lt h _ _ _ 0%nat), (nth_map_lt f _ _ _ 0%nat)
      by (rewrite length_seq; lia).
    rewrite seq_nth by lia.
    rewrite (Hq (h (1 + (K - 1))%nat)), (Hq (f (1 + (K - 1))%nat))
      by (apply Hh || apply Hf; lia).
    eexists. reflexivity. }
  destruct Ed as [delta Ed]. rewrite Ed. intros Hd0.
  assert (Hdelta : delta <> 0%R) by (intros E; apply Hd0; now rewrite E).
  rewrite (Hc1 (K - 1)%nat) by lia.
  rewrite fdiv_finite by exact Hdelta.
  cbn [fmul].
  set (rho := (delta * (gamma (K - 1)%nat / delta))%R).
  assert (Erho : rho = gamma (K - 1)%nat) by (unfold rho; now field).
  rewrite (t2_indices_eq K HK), !map_map.
  exists (map (fun i => (gamma i + - rho)%R)
              (seq 0 (K - 1) ++ seq K (K - 1))).
  split; [| split; [| split; [| split]]].
  - cbn [app]. f_equal. rewrite map_map. apply map_ext_in.
    intros i Hi. rewrite Nat2Z.id, Hc1; [reflexivity |].
    apply in_app_or in Hi. destruct Hi as [Hi | Hi]; apply in_seq in Hi; lia.
  - rewrite length_map, length_app, !length_seq. lia.
  - intros i x Hi Hx. rewrite nth_error_map, skipped_index_nth in Hx by lia.
    destruct (Nat.ltb_spec i (K - 1)); [| lia]. injection Hx as <-.
    pose proof (Hgamma i (K - 1)%nat ltac:(lia)). lra.
  - intros i x Hi Hx.
    pose proof (nth_error_lt _ _ _ Hx) as Hlt.
    rewrite length_map, length_app, !length_seq in Hlt.
    rewrite nth_error_map, skipped_index_nth in Hx by lia.
    destruct (Nat.ltb_spec i (K - 1)); [lia |]. injection Hx as <-.
    pose proof (Hgamma (K - 1)%nat (S i) ltac:(lia)). lra.
  - intros i j x y Hij Hx Hy.
    pose proof (nth_error_lt _ _ _ Hy) as Hlt.
    rewrite length_map, length_app, !length_seq in Hlt.
    rewrite nth_error_map, skipped_index_nth in Hx, Hy by lia.
    injection Hx as <-. injection Hy as <-.
    assert (Hg : (gamma (if (i <? K - 1)%nat then i else S i)
                  <= gamma (if (j <? K - 1)%nat then j else S j))%R).
    { apply Hgamma.
      destruct (Nat.ltb_spec i (K - 1)), (Nat.ltb_spec j (K - 1)); lia. }
    lra.
Qed.

Lemma initial_estimate_ordered_witness :
  exists init g,
    initial_estimate [3; 3; 1; 1]%R [1; 1; 3; 3]%R 1 uniform_ppf = Ok init /\
    guess init = init_d1 init :: map Fin g /\ length g = 2%nat.
Proof.
  destruct (initial_estimate_ordered
              [3; 3; 1; 1]%R [1; 1; 3; 3]%R 1 uniform_ppf (fun p => p) 2)
    as [init [Hinit Hg]].
  - reflexivity.
  - reflexivity.
  - lia.
  - repeat constructor; lra.
  - repeat constructor; lra.
  - lra.
  - lra.
  - intros p Hp. now apply uniform_ppf_interior.
  - intros p q Hpq _. lra.
  - destruct Hg as [g [Eg [Lg _]]].
    + rewrite initial_estimate_uniform_example in Hinit.
      injection Hinit as <-. cbn [init_d1]. intros E.
      injection E as E. lra.
    + exists init, g. auto.
Defined.

(** ** From [trials2counts] to [fit_meta_d_MLE] *)







(** ** A type 1 sensitivity of zero *)

Lemma signed_inf_not_finite (c : comparison) (r : R) : signed_inf c <> Fin r.
Proof. destruct c; discriminate. Qed.

Lemma zero_times_quotient_by_zero (t : fval) :
  fmul (Fin 0) (fdiv t (Fin 0)) = NaN.
Proof.
  destruct t as [a | | |]; cbn [fdiv].
  - rewrite (@Reqb_true 0 0) by reflexivity.
    destruct (Rsgn a); cbn [signed_inf fmul CompOpp];
      try rewrite (@Rsgn_Eq 0) by reflexivity; reflexivity.
  - rewrite (@Rsgn_Eq 0) by reflexivity. cbn [fmul].
    now rewrite (@Rsgn_Eq 0) by reflexivity.
  - rewrite (@Rsgn_Eq 0) by reflexivity. cbn [fmul].
    now rewrite (@Rsgn_Eq 0) by reflexivity.
  - reflexivity.
Qed.

Lemma fsub_nan (c : fval) : fsub c NaN = NaN.
Proof. now destruct c. Qed.

Lemma fmul_zero_inv (k : R) (v : fval) :
  k <> 0%R -> fmul (Fin k) v = Fin 0 -> v = Fin 0.
Proof.
  intros Hk H. destruct v as [a | | |]; cbn [fmul] in H.
  - injection H as H. f_equal.
    destruct (Rmult_integral _ _ H); [contradiction | assumption].
  - now apply signed_inf_not_finite in H.
  - now apply signed_inf_not_finite in H.
  - discriminate.
Qed.

(** The guess of line 463-464: the initial d' followed by the shifted
    criteria. *)
Lemma initial_estimate_guess (nR_S1 nR_S2 : list R) (s : R)
    (fninv : fval -> fval) (init : InitialEstimate) :
  initial_estimate nR_S1 nR_S2 s fninv = Ok init ->
  exists t2c1 : list fval,
    guess init
    = init_d1 init
      :: map (fun c => fsub c (fmul (init_d1 init)
                                    (fdiv (init_t1c1 init) (init_d1 init))))
             t2c1.
Proof.
  unfold initial_estimate. intros H.
  apply bind_ok_inv in H. destruct H as [[hr far] [_ H]].
  apply bind_ok_inv in H. destruct H as [inv_s [_ H]].
  apply bind_ok_inv in H. destruct H as [hr1 [_ H]].
  apply bind_ok_inv in H. destruct H as [far1 [_ H]].
  apply bind_ok_inv in H. destruct H as [scale [_ H]].
  apply bind_ok_inv in H. destruct H as [t1 [_ H]].
  apply bind_ok_inv in H. destruct H as [t2c1 [_ H]].
  cbn [relative_criterion scalar_div divides_plain_zero scalar_value bind]
    in H.
  apply (f_equal (fun o => match o with Ok y => y | Raise _ => init end))
    in H.
  cbv beta iota in H. subst init. cbn [guess init_d1 init_t1c1 app].
  now exists t2c1.
Qed.

Lemma package_da_zero (nR_S1 nR_S2 : list R) (s : R)
    (fncdf : fval -> fval -> fval -> fval) (d1 t1c1 : fval)
    (results : OptimizeResult) (fit : FitResult) :
  package nR_S1 nR_S2 s fncdf d1 t1c1 results = Ok fit ->
  da fit = Fin 0 -> d1 = Fin 0.
Proof.
  intros Hpack Hda. unfold_package_in Hpack.
  package_inversion Hpack fit. cbn [da] in Hda.
  apply pydiv_inv in Hsd, Hr. destruct Hsd as [Hs _]. destruct Hr as [Hq ->].
  assert (Hpos : (0 < 2 / (1 + s * s))%R)
    by (apply Rdiv_lt_0_compat; nra).
  cbn [np_sqrt] in Hda. rewrite (Rsgn_Gt Hpos) in Hda. cbn [fmul] in Hda.
  apply fmul_zero_inv in Hda; [exact Hda |].
  pose proof (sqrt_lt_R0 _ Hpos). nra.
Qed.

(** X30.  A sensitivity of zero gives the optimizer a starting point of
    NaN.  In every result of [fit_meta_d_MLE] whose [da] is 0, the initial
    d' was 0, and in the guess handed to [minimize] every entry after the
    first (the type 2 criteria) was NaN: line 464 subtracts
    [meta_d1 * (t1c1 / d1)], which is [0 * (t1c1 / 0)]. *)
Theorem fit_meta_d_MLE_zero_sensitivity (minimize : minimizer)
    (nR_S1 nR_S2 : list R) (s : R)
    (fncdf : fval -> fval -> fval -> fval) (fninv : fval -> fval)
    (fit : FitResult) :
  fit_meta_d_MLE minimize nR_S1 nR_S2 s fncdf fninv = Ok fit ->
  da fit = Fin 0 ->
  exists init criteria,
    initial_estimate nR_S1 nR_S2 s fninv = Ok init /\
    init_d1 init = Fin 0 /\
    guess init = Fin 0 :: criteria /\
    Forall (fun c => c = NaN) criteria.
Proof.
  intros H Hda.
  destruct (fit_meta_d_MLE_inv _ _ _ _ _ _ H) as [init [results [Hinit Hpack]]].
  pose proof (package_da_zero _ _ _ _ _ _ _ _ Hpack Hda) as Hd.
  destruct (initial_estimate_guess _ _ _ _ _ Hinit) as [t2c1 Hg].
  rewrite Hd in Hg.
  exists init. eexists. split; [exact Hinit |]. split; [exact Hd |].
  split; [exact Hg |].
  apply Forall_forall. intros c Hc. apply in_map_iff in Hc.
  destruct Hc as [c0 [<- _]].
  now rewrite zero_times_quotient_by_zero, fsub_nan.
Qed.

Lemma fit_meta_d_MLE_zero_sensitivity_witness :
  exists fit init,
    fit_meta_d_MLE (minimize_at (fun g => g))
                   [1; 1; 1; 1]%R [1; 1; 1; 1]%R 1 uniform_cdf uniform_ppf
    = Ok fit /\
    da fit = Fin 0 /\
    initial_estimate [1; 1; 1; 1]%R [1; 1; 1; 1]%R 1 uniform_ppf = Ok init /\
    guess init = [Fin 0; NaN; NaN].
Proof.
  destruct (@fit_meta_d_logL_returns [Fin 0; NaN; NaN]
              {| nR_S1 := [1; 1; 1; 1]%R; nR_S2 := [1; 1; 1; 1]%R;
                 nRatings := Z.of_nat 2;
                 d1 := Numpy (Fin 0); t1c1 := Numpy (Fin (-0.5)); s := 1;
                 constant_criterion := relative_criterion;
                 fncdf := uniform_cdf; fninv := uniform_ppf |} 2)
    as [v Hv]; try reflexivity;
    [lia | cbn [s]; lra | eexists; reflexivity |].
  pose proof (@fit_meta_d_MLE_minimize_at
                (fun g => g)
                [1; 1; 1; 1]%R [1; 1; 1; 1]%R 1 uniform_cdf uniform_ppf 2
                _ v eq_refl eq_refl (le_n 2)
                initial_estimate_no_sensitivity Hv) as Hfit.
  cbn [init_d1 init_t1c1 guess] in Hfit.
  destruct (@package_returns [1; 1; 1; 1]%R [1; 1; 1; 1]%R 1 uniform_cdf
              (Fin 0) (Fin (-0.5))
              {| x := [Fin 0; NaN; NaN]; fun_ := v |} 2)
    as [fit Hpack]; try reflexivity;
    try (rewrite py_slice_from_skipn; unfold py_sum; cbn [skipn fold_left]);
    try lra; [lia |].
  rewrite <- Hfit in Hpack.
  assert (Hda : da fit = Fin 0).
  { rewrite Hfit in Hpack.
    destruct (package_ratio _ _ _ _ _ _ _ Hpack) as [r [m [Hr [_ [Hda _]]]]].
    apply pydiv_inv in Hr. destruct Hr as [_ ->].
    rewrite Hda. cbn [np_sqrt].
    rewrite (@Rsgn_Gt (2 / (1 + 1 * 1))) by lra. cbn [fmul].
    f_equal. lra. }
  destruct (fit_meta_d_MLE_zero_sensitivity _ _ _ _ _ _ _ Hpack Hda)
    as [init [criteria [Hinit [_ [Hg _]]]]].
  exists fit, init. split; [exact Hpack |]. split; [exact Hda |].
  split; [exact Hinit |].
  rewrite initial_estimate_no_sensitivity in Hinit.
  apply (f_equal (fun o => match o with Ok y => guess y | Raise _ => [] end))
    in Hinit.
  cbn [guess] in Hinit. now rewrite <- Hinit.
Defined.
